(** * open-lovable: error classification, project persistence, sandbox lifecycle

  A shallow embedding of the core of the repository:
  - [src/lib/project-persistence.ts]  (module [ProjectPersistence]),
  - [src/lib/error-monitor.ts]        (module [ErrorMonitor]),
  - the auto-fix route                (module [AutoFixRoute]),
  - the sandbox warning component     (module [SandboxWarning]),
  - the restore-project route         (module [RestoreRoute]),
  - [path.join] of Node               (module [Path]),
  - the error handler of the editor   (module [ErrorHandler]),
  - what the sandbox warning shows    (module [SandboxBanner]),
  - the file-content and save-file routes (module [FileRoutes]),
  - the file explorer of the editor   (module [FileExplorer]),
  - the clean-up of scraped text      (module [ScrapeRoute]).

  JavaScript values that travel through [JSON.stringify] / [JSON.parse] are
  trees of type [json]; strings are sequences of 8-bit characters; numbers
  are integers; [JSON.valid] recognises the whole grammar of JSON, so that
  a text that is no JSON is told apart from one beyond these values.  The Web Storage areas are finite maps from keys to strings
  with a quota, so that [setItem] can throw as it does in a browser. *)

From Stdlib Require Import ZArith List Ascii String Decimal DecimalString DecimalZ DecimalPos.
From Stdlib Require Import Lia Bool Sorting.Sorted.
From stdpp Require Import gmap strings.
Import ListNotations.

(* ===================================================================== *)
(** * Strings *)
(* ===================================================================== *)

Module Str.

(** The double quote character (code 34). *)
Definition dquote : ascii := "034"%char.
Definition backslash : ascii := "092"%char.
Definition LF : ascii := "010"%char.
Definition CR : ascii := "013"%char.
Definition TAB : ascii := "009"%char.
Definition BS : ascii := "008"%char.
Definition FF : ascii := "012"%char.

Definition code (c : ascii) : N := N_of_ascii c.

(** [s.startsWith(p)], returning what follows the prefix. *)
Fixpoint strip_prefix (p s : string) : option string :=
  match p with
  | EmptyString => Some s
  | String a p' =>
      match s with
      | EmptyString => None
      | String b s' => if Ascii.eqb a b then strip_prefix p' s' else None
      end
  end.

Definition startsWith (s p : string) : bool :=
  match strip_prefix p s with Some _ => true | None => false end.

(** [s.includes(m)]. *)
Fixpoint includes (s m : string) : bool :=
  startsWith s m ||
  match s with
  | EmptyString => false
  | String _ s' => includes s' m
  end.

(** [s.endsWith(m)]. *)
Fixpoint endsWith (s m : string) : bool :=
  String.eqb s m ||
  match s with
  | EmptyString => false
  | String _ s' => endsWith s' m
  end.

(** [xs.join(sep)]. *)
Fixpoint join (sep : string) (xs : list string) : string :=
  match xs with
  | [] => ""
  | [x] => x
  | x :: xs' => x +:+ sep +:+ join sep xs'
  end.

(** Decimal digits of an integer, as [Number.prototype.toString] prints
    an integer. *)
Definition of_Z (n : Z) : string := NilZero.string_of_int (Z.to_int n).

End Str.

(* ===================================================================== *)
(** * JSON values, [JSON.stringify] and [JSON.parse] *)
(* ===================================================================== *)

Module JSON.
Import Str.

(** A JavaScript value that [JSON.parse] can return.  An object is the
    list of its own properties in insertion order. *)
#[local] Set Warnings "-register-all".
Inductive json : Type :=
| JNull
| JBool (b : bool)
| JNum (n : Z)
| JStr (s : string)
| JArr (l : list json)
| JObj (l : list (string * json)).

(** ** Objects *)

(** Property lookup in a property list. *)
Fixpoint assoc (k : string) (l : list (string * json)) : option json :=
  match l with
  | [] => None
  | (k', v) :: l' => if String.eqb k k' then Some v else assoc k l'
  end.

(** [o[k] = v]: an existing property keeps its place, a new one goes last. *)
Fixpoint obj_set (k : string) (v : json) (l : list (string * json))
  : list (string * json) :=
  match l with
  | [] => [(k, v)]
  | (k', v') :: l' =>
      if String.eqb k k' then (k, v) :: l' else (k', v') :: obj_set k v l'
  end.

(** Defining the properties of [ps] one after the other on top of [acc]:
    what an object literal, a spread, or [JSON.parse] on a text with a
    repeated key does. *)
Definition define_all (ps acc : list (string * json)) : list (string * json) :=
  fold_left (fun o p => obj_set (fst p) (snd p) o) ps acc.

(** ** Truthiness and strict equality of keys *)

(** [!!v] for a value or [undefined] ([None]). *)
Definition truthy (v : option json) : bool :=
  match v with
  | None => false
  | Some JNull => false
  | Some (JBool b) => b
  | Some (JNum n) => negb (Z.eqb n 0)
  | Some (JStr s) => negb (String.eqb s "")
  | Some (JArr _) => true
  | Some (JObj _) => true
  end.

(** ** Serialization *)

Definition hex_digit (n : N) : ascii :=
  ascii_of_N (if N.ltb n 10 then 48 + n else 87 + n)%N.

(** One character of a string literal, as [JSON.stringify] quotes it. *)
Definition escape_char (c : ascii) : string :=
  if Ascii.eqb c dquote then String backslash (String dquote "")
  else if Ascii.eqb c backslash then String backslash (String backslash "")
  else if Ascii.eqb c BS then String backslash "b"
  else if Ascii.eqb c TAB then String backslash "t"
  else if Ascii.eqb c LF then String backslash "n"
  else if Ascii.eqb c FF then String backslash "f"
  else if Ascii.eqb c CR then String backslash "r"
  else if N.ltb (code c) 32 then
    String backslash
      (String "u" (String "0" (String "0"
        (String (hex_digit (N.div (code c) 16))
          (String (hex_digit (N.modulo (code c) 16)) "")))))
  else String c "".

Fixpoint escape (s : string) : string :=
  match s with
  | EmptyString => ""
  | String c s' => escape_char c +:+ escape s'
  end.

Definition quote (s : string) : string :=
  String dquote (escape s +:+ String dquote "").

(** [JSON.stringify(v)] without indentation. *)
Fixpoint stringify (v : json) : string :=
  match v with
  | JNull => "null"
  | JBool true => "true"
  | JBool false => "false"
  | JNum n => of_Z n
  | JStr s => quote s
  | JArr l => "[" +:+ join "," (map stringify l) +:+ "]"
  | JObj l =>
      "{" +:+ join "," (map (fun p => quote (fst p) +:+ ":" +:+ stringify (snd p)) l)
          +:+ "}"
  end.

(** ** Parsing *)

Definition is_ws (c : ascii) : bool :=
  Ascii.eqb c " " || Ascii.eqb c TAB || Ascii.eqb c LF || Ascii.eqb c CR.

Fixpoint skip_ws (s : string) : string :=
  match s with
  | String c s' => if is_ws c then skip_ws s' else s
  | EmptyString => s
  end.

Definition hex_value (c : ascii) : option N :=
  let n := code c in
  if (N.leb 48 n && N.leb n 57)%N then Some (n - 48)%N
  else if (N.leb 97 n && N.leb n 102)%N then Some (n - 87)%N
  else if (N.leb 65 n && N.leb n 70)%N then Some (n - 55)%N
  else None.

(** The four hexadecimal digits of a [\u] escape; code points above 255
    do not fit the 8-bit characters of this model and are refused. *)
Definition parse_u4 (s : string) : option (ascii * string) :=
  match s with
  | String a (String b (String c (String d r))) =>
      match hex_value a, hex_value b, hex_value c, hex_value d with
      | Some x, Some y, Some z, Some w =>
          let n := (((x * 16 + y) * 16 + z) * 16 + w)%N in
          if N.ltb n 256 then Some (ascii_of_N n, r) else None
      | _, _, _, _ => None
      end
  | _ => None
  end.

(** The rest of a string literal, after its opening quote. *)
Fixpoint parse_string_body (s : string) : option (string * string) :=
  match s with
  | EmptyString => None
  | String c r =>
      if Ascii.eqb c dquote then Some ("", r)
      else if Ascii.eqb c backslash then
        match r with
        | EmptyString => None
        | String e r' =>
            let plain (x : ascii) :=
              match parse_string_body r' with
              | Some (t, r'') => Some (String x t, r'')
              | None => None
              end in
            if Ascii.eqb e dquote then plain dquote
            else if Ascii.eqb e backslash then plain backslash
            else if Ascii.eqb e "/" then plain "/"%char
            else if Ascii.eqb e "b" then plain BS
            else if Ascii.eqb e "f" then plain FF
            else if Ascii.eqb e "n" then plain LF
            else if Ascii.eqb e "r" then plain CR
            else if Ascii.eqb e "t" then plain TAB
            else if Ascii.eqb e "u" then
              match r' with
              | String a (String b (String c (String d r2))) =>
                  match parse_u4 r' with
                  | Some (x, _) =>
                      match parse_string_body r2 with
                      | Some (t, r'') => Some (String x t, r'')
                      | None => None
                      end
                  | None => None
                  end
              | _ => None
              end
            else None
        end
      else if N.ltb (code c) 32 then None
      else
        match parse_string_body r with
        | Some (t, r') => Some (String c t, r')
        | None => None
        end
  end.

Definition digit_of (c : ascii) : option (uint -> uint) :=
  if Ascii.eqb c "0" then Some D0
  else if Ascii.eqb c "1" then Some D1
  else if Ascii.eqb c "2" then Some D2
  else if Ascii.eqb c "3" then Some D3
  else if Ascii.eqb c "4" then Some D4
  else if Ascii.eqb c "5" then Some D5
  else if Ascii.eqb c "6" then Some D6
  else if Ascii.eqb c "7" then Some D7
  else if Ascii.eqb c "8" then Some D8
  else if Ascii.eqb c "9" then Some D9
  else None.

(** The longest run of decimal digits at the head of [s]. *)
Fixpoint read_digits (s : string) : uint * string :=
  match s with
  | EmptyString => (Nil, s)
  | String c r =>
      match digit_of c with
      | Some d => let (u, r') := read_digits r in (d u, r')
      | None => (Nil, s)
      end
  end.

(** What may follow an integer literal: anything but a fraction or an
    exponent, which this model (integers only) refuses. *)
Definition integer_ends (s : string) : bool :=
  match s with
  | String c _ => negb (Ascii.eqb c "." || Ascii.eqb c "e" || Ascii.eqb c "E")
  | EmptyString => true
  end.

(** An integer literal: an optional minus sign, then either a single
    zero or a run of digits that does not start with zero. *)
Definition parse_number (s : string) : option (Z * string) :=
  let (neg, s1) :=
    match strip_prefix "-" s with
    | Some r => (true, r)
    | None => (false, s)
    end in
  let (u, r) := read_digits s1 in
  if uint_beq u Nil then None
  else if negb (uint_beq (unorm u) u) then None
  else if negb (integer_ends r) then None
  else Some (Z.of_int (if neg then Neg u else Pos u), r).

(** Recursive descent; [fuel] bounds the nesting and the number of
    elements, [parse] below supplies the length of the text. *)
Fixpoint parse_value (fuel : nat) (s : string) : option (json * string) :=
  match fuel with
  | O => None
  | S fuel' =>
      match s with
      | EmptyString => None
      | String c r =>
          if Ascii.eqb c "n" then
            match strip_prefix "ull" r with Some r' => Some (JNull, r') | None => None end
          else if Ascii.eqb c "t" then
            match strip_prefix "rue" r with Some r' => Some (JBool true, r') | None => None end
          else if Ascii.eqb c "f" then
            match strip_prefix "alse" r with Some r' => Some (JBool false, r') | None => None end
          else if Ascii.eqb c dquote then
            match parse_string_body r with
            | Some (t, r') => Some (JStr t, r')
            | None => None
            end
          else if Ascii.eqb c "[" then
            match strip_prefix "]" (skip_ws r) with
            | Some r' => Some (JArr [], r')
            | None =>
                match parse_elems fuel' (skip_ws r) with
                | Some (vs, r') => Some (JArr vs, r')
                | None => None
                end
            end
          else if Ascii.eqb c "{" then
            match strip_prefix "}" (skip_ws r) with
            | Some r' => Some (JObj [], r')
            | None =>
                match parse_members fuel' (skip_ws r) with
                | Some (ps, r') => Some (JObj (define_all ps []), r')
                | None => None
                end
            end
          else
            match parse_number s with
            | Some (n, r') => Some (JNum n, r')
            | None => None
            end
      end
  end

with parse_elems (fuel : nat) (s : string) : option (list json * string) :=
  match fuel with
  | O => None
  | S fuel' =>
      match parse_value fuel' s with
      | Some (v, r) =>
          match strip_prefix "," (skip_ws r) with
          | Some r' =>
              match parse_elems fuel' (skip_ws r') with
              | Some (vs, r'') => Some (v :: vs, r'')
              | None => None
              end
          | None =>
              match strip_prefix "]" (skip_ws r) with
              | Some r' => Some ([v], r')
              | None => None
              end
          end
      | None => None
      end
  end

with parse_members (fuel : nat) (s : string)
  : option (list (string * json) * string) :=
  match fuel with
  | O => None
  | S fuel' =>
      match strip_prefix (String dquote "") s with
      | Some r =>
          match parse_string_body r with
          | Some (k, r1) =>
              match strip_prefix ":" (skip_ws r1) with
              | Some r2 =>
                  match parse_value fuel' (skip_ws r2) with
                  | Some (v, r3) =>
                      match strip_prefix "," (skip_ws r3) with
                      | Some r4 =>
                          match parse_members fuel' (skip_ws r4) with
                          | Some (ps, r5) => Some ((k, v) :: ps, r5)
                          | None => None
                          end
                      | None =>
                          match strip_prefix "}" (skip_ws r3) with
                          | Some r4 => Some ([(k, v)], r4)
                          | None => None
                          end
                      end
                  | None => None
                  end
              | None => None
              end
          | None => None
          end
      | None => None
      end
  end.

(** [JSON.parse(text)] for a text within the model; [None] when it
    throws a [SyntaxError], and also on a number with a fraction or an
    exponent and on a [\u] escape above [00FF], which [valid] below
    tells apart. *)
Definition parse (text : string) : option json :=
  match parse_value (String.length text) (skip_ws text) with
  | Some (v, r) =>
      match skip_ws r with
      | EmptyString => Some v
      | _ => None
      end
  | None => None
  end.

(** ** The grammar of JSON *)

(** [parse] reads the texts whose numbers are integers and whose [\u]
    escapes stay below 256, the values of this model.  [valid] tells
    whether a text is JSON at all, with fractions, exponents and every
    [\u] escape: [JSON.parse] throws a [SyntaxError] exactly on the
    texts that are not valid. The fuel of the recogniser is the length
    of the text, which is always enough ([valid_any_fuel]). *)

Definition is_hex (c : ascii) : bool :=
  match hex_value c with Some _ => true | None => false end.

(** The rest of a string literal, after its opening quote; what follows
    the closing quote is returned. *)
Fixpoint valid_string_body (s : string) : option string :=
  match s with
  | EmptyString => None
  | String c r =>
      if Ascii.eqb c dquote then Some r
      else if Ascii.eqb c backslash then
        match r with
        | EmptyString => None
        | String e r' =>
            if Ascii.eqb e dquote || Ascii.eqb e backslash || Ascii.eqb e "/"
               || Ascii.eqb e "b" || Ascii.eqb e "f" || Ascii.eqb e "n"
               || Ascii.eqb e "r" || Ascii.eqb e "t"
            then valid_string_body r'
            else if Ascii.eqb e "u" then
              match r' with
              | String a (String b (String c (String d r2))) =>
                  if is_hex a && is_hex b && is_hex c && is_hex d
                  then valid_string_body r2
                  else None
              | _ => None
              end
            else None
        end
      else if N.ltb (code c) 32 then None
      else valid_string_body r
  end.

(** A run of one digit or more. *)
Definition some_digits (s : string) : option string :=
  let (u, r) := read_digits s in
  if uint_beq u Nil then None else Some r.

(** A number: an optional minus sign, an integer part without a leading
    zero, then an optional fraction and an optional exponent. *)
Definition valid_number (s : string) : option string :=
  let s1 := match strip_prefix "-" s with Some r => r | None => s end in
  let (u, r) := read_digits s1 in
  if uint_beq u Nil then None
  else if negb (uint_beq (unorm u) u) then None
  else
    let after_fraction :=
      match strip_prefix "." r with
      | Some f => some_digits f
      | None => Some r
      end in
    match after_fraction with
    | None => None
    | Some r1 =>
        match r1 with
        | String c x =>
            if Ascii.eqb c "e" || Ascii.eqb c "E" then
              match x with
              | String sign d =>
                  if Ascii.eqb sign "+" || Ascii.eqb sign "-" then some_digits d
                  else some_digits x
              | EmptyString => None
              end
            else Some r1
        | EmptyString => Some r1
        end
    end.

Fixpoint valid_value (fuel : nat) (s : string) : option string :=
  match fuel with
  | O => None
  | S fuel' =>
      match s with
      | EmptyString => None
      | String c r =>
          if Ascii.eqb c "n" then strip_prefix "ull" r
          else if Ascii.eqb c "t" then strip_prefix "rue" r
          else if Ascii.eqb c "f" then strip_prefix "alse" r
          else if Ascii.eqb c dquote then valid_string_body r
          else if Ascii.eqb c "[" then
            match strip_prefix "]" (skip_ws r) with
            | Some r' => Some r'
            | None => valid_elems fuel' (skip_ws r)
            end
          else if Ascii.eqb c "{" then
            match strip_prefix "}" (skip_ws r) with
            | Some r' => Some r'
            | None => valid_members fuel' (skip_ws r)
            end
          else valid_number s
      end
  end

with valid_elems (fuel : nat) (s : string) : option string :=
  match fuel with
  | O => None
  | S fuel' =>
      match valid_value fuel' s with
      | Some r =>
          match strip_prefix "," (skip_ws r) with
          | Some r' => valid_elems fuel' (skip_ws r')
          | None => strip_prefix "]" (skip_ws r)
          end
      | None => None
      end
  end

with valid_members (fuel : nat) (s : string) : option string :=
  match fuel with
  | O => None
  | S fuel' =>
      match strip_prefix (String dquote "") s with
      | Some r =>
          match valid_string_body r with
          | Some r1 =>
              match strip_prefix ":" (skip_ws r1) with
              | Some r2 =>
                  match valid_value fuel' (skip_ws r2) with
                  | Some r3 =>
                      match strip_prefix "," (skip_ws r3) with
                      | Some r4 => valid_members fuel' (skip_ws r4)
                      | None => strip_prefix "}" (skip_ws r3)
                      end
                  | None => None
                  end
              | None => None
              end
          | None => None
          end
      | None => None
      end
  end.

Definition valid (text : string) : bool :=
  match valid_value (String.length text) (skip_ws text) with
  | Some r =>
      match skip_ws r with
      | EmptyString => true
      | _ => false
      end
  | None => false
  end.

(** ** Well-formed values: no object has two properties of the same name *)

Fixpoint nodupb (l : list string) : bool :=
  match l with
  | [] => true
  | k :: l' => negb (existsb (String.eqb k) l') && nodupb l'
  end.

Fixpoint wfb (v : json) : bool :=
  match v with
  | JArr l => forallb wfb l
  | JObj l => nodupb (map fst l) && forallb (fun p => wfb (snd p)) l
  | _ => true
  end.

End JSON.

(* ===================================================================== *)
(** * Property access on parsed values *)
(* ===================================================================== *)

Module JS.
Import Str JSON.

(** The own enumerable properties that a spread [{...v}] copies. *)
Fixpoint indexed_from (i : Z) (l : list json) : list (string * json) :=
  match l with
  | [] => []
  | v :: l' => (of_Z i, v) :: indexed_from (i + 1) l'
  end.

Fixpoint chars (s : string) : list json :=
  match s with
  | EmptyString => []
  | String c s' => JStr (String c "") :: chars s'
  end.

Definition spread (v : json) : list (string * json) :=
  match v with
  | JObj l => l
  | JArr l => indexed_from 0 l
  | JStr s => indexed_from 0 (chars s)
  | _ => []
  end.

(** [v[k]] for a value other than [null]; [None] is [undefined]. *)
Definition get_prop (k : string) (v : json) : option json :=
  match v with
  | JObj l => assoc k l
  | JArr l =>
      if String.eqb k "length" then Some (JNum (Z.of_nat (List.length l)))
      else assoc k (indexed_from 0 l)
  | JStr s =>
      if String.eqb k "length" then Some (JNum (Z.of_nat (String.length s)))
      else assoc k (indexed_from 0 (chars s))
  | _ => None
  end.

Definition isArray (v : option json) : bool :=
  match v with Some (JArr _) => true | _ => false end.

(** SameValueZero, the equality of [Map] keys and [Set] members.  Objects
    and arrays are compared by identity, and every object that
    [JSON.parse] returns is a new one. *)
Definition same_value_zero (a b : option json) : bool :=
  match a, b with
  | None, None => true
  | Some JNull, Some JNull => true
  | Some (JBool x), Some (JBool y) => Bool.eqb x y
  | Some (JNum x), Some (JNum y) => Z.eqb x y
  | Some (JStr x), Some (JStr y) => String.eqb x y
  | _, _ => false
  end.

(** [Map.prototype.set]: a present key keeps its place and gets the new
    value, a new key goes last. *)
Fixpoint map_set (k : option json) (v : json) (m : list (option json * json))
  : list (option json * json) :=
  match m with
  | [] => [(k, v)]
  | (k', v') :: m' =>
      if same_value_zero k' k then (k', v) :: m' else (k', v') :: map_set k v m'
  end.

(** [Set.prototype.add]: a member already present is not added again. *)
Fixpoint set_add (v : json) (s : list json) : list json :=
  match s with
  | [] => [v]
  | v' :: s' =>
      if same_value_zero (Some v') (Some v) then v' :: s' else v' :: set_add v s'
  end.

(** [new Set(xs)], as the list of its members in insertion order. *)
Definition new_Set (xs : list json) : list json :=
  fold_left (fun s x => set_add x s) xs [].

(** What a block of code does: complete normally or throw. *)
Inductive completion (A : Type) : Type :=
| Normal (a : A)
| Throw (message : string).
Arguments Normal {A} a.
Arguments Throw {A} message.

End JS.

(* ===================================================================== *)
(** * Web Storage *)
(* ===================================================================== *)

Module Storage.

(** A storage area ([localStorage], [sessionStorage]): its items and the
    number of characters (keys and values) that the browser grants it. *)
Record storage : Type := { items : gmap string string; quota : nat }.

Definition used (m : gmap string string) : nat :=
  map_fold (fun k v n => String.length k + String.length v + n) 0 m.

Definition getItem (k : string) (st : storage) : option string := items st !! k.

(** [setItem] throws a [QuotaExceededError] ([None]) when the new value
    does not fit, and then changes nothing. *)
Definition setItem (k v : string) (st : storage) : option storage :=
  let m := <[k := v]> (items st) in
  if used m <=? quota st then Some {| items := m; quota := quota st |} else None.

Definition removeItem (k : string) (st : storage) : storage :=
  {| items := delete k (items st); quota := quota st |}.

(** [!s] for the result of [getItem]: [null] and the empty string. *)
Definition falsy (s : option string) : bool :=
  match s with
  | None => true
  | Some s => String.eqb s ""
  end.

End Storage.

(* ===================================================================== *)
(** * src/lib/project-persistence.ts *)
(* ===================================================================== *)

Module ProjectPersistence.
Import Str JSON JS Storage.

Record ProjectFile : Type :=
  { path : string; content : string; type_ : string }.

Record ProjectState : Type :=
  { files : list ProjectFile;
    packages : list string;
    lastSaved : string;
    projectName : string;
    sandboxId : option string }.

(** The objects that TypeScript types as [ProjectFile] and
    [ProjectState]; a [Date] stands as its ISO string, which is what
    [JSON.stringify] makes of it. *)
Definition file_json (f : ProjectFile) : json :=
  JObj [("path", JStr (path f)); ("content", JStr (content f)); ("type", JStr (type_ f))].

Definition state_json (s : ProjectState) : json :=
  JObj ([("files", JArr (map file_json (files s)));
         ("packages", JArr (map JStr (packages s)));
         ("lastSaved", JStr (lastSaved s));
         ("projectName", JStr (projectName s))]
        ++ match sandboxId s with
           | Some id => [("sandboxId", JStr id)]
           | None => []
           end).

Inductive level : Type := Log | Warn | Error.

(** The browser as the class sees it. [window] is false on the server,
    where there is no [localStorage]. *)
Record world : Type :=
  { window : bool;
    localStorage : storage;
    console : list (level * string) }.

Definition say (l : level) (msg : string) (w : world) : world :=
  {| window := window w; localStorage := localStorage w;
     console := console w ++ [(l, msg)] |}.

Definition with_storage (st : storage) (w : world) : world :=
  {| window := window w; localStorage := st; console := console w |}.

Definition STORAGE_KEY : string := "lovable_project_state".
Definition BACKUP_KEY : string := "lovable_project_backup".

(** [saveProject(state)], with [now] the reading of the clock
    ([new Date().toISOString()]).  Nothing that a [json] holds makes
    [JSON.stringify] throw, so only the two writes can fail. *)
Definition serialized (now : string) (state : json) : string :=
  stringify (JObj (obj_set "lastSaved" (JStr now) (spread state))).

Definition saveProject (now : string) (state : json) (w : world) : world :=
  if negb (window w) then w
  else
    match setItem STORAGE_KEY (serialized now state) (localStorage w) with
    | None => say Error "[ProjectPersistence] Failed to save project:" w
    | Some st1 =>
        match setItem BACKUP_KEY (serialized now state) st1 with
        | None =>
            say Error "[ProjectPersistence] Failed to save project:" (with_storage st1 w)
        | Some st2 =>
            say Log "[ProjectPersistence] Project saved successfully" (with_storage st2 w)
        end
    end.

(** [loadProject()]; [JNull] is [null]. *)
Definition loadProject (w : world) : json * world :=
  if negb (window w) then (JNull, w)
  else
    let stored := getItem STORAGE_KEY (localStorage w) in
    if falsy stored then
      let backup := getItem BACKUP_KEY (localStorage w) in
      if negb (falsy backup) then
        let w1 := say Log "[ProjectPersistence] Loading from backup" w in
        match parse (default "" backup) with
        | Some v => (v, w1)
        | None => (JNull, say Error "[ProjectPersistence] Failed to load project:" w1)
        end
      else (JNull, w)
    else
      match parse (default "" stored) with
      | Some state => (state, say Log "[ProjectPersistence] Project loaded successfully" w)
      | None => (JNull, say Error "[ProjectPersistence] Failed to load project:" w)
      end.

(** [existingState.files.forEach(file => fileMap.set(file.path, file))]
    over the elements of a parsed array; reading [.path] of [null]
    throws. *)
Fixpoint set_each (l : list json) (m : list (option json * json))
  : completion (list (option json * json)) :=
  match l with
  | [] => Normal m
  | JNull :: _ => Throw "TypeError: Cannot read properties of null (reading 'path')"
  | file :: l' => set_each l' (map_set (get_prop "path" file) file m)
  end.

(** [[...xs]] for a parsed value: arrays and strings are iterable. *)
Definition iterate (v : option json) : completion (list json) :=
  match v with
  | Some (JArr l) => Normal l
  | Some (JStr s) => Normal (chars s)
  | _ => Throw "TypeError: not iterable"
  end.

(** [saveFiles(files, packages)]. The method has no [try]: what throws
    inside reaches the caller. *)
Definition saveFiles (now : string) (files : list ProjectFile) (packages : list string)
    (w : world) : completion unit * world :=
  let (loaded, w1) := loadProject w in
  let existingState :=
    if truthy (Some loaded) then loaded
    else JObj [("files", JArr []); ("packages", JArr []);
               ("projectName", JStr "PLC Karting"); ("lastSaved", JStr now)] in
  match get_prop "files" existingState with
  | Some (JArr existing) =>
      match set_each existing [] with
      | Throw e => (Throw e, w1)
      | Normal fileMap0 =>
          let fileMap :=
            fold_left (fun m f => map_set (Some (JStr (path f))) (file_json f) m)
                      files fileMap0 in
          match iterate (get_prop "packages" existingState) with
          | Throw e => (Throw e, w1)
          | Normal old =>
              let allPackages := new_Set (old ++ map JStr packages) in
              let merged :=
                obj_set "lastSaved" (JStr now)
                  (obj_set "packages" (JArr allPackages)
                    (obj_set "files" (JArr (map snd fileMap)) (spread existingState))) in
              (Normal tt, saveProject now (JObj merged) w1)
          end
      end
  | _ => (Throw "TypeError: existingState.files.forEach is not a function", w1)
  end.

(** [hasProject()]. *)
Definition hasProject (w : world) : bool :=
  if negb (window w) then false
  else negb (falsy (getItem STORAGE_KEY (localStorage w)))
       || negb (falsy (getItem BACKUP_KEY (localStorage w))).

(** [clearProject()]. *)
Definition clearProject (w : world) : world :=
  if negb (window w) then w
  else say Log "[ProjectPersistence] Project cleared"
         (with_storage (removeItem BACKUP_KEY (removeItem STORAGE_KEY (localStorage w))) w).

(** [importProject(file)], with [file] the outcome of [file.text()]
    ([None] when that promise is rejected).  Every throw inside the [try]
    ends in the [catch], which answers [false]. *)
Definition importProject (now : string) (file : option string) (w : world)
  : bool * world :=
  let rejected := (false, say Error "[ProjectPersistence] Failed to import project:" w) in
  match file with
  | None => rejected
  | Some text =>
      match parse text with
      | None => rejected
      | Some JNull => rejected
      | Some state =>
          if negb (truthy (get_prop "files" state)) || negb (isArray (get_prop "files" state))
          then rejected
          else (true, saveProject now state w)
      end
  end.

End ProjectPersistence.

(* ===================================================================== *)
(** * Regular expressions *)
(* ===================================================================== *)

Module Regex.
Import Str.

(** The fragment of JavaScript regular expressions that the repository
    uses, without flags: greedy repetition, ordered alternatives,
    capture groups, [^] and [$] (start and end of the input). *)
Inductive re : Type :=
| Eps
| Chr (p : ascii -> bool)
| Seq (a b : re)
| Or (a b : re)
| Star (a : re)
| Bol
| Eol
| Grp (n : nat) (a : re).

(** Group number, start and end position of what it captured. *)
Definition captures : Type := list (nat * (nat * nat)).

Definition cont : Type := nat -> string -> captures -> option (nat * captures).

(** Backtracking matcher: [run r fuel pos s c k] matches [r] at position
    [pos], where [s] is the input from [pos] on, and hands what is left to
    [k]. An iteration of a star that consumes nothing is refused; [fuel]
    bounds the iterations, the length of the input is enough. *)
Fixpoint run (r : re) (fuel : nat) (pos : nat) (s : string) (c : captures) (k : cont)
  {struct r} : option (nat * captures) :=
  match r with
  | Eps => k pos s c
  | Chr p =>
      match s with
      | String x s' => if p x then k (S pos) s' c else None
      | EmptyString => None
      end
  | Seq a b => run a fuel pos s c (fun pos' s' c' => run b fuel pos' s' c' k)
  | Or a b =>
      match run a fuel pos s c k with
      | Some m => Some m
      | None => run b fuel pos s c k
      end
  | Star a =>
      (fix loop (n : nat) (pos : nat) (s : string) (c : captures) {struct n} :=
         match n with
         | O => k pos s c
         | S n' =>
             match run a fuel pos s c
                     (fun pos' s' c' => if pos <? pos' then loop n' pos' s' c' else None) with
             | Some m => Some m
             | None => k pos s c
             end
         end) fuel pos s c
  | Bol => if pos =? 0 then k pos s c else None
  | Eol => match s with EmptyString => k pos s c | _ => None end
  | Grp n a => run a fuel pos s c (fun pos' s' c' => k pos' s' ((n, (pos, pos')) :: c'))
  end.

(** The leftmost match at or after [pos]: its start, its end and its
    groups. *)
Fixpoint exec_from (r : re) (pos : nat) (s : string) : option (nat * nat * captures) :=
  match run r (S (String.length s)) pos s [] (fun pos' _ c => Some (pos', c)) with
  | Some (e, c) => Some (pos, e, c)
  | None =>
      match s with
      | String _ s' => exec_from r (S pos) s'
      | EmptyString => None
      end
  end.

Definition exec (r : re) (s : string) : option (nat * nat * captures) :=
  exec_from r 0 s.

(** [r.test(s)]. *)
Definition test (r : re) (s : string) : bool :=
  match exec r s with Some _ => true | None => false end.

(** [s.match(r)[n]] for a group that took part in the match. *)
Definition group (n : nat) (s : string) (m : nat * nat * captures) : option string :=
  match List.find (fun g => fst g =? n) (snd m) with
  | Some (_, (b, e)) => Some (substring b (e - b) s)
  | None => None
  end.

(** [s.replace(r, repl)] for a replacement text without [$]. *)
Definition replace (r : re) (repl : string) (s : string) : string :=
  match exec r s with
  | Some (b, e, _) =>
      substring 0 b s +:+ repl +:+ substring e (String.length s - e) s
  | None => s
  end.

(** [s.replace(r, repl)] for [r] with the [g] flag; [s] is the input
    from [pos] on. After an empty match the search resumes one character
    further. *)
Fixpoint replace_all_from (fuel : nat) (r : re) (repl : string) (pos : nat) (s : string)
  : string :=
  match fuel with
  | O => s
  | S fuel' =>
      match exec_from r pos s with
      | None => s
      | Some (b, e, _) =>
          let before := substring 0 (b - pos) s in
          let rest := substring (e - pos) (String.length s - (e - pos)) s in
          if e =? b then
            match rest with
            | EmptyString => before +:+ repl
            | String x rest' =>
                before +:+ repl +:+ String x (replace_all_from fuel' r repl (S e) rest')
            end
          else before +:+ repl +:+ replace_all_from fuel' r repl e rest
      end
  end.

Definition replace_all (r : re) (repl : string) (s : string) : string :=
  replace_all_from (S (String.length s)) r repl 0 s.

(** ** Building blocks *)

Definition chr (x : ascii) : re := Chr (Ascii.eqb x).

Fixpoint lit (s : string) : re :=
  match s with
  | EmptyString => Eps
  | String x EmptyString => chr x
  | String x s' => Seq (chr x) (lit s')
  end.

Definition plus (a : re) : re := Seq a (Star a).
Definition opt (a : re) : re := Or a Eps.

(** [.]: any character but a line terminator. *)
Definition dot : re := Chr (fun x => negb (Ascii.eqb x LF || Ascii.eqb x CR)).
Definition any_star : re := Star dot.

Definition digit : re := Chr (fun x => (N.leb 48 (code x) && N.leb (code x) 57)%N).

(** [\s], among the 8-bit characters. *)
Definition is_space (x : ascii) : bool :=
  (N.leb 9 (code x) && N.leb (code x) 13)%N || Ascii.eqb x " " || N.eqb (code x) 160.
Definition space : re := Chr is_space.

Definition none_of (xs : list ascii) : re :=
  Chr (fun x => negb (existsb (Ascii.eqb x) xs)).

Fixpoint seq (rs : list re) : re :=
  match rs with
  | [] => Eps
  | [r] => r
  | r :: rs' => Seq r (seq rs')
  end.

End Regex.

(* ===================================================================== *)
(** * src/lib/error-monitor.ts *)
(* ===================================================================== *)

Module ErrorMonitor.
Import Str Regex.

Inductive error_type : Type := css | hydration | syntax | build | runtime.

Definition type_name (t : error_type) : string :=
  match t with
  | css => "css"
  | hydration => "hydration"
  | syntax => "syntax"
  | build => "build"
  | runtime => "runtime"
  end.

Record AutoFix : Type :=
  { file : string; fix_ : string; explanation : string; manual : bool }.

Record ErrorPattern : Type :=
  { pattern : re;
    type : error_type;
    autoFix : option (string -> option AutoFix);
    description : string }.

Definition backticks : string := "```".
Definition apostrophe : ascii := "039"%char.

(** [error.match(r)], then the producer on group 1. *)
Definition with_group1 (r : re) (error : string) (produce : string -> AutoFix)
  : option AutoFix :=
  match exec r error with
  | Some m =>
      match group 1 error m with
      | Some g => Some (produce g)
      | None => None
      end
  | None => None
  end.

Definition errorPatterns : list ErrorPattern :=
  [ {| pattern := seq [lit "[postcss]"; any_star; lit "Unknown word"; any_star;
                       lit (backticks +:+ "css")];
       type := css;
       description := "CSS file contains markdown syntax";
       autoFix := Some (fun error =>
         with_group1
           (seq [chr "/"; Grp 1 (seq [plus (none_of [":"%char]); lit ".css"])])
           error
           (fun g =>
              {| file := g;
                 fix_ := "Remove markdown code blocks from CSS file";
                 explanation :=
                   "CSS files should not contain markdown syntax like " +:+ backticks +:+ "css";
                 manual := false |})) |};
    {| pattern := seq [lit "hydrated but some attributes"; any_star;
                       lit ("didn" +:+ String apostrophe "t match")];
       type := hydration;
       description := "React hydration mismatch";
       autoFix := Some (fun _ =>
         Some {| file := "app/layout.tsx";
                 fix_ := "Add suppressHydrationWarning to affected elements";
                 explanation :=
                   "Browser extensions or client-only code causing hydration mismatch";
                 manual := false |}) |};
    {| pattern := Or (lit "WritableStream is closed")
                     (seq [lit "Invalid state"; any_star; lit "WritableStream"]);
       type := runtime;
       description := "Stream handling error";
       autoFix := Some (fun error =>
         with_group1
           (seq [lit "at"; any_star; chr "(";
                 Grp 1 (seq [plus (none_of [":"%char]); lit ".ts"]);
                 chr ":"; Grp 2 (plus digit); chr ":"; Grp 3 (plus digit); chr ")"])
           error
           (fun g =>
              {| file := g;
                 fix_ := "Add proper stream state checks before closing";
                 explanation :=
                   "Stream was already closed or locked when attempting to close";
                 manual := false |})) |};
    {| pattern := Or (seq [lit "Firecrawl API error"; any_star; lit "Invalid url"])
                     (Or (lit "Invalid URL") (lit "Invalid URL format"));
       type := runtime;
       description := "Invalid URL format for Firecrawl API";
       autoFix := Some (fun _ =>
         Some {| file := "app/api/scrape-url-enhanced/route.ts";
                 fix_ := "Extract and validate URL from user input";
                 explanation :=
                   "URL extraction improved to handle URLs embedded in prompts";
                 manual := false |}) |};
    {| pattern := Or (lit "Cannot find module") (lit "Module not found");
       type := build;
       description := "Missing module dependency";
       autoFix := Some (fun error =>
         with_group1
           (seq [Chr (fun x => Ascii.eqb x apostrophe || Ascii.eqb x dquote);
                 Grp 1 (plus (none_of [apostrophe; dquote]));
                 Chr (fun x => Ascii.eqb x apostrophe || Ascii.eqb x dquote)])
           error
           (fun g =>
              {| file := "package.json";
                 fix_ := "npm install " +:+ g;
                 explanation := "Missing dependency: " +:+ g;
                 manual := true |})) |};
    {| pattern := Or (lit "Unexpected token") (lit "SyntaxError");
       type := syntax;
       description := "JavaScript/TypeScript syntax error";
       autoFix := Some (fun error =>
         with_group1
           (seq [lit "at"; plus space;
                 Grp 1 (seq [plus (none_of [":"%char]); chr ".";
                             Grp 2 (Or (seq [lit "js"; opt (chr "x")])
                                       (seq [lit "ts"; opt (chr "x")]))])])
           error
           (fun g =>
              {| file := g;
                 fix_ := "Review and fix syntax error";
                 explanation := "Syntax error detected in file";
                 manual := true |})) |} ].

(** The [for ... of] loop of [detectError], over any list of patterns. *)
Fixpoint detect (patterns : list ErrorPattern) (errorMessage : string)
  : option ErrorPattern :=
  match patterns with
  | [] => None
  | p :: rest =>
      if test (pattern p) errorMessage then Some p else detect rest errorMessage
  end.

Definition detectError (errorMessage : string) : option ErrorPattern :=
  detect errorPatterns errorMessage.

(** The method [autoFix(errorMessage)]. *)
Definition autoFixFor (errorMessage : string) : option AutoFix :=
  match detectError errorMessage with
  | Some errorPattern =>
      match autoFix errorPattern with
      | Some producer => producer errorMessage
      | None => None
      end
  | None => None
  end.

Definition getErrorType (errorMessage : string) : string :=
  match detectError errorMessage with
  | Some p => type_name (type p)
  | None => "unknown"
  end.

End ErrorMonitor.

(* ===================================================================== *)
(** * [path.join] of Node, on a POSIX system *)
(* ===================================================================== *)

Module Path.
Import Str.

(** What stands between the slashes of a path. *)
Fixpoint segments (s : string) : list string :=
  match s with
  | EmptyString => [""]
  | String c s' =>
      if Ascii.eqb c "/" then "" :: segments s'
      else
        match segments s' with
        | seg :: segs => String c seg :: segs
        | [] => [String c ""]
        end
  end.

(** [normalizeString]: an empty segment and [.] are dropped; [..] takes
    away the segment before it, and where there is none, or [..] itself,
    it stays in a relative path and is dropped in an absolute one.
    [res] holds the segments kept so far, the last one first. *)
Fixpoint normalize_segments (allowAboveRoot : bool) (segs res : list string)
  : list string :=
  match segs with
  | [] => rev res
  | seg :: segs' =>
      if String.eqb seg "" || String.eqb seg "." then
        normalize_segments allowAboveRoot segs' res
      else if String.eqb seg ".." then
        match res with
        | prev :: res' =>
            if String.eqb prev ".." then
              normalize_segments allowAboveRoot segs'
                (if allowAboveRoot then ".." :: res else res)
            else normalize_segments allowAboveRoot segs' res'
        | [] =>
            normalize_segments allowAboveRoot segs'
              (if allowAboveRoot then [".."] else [])
        end
      else normalize_segments allowAboveRoot segs' (seg :: res)
  end.

(** [path.normalize(p)]. *)
Definition normalize (p : string) : string :=
  if String.eqb p "" then "."
  else
    let isAbsolute := startsWith p "/" in
    let trailingSeparator := endsWith p "/" in
    let res := Str.join "/" (normalize_segments (negb isAbsolute) (segments p) []) in
    if String.eqb res "" then
      if isAbsolute then "/" else if trailingSeparator then "./" else "."
    else
      let res' := if trailingSeparator then res +:+ "/" else res in
      if isAbsolute then "/" +:+ res' else res'.

(** [path.join(...paths)]. *)
Definition join (paths : list string) : string :=
  match filter (fun a => negb (String.eqb a "")) paths with
  | [] => "."
  | ps => normalize (Str.join "/" ps)
  end.

End Path.

(* ===================================================================== *)
(** * The auto-fix route (src/unnamed/part_001) *)
(* ===================================================================== *)

Module AutoFixRoute.
Import Str Regex ErrorMonitor.

(** The project directory of the server, and its files by their
    normalized path. [readFile] of a missing file throws; [writeFile]
    creates or replaces. *)
Record server : Type := { cwd : string; disk : gmap string string }.

(** [path.join(process.cwd(), file)]. *)
Definition join_path (dir file : string) : string := Path.join [dir; file].

Definition readFile (p : string) (sv : server) : option string := disk sv !! p.

Definition writeFile (p content : string) (sv : server) : server :=
  {| cwd := cwd sv; disk := <[p := content]> (disk sv) |}.

Record response : Type :=
  { status : nat; success : bool; message : option string; error : option string }.

Definition succeeded (msg : string) : response :=
  {| status := 200; success := true; message := Some msg; error := None |}.

(** The answer of the [catch] block. *)
Definition failed (e : string) : response :=
  {| status := 500; success := false; message := None; error := Some e |}.

Definition lines (ls : list string) : string := join (String LF "") ls.

Definition body_tag : re :=
  seq [lit "<body className={inter"; dot; lit "className}>"].

Definition css_open : re := seq [Bol; lit (backticks +:+ "css" +:+ String LF "")].
Definition css_close : re := seq [lit (String LF backticks); Eol].

Definition guarded_close : string :=
  lines [ "try {";
          "          if (writer && !stream.locked) {";
          "            await writer.close();";
          "          }";
          "        } catch (closeError) {";
          "          console.warn('Writer already closed or stream locked:', closeError);";
          "        }" ].

Definition urlValidation : string :=
  lines [ "";
          "function validateUrl(url: string): string {";
          "  try {";
          "    if (!url.startsWith('http://') && !url.startsWith('https://')) {";
          "      url = 'https://' + url;";
          "    }";
          "    const validUrl = new URL(url);";
          "    return validUrl.toString();";
          "  } catch {";
          "    throw new Error('Invalid URL format');";
          "  }";
          "}";
          "" ].

(** [POST(request)] for a request whose body is a plan: three strings
    [file], [fix] and [explanation]. *)
Definition POST (plan : AutoFix) (sv : server) : response * server :=
  let enoent := (failed "Error: ENOENT: no such file or directory", sv) in
  let filePath := join_path (cwd sv) (file plan) in
  if String.eqb (file plan) "app/layout.tsx"
     && includes (fix_ plan) "suppressHydrationWarning" then
    match readFile filePath sv with
    | None => enoent
    | Some content =>
        (succeeded "Hydration warning suppressed",
         if negb (includes content "suppressHydrationWarning") then
           writeFile filePath
             (replace body_tag "<body className={inter.className} suppressHydrationWarning>"
                      content) sv
         else sv)
    end
  else if endsWith (file plan) ".css" && includes (fix_ plan) "Remove markdown" then
    match readFile filePath sv with
    | None => enoent
    | Some content =>
        (succeeded "CSS markdown syntax removed",
         writeFile filePath (replace css_close "" (replace css_open "" content)) sv)
    end
  else if includes (file plan) "generate-ai-code-stream"
          && includes (fix_ plan) "stream state checks" then
    match readFile filePath sv with
    | None => enoent
    | Some content =>
        (succeeded "Stream error handling added",
         if negb (includes content "!stream.locked") then
           writeFile filePath
             (replace_all (lit "await writer.close();") guarded_close content) sv
         else sv)
    end
  else if includes (file plan) "scrape-url-enhanced"
          && includes (fix_ plan) "Validate and format URL" then
    match readFile filePath sv with
    | None => enoent
    | Some content =>
        (succeeded "URL validation added",
         if negb (includes content "validateUrl") then
           writeFile filePath
             (replace_all (lit "const targetUrl = url;")
                          "const targetUrl = validateUrl(url);"
                          (urlValidation +:+ String LF "" +:+ content)) sv
         else sv)
    end
  else
    ({| status := 200; success := false;
        message := Some "No auto-fix available"; error := None |}, sv).

End AutoFixRoute.

(* ===================================================================== *)
(** * The sandbox warning component (src/unnamed/part_000) *)
(* ===================================================================== *)

Module SandboxWarning.
Import Str Regex Storage JS.

(** A JavaScript number that holds a time: an integer or [NaN]. *)
Inductive num : Type := NaN | Num (z : Z).

Definition SANDBOX_LIFETIME : Z := 15 * 60 * 1000.
Definition WARNING_THRESHOLD : Z := 2 * 60 * 1000.

Fixpoint trim_start (s : string) : string :=
  match s with
  | String c s' => if is_space c then trim_start s' else s
  | EmptyString => s
  end.

Definition digit_value (c : ascii) : option Z :=
  match JSON.hex_value c with
  | Some n => Some (Z.of_N n)
  | None => None
  end.

(** The longest run of digits in [radix] at the head of [s]. *)
Fixpoint read_radix (radix : Z) (s : string) (acc : option Z) : option Z :=
  match s with
  | String c s' =>
      match digit_value c with
      | Some d =>
          if (d <? radix)%Z
          then read_radix radix s' (Some (default 0%Z acc * radix + d)%Z)
          else acc
      | None => acc
      end
  | EmptyString => acc
  end.

(** [parseInt(s)] without a radix. *)
Definition parseInt (s : string) : num :=
  let s0 := trim_start s in
  let (neg, s1) :=
    match strip_prefix "-" s0 with
    | Some r => (true, r)
    | None =>
        match strip_prefix "+" s0 with
        | Some r => (false, r)
        | None => (false, s0)
        end
    end in
  let (radix, s2) :=
    match strip_prefix "0x" s1 with
    | Some r => (16%Z, r)
    | None =>
        match strip_prefix "0X" s1 with
        | Some r => (16%Z, r)
        | None => (10%Z, s1)
        end
    end in
  match read_radix radix s2 None with
  | Some z => Num (if neg then - z else z)
  | None => NaN
  end.

Definition start_key (sandboxId : string) : string := "sandbox_start_" +:+ sandboxId.

(** The head of the lifecycle effect, past its guard [if (!sandboxId)
    return]: the start time of a [sandboxId] that is neither [null] nor
    empty, read from session storage or put there on first sight; [now]
    is [Date.now()]. [setItem] may throw. *)
Definition startTimeOf (sandboxId : string) (now : Z) (session : storage)
  : completion (num * storage) :=
  let savedStartTime := getItem (start_key sandboxId) session in
  if negb (falsy savedStartTime) then
    Normal (parseInt (default "" savedStartTime), session)
  else
    match setItem (start_key sandboxId) (of_Z now) session with
    | Some session' => Normal (Num now, session')
    | None => Throw "QuotaExceededError"
    end.

(** The state of the component, and whether its interval still runs. *)
Record view : Type :=
  { timeRemaining : option num;
    showWarning : bool;
    ticking : bool }.

Definition initial : view :=
  {| timeRemaining := None; showWarning := false; ticking := true |}.

(** The callback of [setInterval], at clock reading [now]. Every
    comparison with [NaN] is false. *)
Definition tick (startTime : num) (now : Z) (v : view) : view :=
  match startTime with
  | NaN => {| timeRemaining := Some NaN; showWarning := false; ticking := ticking v |}
  | Num t0 =>
      let elapsed := (now - t0)%Z in
      let remaining := (SANDBOX_LIFETIME - elapsed)%Z in
      if (remaining <=? 0)%Z then
        {| timeRemaining := Some (Num 0); showWarning := true; ticking := false |}
      else if (remaining <=? WARNING_THRESHOLD)%Z then
        {| timeRemaining := Some (Num remaining); showWarning := true; ticking := ticking v |}
      else
        {| timeRemaining := Some (Num remaining); showWarning := false; ticking := ticking v |}
  end.

(** The interval fires at the clock readings [nows], as long as it has
    not been cleared; the views after each firing. *)
Fixpoint observe (startTime : num) (nows : list Z) (v : view) : list view :=
  match nows with
  | [] => []
  | now :: later =>
      if ticking v then
        let v' := tick startTime now v in v' :: observe startTime later v'
      else []
  end.

(** What the component renders. *)
Inductive phase : Type := Active | Warning | Expired.

Definition phase_of (v : view) : phase :=
  match timeRemaining v with
  | None => Active
  | Some t =>
      if negb (showWarning v) then Active
      else
        match t with
        | Num z => if (z <=? 0)%Z then Expired else Warning
        | NaN => Warning
        end
  end.

Definition rank (p : phase) : nat :=
  match p with Active => 0 | Warning => 1 | Expired => 2 end.

(** The countdown that a view holds, when it holds one. *)
Definition remaining_of (v : view) : option Z :=
  match timeRemaining v with
  | Some (Num z) => Some z
  | _ => None
  end.

End SandboxWarning.

(* ===================================================================== *)
(** * The restore-project route (src/unnamed/part_003) *)
(* ===================================================================== *)

Module RestoreRoute.
Import Str JSON JS Regex.

(** What [await fetch(...)] yields: the promise is rejected (no answer
    at all), or a response arrives.  The body of a response is a sequence
    of chunks, after which reading either ends or throws. *)
Record http_response : Type :=
  { ok : bool;
    contentType : option string;
    body : option (list string);
    broken : bool }.

Inductive fetched : Type :=
| Rejected
| Responded (r : http_response).

Record reply : Type := { status : nat; payload : json }.

(** [s.split('\n')]. *)
Fixpoint split_lines (s : string) : list string :=
  match s with
  | EmptyString => [""]
  | String c s' =>
      if Ascii.eqb c LF then "" :: split_lines s'
      else
        match split_lines s' with
        | l :: ls => String c l :: ls
        | [] => [String c ""]
        end
  end.

Fixpoint trim_end (s : string) : string :=
  match s with
  | EmptyString => ""
  | String c s' =>
      match trim_end s' with
      | EmptyString => if is_space c then "" else String c ""
      | t => String c t
      end
  end.

Definition trim (s : string) : string := trim_end (SandboxWarning.trim_start s).

(** The test both loops make of a line: it starts with [data: ] once
    trimmed, what follows its sixth character parses, and the parsed
    value has [type] equal to ['complete']. A throw inside is caught and
    the line is skipped. *)
Definition completes (line : string) : bool :=
  if startsWith (trim line) "data: " then
    match parse (substring 6 (String.length line - 6) line) with
    | Some JNull => false
    | Some data =>
        match get_prop "type" data with
        | Some (JStr t) => String.eqb t "complete"
        | _ => false
        end
    | None => false
    end
  else false.

(** [await r.text()]. *)
Definition text (r : http_response) : completion string :=
  if broken r then Throw "TypeError: terminated"
  else Normal (String.concat "" (default [] (body r))).

(** The [while (!completed)] loop over the chunks of the reader. *)
Fixpoint read_stream (chunks : list string) (fails : bool) : completion unit :=
  match chunks with
  | [] => if fails then Throw "Error: Stream reading failed" else Normal tt
  | chunk :: later =>
      if existsb completes (split_lines chunk) then Normal tt
      else read_stream later fails
  end.

(** Lines 56 to 151: waiting for the apply endpoint to finish. *)
Definition await_apply (r : http_response) : completion unit :=
  if match contentType r with
     | Some ct => includes ct "text/event-stream"
     | None => false
     end
  then
    match body r with
    | Some chunks => read_stream chunks (broken r)
    | None => Normal tt
    end
  else
    match text r with
    | Throw e => Throw e
    | Normal responseText =>
        match parse responseText with
        | Some _ => Normal tt
        | None =>
            if existsb completes (split_lines responseText) then Normal tt
            else Throw "Error: Could not parse response as JSON or streaming format."
        end
    end.

Definition error_reply (code : nat) (msg : string) : reply :=
  {| status := code; payload := JObj [("error", JStr msg)] |}.

(** [packages?.length || 0]. *)
Definition length_or_0 (v : option json) : json :=
  match v with
  | None => JNum 0
  | Some JNull => JNum 0
  | Some p => if truthy (get_prop "length" p) then default (JNum 0) (get_prop "length" p)
              else JNum 0
  end.

(** [POST(request)]: [request] is the outcome of [request.json()]
    ([None] when it throws), [apply] and [restart] are what the two
    [fetch] calls yield. *)
Definition POST (request : option json) (apply restart : fetched) : reply :=
  match request with
  | None => error_reply 500 "SyntaxError: Unexpected end of JSON input"
  | Some JNull => error_reply 500 "TypeError: Cannot read properties of null"
  | Some requestData =>
      let files := get_prop "files" requestData in
      let packages := get_prop "packages" requestData in
      let sandboxId := get_prop "sandboxId" requestData in
      if negb (truthy files) || negb (isArray files) then
        error_reply 400 "Files array is required"
      else if negb (truthy sandboxId) then
        error_reply 400 "Sandbox ID is required"
      else
        let elements := match files with Some (JArr l) => l | _ => [] end in
        if existsb (fun f => match f with JNull => true | _ => false end) elements then
          error_reply 500 "TypeError: Cannot read properties of null (reading 'path')"
        else
          match apply with
          | Rejected => error_reply 500 "TypeError: fetch failed"
          | Responded applyResponse =>
              if negb (ok applyResponse) then
                match text applyResponse with
                | Throw e => error_reply 500 e
                | Normal details =>
                    {| status := 500;
                       payload := JObj [("error", JStr "Failed to apply files to sandbox");
                                        ("details", JStr details)] |}
                end
              else
                match await_apply applyResponse with
                | Throw e => error_reply 500 e
                | Normal _ =>
                    match restart with
                    | Rejected => error_reply 500 "TypeError: fetch failed"
                    | Responded restartResponse =>
                        (* a response that is not ok only logs a warning *)
                        {| status := 200;
                           payload :=
                             JObj [("success", JBool true);
                                   ("filesRestored",
                                    JNum (Z.of_nat (List.length elements)));
                                   ("packagesRestored", length_or_0 packages);
                                   ("message", JStr "Project restored successfully")] |}
                    end
                end
          end
  end.

End RestoreRoute.

(* ===================================================================== *)
(** * The error handler (src/components/code-editor.tsx) *)
(* ===================================================================== *)

Module ErrorHandler.
Import ErrorMonitor.

(** [handleError] and [handleUnhandledRejection]: the plan that the
    handler hands to [applyAutoFix], which posts it to the auto-fix
    route, if any ([fix && !fix.manual]). *)
Definition posted (message : string) : option AutoFix :=
  match autoFixFor message with
  | Some plan => if negb (manual plan) then Some plan else None
  | None => None
  end.

(** [response.ok]: the status is in the range 200 to 299. *)
Definition ok (r : AutoFixRoute.response) : bool :=
  (200 <=? AutoFixRoute.status r) && (AutoFixRoute.status r <=? 299).

End ErrorHandler.

(* ===================================================================== *)
(** * What the sandbox warning shows (src/unnamed/part_000) *)
(* ===================================================================== *)

Module SandboxBanner.
Import Str Storage SandboxWarning.

(** The first effect of the component:
    [!!localStorage.getItem('lovable_project_state')]. *)
Definition hasBackup (local : storage) : bool :=
  negb (falsy (getItem "lovable_project_state" local)).

Fixpoint repeat_string (n : nat) (s : string) : string :=
  match n with
  | O => ""
  | S n' => s +:+ repeat_string n' s
  end.

(** [s.padStart(targetLength, padString)]. *)
Definition padStart (targetLength : nat) (padString s : string) : string :=
  let fillLen := targetLength - String.length s in
  if (fillLen =? 0) || String.eqb padString "" then s
  else substring 0 fillLen (repeat_string fillLen padString) +:+ s.

(** A number in a template literal. *)
Definition show (n : num) : string :=
  match n with
  | NaN => "NaN"
  | Num z => of_Z z
  end.

(** [Math.floor(n / d)] and [n % d] for a positive integer [d]: the
    quotient is rounded down, the remainder has the sign of [n]. *)
Definition floor_div (n : num) (d : Z) : num :=
  match n with
  | NaN => NaN
  | Num z => Num (z / d)
  end.

Definition remainder (n : num) (d : Z) : num :=
  match n with
  | NaN => NaN
  | Num z => Num (Z.rem z d)
  end.

Definition formatTime (ms : num) : string :=
  let minutes := floor_div ms 60000 in
  let seconds := floor_div (remainder ms 60000) 1000 in
  show minutes +:+ ":" +:+ padStart 2 "0" (show seconds).

(** [timeRemaining <= 0]. *)
Definition is_over (t : num) : bool :=
  match t with
  | NaN => false
  | Num z => (z <=? 0)%Z
  end.

(** What the component returns: nothing, or the banner with its colour,
    its title, its text, the note about the backup and the label of its
    button. *)
Record banner : Type :=
  { red : bool; title : string; text : string; note : bool; button : string }.

Definition render (backup : bool) (v : view) : option banner :=
  if negb (showWarning v) then None
  else
    match timeRemaining v with
    | None => None
    | Some t =>
        Some {| red := is_over t;
                title := if is_over t then "Sandbox Expired" else "Sandbox Expiring Soon";
                text := if is_over t
                        then "Your sandbox has expired. Create a new one to continue working."
                        else "Your sandbox will expire in " +:+ formatTime t +:+ ".";
                note := backup;
                button := if is_over t then "Create New Sandbox" else "Extend Session" |}
    end.

(** The two buttons: both end in [setShowWarning(false)]. *)
Definition dismiss (v : view) : view :=
  {| timeRemaining := timeRemaining v; showWarning := false; ticking := ticking v |}.

(** What a component shows that was mounted when the local storage was
    [mounted_on], once the lifecycle effect has brought it to the view
    [v]. The first effect runs once, at the mount: what is stored later
    does not reach the note. *)
Definition shown (mounted_on : storage) (v : view) : option banner :=
  render (hasBackup mounted_on) v.

End SandboxBanner.

(* ===================================================================== *)
(** * Reading and saving a file (src/app/api/file-content/route.ts) *)
(* ===================================================================== *)

Module FileRoutes.
Import Str JSON JS AutoFixRoute.

(** What a route answers: a JSON body with a status, or the text of a
    file ([Content-Type: text/plain], status 200). *)
Inductive answer : Type :=
| Json (status : nat) (payload : json)
| Text (content : string).

Definition status_of (a : answer) : nat :=
  match a with
  | Json s _ => s
  | Text _ => 200
  end.

(** [GET(request)] of the file-content route; [file] is
    [searchParams.get('file')], [None] when the parameter is absent. A
    path of the disk is a file that can be read. *)
Definition GET (file : option string) (sv : server) : answer :=
  match file with
  | None => Json 400 (JObj [("error", JStr "File parameter required")])
  | Some f =>
      if String.eqb f "" then Json 400 (JObj [("error", JStr "File parameter required")])
      else
        let filePath := join_path (cwd sv) f in
        match readFile filePath sv with
        | None => Json 404 (JObj [("error", JStr "File not found")])
        | Some content => Text content
        end
  end.

(** What [mkdir] and [writeFile] make of the request: they go through,
    or one of them throws [error] and leaves the disk in a state [after]
    that the route does not look at. *)
Inductive written : Type :=
| Done
| Failed (error : string) (after : server).

(** [POST(request)] of the save-file route, for a request whose body
    is an object in which [file] and [content], when present, are
    strings ([None] is [undefined]). When the file system throws, the
    [catch] answers. *)
Definition POST (file content : option string) (fs : written) (sv : server)
  : answer * server :=
  match file, content with
  | Some f, Some c =>
      if String.eqb f "" then
        (Json 400 (JObj [("error", JStr "File and content required")]), sv)
      else
        match fs with
        | Done =>
            (Json 200 (JObj [("success", JBool true);
                             ("message", JStr "File saved successfully")]),
             writeFile (join_path (cwd sv) f) c sv)
        | Failed e after => (Json 500 (JObj [("error", JStr e)]), after)
        end
  | _, _ => (Json 400 (JObj [("error", JStr "File and content required")]), sv)
  end.

End FileRoutes.

(* ===================================================================== *)
(** * The file explorer (src/components/code-editor.tsx) *)
(* ===================================================================== *)

Module FileExplorer.
Import Str JSON.

#[local] Set Warnings "-register-all".
Inductive node_type : Type := File | Folder.

(** A [FileNode]; the optional fields are [None] when absent. *)
Inductive FileNode : Type :=
| Node (name : string) (type : node_type) (path : string)
       (children : option (list FileNode)) (content : option string)
       (language : option string).

Definition path_of (n : FileNode) : string :=
  match n with Node _ _ p _ _ _ => p end.

(** [node.type === 'file' && node.content]: the content to load, when
    the node is a file with a content that is not empty. *)
Definition content_to_load (n : FileNode) : option string :=
  match n with
  | Node _ File _ _ (Some c) _ => if String.eqb c "" then None else Some c
  | _ => None
  end.

(** [loadFiles(nodes)], on the map [contents] that it fills: each node
    in turn, its own content first and then its children, whatever the
    type of the node. *)
Fixpoint loadNode (node : FileNode) (contents : gmap string string) : gmap string string :=
  let contents1 :=
    match content_to_load node with
    | Some c => <[path_of node := c]> contents
    | None => contents
    end in
  match node with
  | Node _ _ _ (Some children) _ _ =>
      (fix loadFiles (nodes : list FileNode) (contents : gmap string string) :=
         match nodes with
         | [] => contents
         | n :: nodes' => loadFiles nodes' (loadNode n contents)
         end) children contents1
  | Node _ _ _ None _ _ => contents1
  end.

Definition loadFiles (nodes : list FileNode) (contents : gmap string string)
  : gmap string string :=
  fold_left (fun m n => loadNode n m) nodes contents.

(** [toggleFolder(path)], the function that it hands to
    [setExpandedFolders]. The component only asks the set for
    membership. *)
Definition toggleFolder (path : string) (prev : gset string) : gset string :=
  if decide (path ∈ prev) then prev ∖ {[path]} else prev ∪ {[path]}.

(** [s.split(sep)] for a separator of one character. *)
Fixpoint split_on (sep : ascii) (s : string) : list string :=
  match s with
  | EmptyString => [""]
  | String c s' =>
      if Ascii.eqb c sep then "" :: split_on sep s'
      else
        match split_on sep s' with
        | l :: ls => String c l :: ls
        | [] => [String c ""]
        end
  end.

(** [toLowerCase] on the 8-bit characters: the letters A to Z, and the
    accented capitals from 192 to 222 but for the multiplication sign. *)
Definition lower_char (c : ascii) : ascii :=
  let n := code c in
  if ((65 <=? n) && (n <=? 90) || (192 <=? n) && (n <=? 222) && negb (n =? 215))%N
  then ascii_of_N (n + 32) else c.

Fixpoint toLowerCase (s : string) : string :=
  match s with
  | EmptyString => ""
  | String c s' => String (lower_char c) (toLowerCase s')
  end.

Definition languageMap : list (string * string) :=
  [("js", "javascript"); ("jsx", "javascript"); ("ts", "typescript"); ("tsx", "typescript");
   ("html", "html"); ("css", "css"); ("json", "json"); ("md", "markdown");
   ("py", "python"); ("java", "java"); ("cpp", "cpp"); ("c", "c"); ("cs", "csharp");
   ("php", "php"); ("rb", "ruby"); ("go", "go"); ("rs", "rust"); ("sql", "sql");
   ("xml", "xml"); ("yaml", "yaml"); ("yml", "yaml")].

Fixpoint lookup_language (k : string) (l : list (string * string)) : option string :=
  match l with
  | [] => None
  | (k', v) :: l' => if String.eqb k k' then Some v else lookup_language k l'
  end.

(** What [getFileLanguage] returns: the name of a language, or, for the
    two lower-case names that every object inherits, what the object
    inherits under that name, which is no string. *)
Inductive language_of : Type :=
| Language (name : string)
| Inherited (property : string).

Definition getFileLanguage (fileName : string) : language_of :=
  let ext := toLowerCase (List.last (split_on "." fileName) "") in
  match lookup_language ext languageMap with
  | Some l => Language l
  | None =>
      if String.eqb ext "constructor" || String.eqb ext "__proto__" then Inherited ext
      else Language "plaintext"
  end.

End FileExplorer.

(* ===================================================================== *)
(** * Scraped text (src/app/api/scrape-url-enhanced/route.ts) *)
(* ===================================================================== *)

Module ScrapeRoute.

(** Scraped text holds characters beyond the 8-bit ones: here a text is
    the sequence of its UTF-16 code units, which is what a regular
    expression without the [u] flag works on. *)
Definition text : Type := list N.

(** [t.replace(/[...]/g, by)] for a class of code units and a
    replacement without [$]. *)
Definition replace_class (class : list N) (by_ : text) (t : text) : text :=
  flat_map (fun u => if existsb (N.eqb u) class then by_ else [u]) t.

Definition sanitizeQuotes (t : text) : text :=
  replace_class [160]%N [32]%N
    (replace_class [8230]%N [46; 46; 46]%N
      (replace_class [8211; 8212]%N [45]%N
        (replace_class [8249; 8250]%N [39]%N
          (replace_class [171; 187]%N [34]%N
            (replace_class [8220; 8221; 8222; 8223]%N [34]%N
              (replace_class [8216; 8217; 8218; 8219]%N [39]%N t)))))).

End ScrapeRoute.

(* ===================================================================== *)
(** * Vocabulary of the statements *)
(* ===================================================================== *)

Module Spec.
Import Str JSON JS Storage ProjectPersistence.

(** Both writes of [saveProject] find room in the storage area. *)
Definition writes_fit (now : string) (state : json) (st : storage) : bool :=
  match setItem STORAGE_KEY (serialized now state) st with
  | Some st1 =>
      match setItem BACKUP_KEY (serialized now state) st1 with
      | Some _ => true
      | None => false
      end
  | None => false
  end.

(** A snapshot with its time stamp refreshed. *)
Definition refreshed (now : string) (s : ProjectState) : ProjectState :=
  {| files := files s; packages := packages s; lastSaved := now;
     projectName := projectName s; sandboxId := sandboxId s |}.

(** The file that a list of files holds under [p], the last entry
    winning. *)
Definition file_at (p : string) (l : list ProjectFile) : option ProjectFile :=
  List.find (fun f => String.eqb (path f) p) (rev l).

(** Merge-on-save as the specification words it: a mapping from path to
    file, seeded with the existing files, in which every new file is
    overwritten or inserted. *)
Fixpoint put (f : ProjectFile) (m : list ProjectFile) : list ProjectFile :=
  match m with
  | [] => [f]
  | g :: m' => if String.eqb (path g) (path f) then f :: m' else g :: put f m'
  end.

Definition merge_files (existing new : list ProjectFile) : list ProjectFile :=
  fold_left (fun m f => put f m) (existing ++ new) [].

(** The union of two lists of package names as a set. *)
Fixpoint add_name (q : string) (s : list string) : list string :=
  match s with
  | [] => [q]
  | q' :: s' => if String.eqb q' q then q' :: s' else q' :: add_name q s'
  end.

Definition union_names (old new : list string) : list string :=
  fold_left (fun s q => add_name q s) (old ++ new) [].

Definition merged (now : string) (s : ProjectState)
    (newFiles : list ProjectFile) (newPackages : list string) : ProjectState :=
  {| files := merge_files (files s) newFiles;
     packages := union_names (packages s) newPackages;
     lastSaved := now;
     projectName := projectName s;
     sandboxId := sandboxId s |}.

(** What [saveFiles] stores when nothing was stored before: the new files
and packages on top of the empty snapshot that it starts from. *)
Definition first_snapshot (now : string)
    (newFiles : list ProjectFile) (newPackages : list string) : json :=
  JObj [("files", JArr (map file_json (merge_files [] newFiles)));
        ("packages", JArr (map JStr (union_names [] newPackages)));
        ("projectName", JStr "PLC Karting");
        ("lastSaved", JStr now)].

(** What [saveFiles] starts from: the snapshot that [loadProject]
    returned or, when that is [null] (or another falsy value), an empty
    one. *)
Definition starts_from (now : string) (loaded : json) : json :=
  if truthy (Some loaded) then loaded
  else JObj [("files", JArr []); ("packages", JArr []);
             ("projectName", JStr "PLC Karting"); ("lastSaved", JStr now)].

(** The document holds these files and these packages, whatever else it
    holds and in whatever order. *)
Definition holds (doc : json) (fs : list ProjectFile) (ps : list string) : Prop :=
  get_prop "files" doc = Some (JArr (map file_json fs)) /\
  get_prop "packages" doc = Some (JArr (map JStr ps)).

(** A document with its files, its packages and its time stamp replaced,
    everything else kept. *)
Definition merged_doc (now : string) (existing : json)
    (fs : list ProjectFile) (ps : list string) : json :=
  JObj (obj_set "lastSaved" (JStr now)
         (obj_set "packages" (JArr (map JStr ps))
           (obj_set "files" (JArr (map file_json fs)) (spread existing)))).

(** The document holds an array under [files]: what [importProject]
    asks of it. *)
Definition has_files_array (text : string) : bool :=
  match parse text with
  | Some JNull => false
  | Some doc => isArray (get_prop "files" doc)
  | None => false
  end.

(** The paths of the files of a parsed snapshot. *)
Definition paths_of (v : json) : list (option json) :=
  match get_prop "files" v with
  | Some (JArr l) =>
      map (fun f => match f with JNull => None | _ => get_prop "path" f end) l
  | _ => []
  end.

(** ** The restore route *)



(** ** The auto-fix route *)

(** The plan takes the branch that strips the markdown fence. *)
Definition is_css_plan (plan : ErrorMonitor.AutoFix) : bool :=
  negb (String.eqb (ErrorMonitor.file plan) "app/layout.tsx"
        && includes (ErrorMonitor.fix_ plan) "suppressHydrationWarning")
  && (endsWith (ErrorMonitor.file plan) ".css"
      && includes (ErrorMonitor.fix_ plan) "Remove markdown").

Definition fence_open : string :=
  ErrorMonitor.backticks +:+ "css" +:+ String LF "".
Definition fence_close : string := String LF ErrorMonitor.backticks.

(** The text carries no fence any more. *)
Definition unfenced (content : string) : bool :=
  negb (startsWith content fence_open) && negb (endsWith content fence_close).

(** [s] without [m] at its end, when it ends with [m]. *)
Fixpoint strip_suffix (m s : string) : option string :=
  if String.eqb s m then Some ""
  else
    match s with
    | EmptyString => None
    | String x s' =>
        match strip_suffix m s' with
        | Some b => Some (String x b)
        | None => None
        end
    end.

(** The text without the opening line of a fence at its start, and
    without the closing line of a fence at its end. *)
Definition without_open (c : string) : string :=
  match strip_prefix fence_open c with
  | Some rest => rest
  | None => c
  end.

Definition without_close (c : string) : string :=
  match strip_suffix fence_close c with
  | Some body => body
  | None => c
  end.

(** One layer of the fence less. *)
Definition one_layer_less (c : string) : string := without_close (without_open c).

(** The content of the file that the plan targets. *)
Definition target (plan : ErrorMonitor.AutoFix) (sv : AutoFixRoute.server)
  : option string :=
  AutoFixRoute.readFile
    (AutoFixRoute.join_path (AutoFixRoute.cwd sv) (ErrorMonitor.file plan)) sv.

(** ** The sandbox lifecycle *)

(** Between an observation and a later one: the phase does not go back
    and the countdown is strictly smaller. *)
Definition advances (a b : SandboxWarning.view) : Prop :=
  (SandboxWarning.rank (SandboxWarning.phase_of a)
   <= SandboxWarning.rank (SandboxWarning.phase_of b))%nat /\
  exists ra rb,
    SandboxWarning.remaining_of a = Some ra /\
    SandboxWarning.remaining_of b = Some rb /\
    (rb < ra)%Z.

(** The phase that the data model assigns to an elapsed time. *)
Definition phase_at (elapsed : Z) : SandboxWarning.phase :=
  if (elapsed <? SandboxWarning.SANDBOX_LIFETIME - SandboxWarning.WARNING_THRESHOLD)%Z
  then SandboxWarning.Active
  else if (elapsed <? SandboxWarning.SANDBOX_LIFETIME)%Z then SandboxWarning.Warning
  else SandboxWarning.Expired.

End Spec.

(* ===================================================================== *)
(** * Concrete inputs *)
(* ===================================================================== *)

Module Examples.
Import Str JSON JS Storage ProjectPersistence.

(** A browser with an empty local storage of the given quota. *)
Definition browser (q : nat) : world :=
  {| window := true;
     localStorage := {| items := empty; quota := q |};
     console := [] |}.

Definition text_file (p c : string) : ProjectFile :=
  {| path := p; content := c; type_ := "text" |}.

Definition monday : string := "2024-01-01T09:00:00.000Z".
Definition tuesday : string := "2024-01-02T09:00:00.000Z".

(** The snapshot of the specification's example: files a and b, package p. *)
Definition snapshot : ProjectState :=
  {| files := [text_file "a" "1"; text_file "b" "2"];
     packages := ["p"];
     lastSaved := monday;
     projectName := "demo";
     sandboxId := None |}.

(** The browser after [snapshot] was saved in a roomy storage. *)
Definition stored : world := saveProject monday (state_json snapshot) (browser 4000).


(** A larger snapshot, and a storage in which [snapshot] is saved with so
    little room left that the larger one fits once but not twice. *)
Definition larger : ProjectState :=
  {| files := [text_file "a" "1"; text_file "b" "2";
               text_file "c" "a file that takes some room in the storage"];
     packages := ["p"];
     lastSaved := monday;
     projectName := "demo";
     sandboxId := None |}.

Definition tight : world := saveProject monday (state_json snapshot) (browser 500).

(** With less room still, the larger snapshot does not fit even once. *)
Definition full : world := saveProject monday (state_json snapshot) (browser 440).

(** Two documents to import. *)
Definition empty_document : string := "{}".
Definition files_document : string := "{" +:+ quote "files" +:+ ":[]}".

(** ** The classifier and the auto-fix route *)

(** An error that two rules match: the one for missing modules and, after
    it, the one for syntax errors. *)
Definition overlapping_error : string :=
  "SyntaxError: Cannot find module 'react-icons'".

Definition css_error : string :=
  "[postcss] /src/index.css:1:1: Unknown word " +:+ ErrorMonitor.backticks +:+ "css".

(** The plan that the classifier proposes for [css_error]. *)
Definition css_plan : ErrorMonitor.AutoFix :=
  {| ErrorMonitor.file := "src/index.css";
     ErrorMonitor.fix_ := "Remove markdown code blocks from CSS file";
     ErrorMonitor.explanation :=
       "CSS files should not contain markdown syntax like "
       +:+ ErrorMonitor.backticks +:+ "css";
     ErrorMonitor.manual := false |}.

Definition hydration_plan : ErrorMonitor.AutoFix :=
  {| ErrorMonitor.file := "app/layout.tsx";
     ErrorMonitor.fix_ := "Add suppressHydrationWarning to affected elements";
     ErrorMonitor.explanation :=
       "Browser extensions or client-only code causing hydration mismatch";
     ErrorMonitor.manual := false |}.

(** The plan that the classifier proposes for an invalid URL. *)
Definition url_plan : ErrorMonitor.AutoFix :=
  {| ErrorMonitor.file := "app/api/scrape-url-enhanced/route.ts";
     ErrorMonitor.fix_ := "Extract and validate URL from user input";
     ErrorMonitor.explanation :=
       "URL extraction improved to handle URLs embedded in prompts";
     ErrorMonitor.manual := false |}.

Definition plain_css : string := "body { margin: 0 }".

(** A style sheet that was wrapped in a markdown fence twice. *)
Definition fenced_twice : string :=
  Spec.fence_open +:+ Spec.fence_open +:+ plain_css +:+ Spec.fence_close +:+ Spec.fence_close.

Definition fenced_once : string := Spec.fence_open +:+ plain_css +:+ Spec.fence_close.

Definition site : AutoFixRoute.server :=
  {| AutoFixRoute.cwd := "/app";
     AutoFixRoute.disk :=
       <["/app/src/index.css" := fenced_twice]>
         (<["/app/app/layout.tsx" := "<html><body className={inter.className}>x</body></html>"]>
            empty) |}.

(** ** The sandbox clock *)

(** Five firings of the interval for a sandbox started at time 0: one
    second in, at the warning threshold, one second before the end, at the
    end, and after it. *)
Definition firings : list Z := [1000; 780000; 899000; 900000; 905000]%Z.

(** ** The restore route *)




End Examples.

(* ===================================================================== *)
(** * Vocabulary of the proofs *)
(* ===================================================================== *)

Section JsonVocabulary.
Import Str JSON.

(** What may follow the text of a value: not a digit, and nothing that
    would continue a number. *)
Definition follows_ok (rest : string) : bool :=
  match rest with
  | EmptyString => true
  | String c _ =>
      match digit_of c with Some _ => false | None => true end && integer_ends rest
  end.

(** Induction on values, with the elements of arrays and objects. *)
Section json_induction.
Variable P : json -> Prop.
Hypothesis Hnull : P JNull.
Hypothesis Hbool : forall b, P (JBool b).
Hypothesis Hnum : forall n, P (JNum n).
Hypothesis Hstr : forall s, P (JStr s).
Hypothesis Harr : forall l, Forall P l -> P (JArr l).
Hypothesis Hobj : forall l, Forall (fun p => P (snd p)) l -> P (JObj l).

Fixpoint json_induction (v : json) : P v :=
  match v with
  | JNull => Hnull
  | JBool b => Hbool b
  | JNum n => Hnum n
  | JStr s => Hstr s
  | JArr l =>
      Harr l ((fix go (l : list json) : Forall P l :=
                 match l with
                 | [] => @List.Forall_nil _ P
                 | x :: l' => @List.Forall_cons _ P x l' (json_induction x) (go l')
                 end) l)
  | JObj l =>
      Hobj l ((fix go (l : list (string * json)) : Forall (fun p => P (snd p)) l :=
                 match l with
                 | [] => @List.Forall_nil _ (fun p => P (snd p))
                 | x :: l' =>
                     @List.Forall_cons _ (fun p => P (snd p)) x l'
                       (json_induction (snd x)) (go l')
                 end) l)
  end.
End json_induction.

(** Fuel that [parse_value] needs on the text of a value. *)
Fixpoint size (v : json) : nat :=
  match v with
  | JArr l => S (list_sum (map (fun x => S (size x)) l))
  | JObj l => S (list_sum (map (fun p => S (size (snd p))) l))
  | _ => 1
  end.

(** The characters that open a number. *)
Definition number_head (c : ascii) : bool :=
  Ascii.eqb c "-" || match digit_of c with Some _ => true | None => false end.

(** The statement proved of each value by induction. *)
Definition reads_back (v : json) : Prop :=
  wfb v = true ->
  forall fuel rest, size v <= fuel -> follows_ok rest = true ->
  parse_value fuel (stringify v +:+ rest) = Some (v, rest).

(** The text of one property of an object. *)
Definition member_text (p : string * json) : string :=
  quote (fst p) +:+ ":" +:+ stringify (snd p).

End JsonVocabulary.

Section PersistenceVocabulary.
Import Str JSON JS Storage ProjectPersistence.

(** The entries of the [Map] of [saveFiles] for typed files. *)
Definition enc (m : list ProjectFile) : list (option json * json) :=
  map (fun f => (Some (JStr (path f)), file_json f)) m.

Definition has_path (p : string) (f : ProjectFile) : bool := String.eqb (path f) p.

(** [localStorage.removeItem] on the primary slot only. *)
Definition without_primary (w : world) : world :=
  with_storage (removeItem STORAGE_KEY (localStorage w)) w.

(** The console lines of the two [catch] blocks. *)
Definition save_error : level * string :=
  (Error, "[ProjectPersistence] Failed to save project:").

Definition import_error : level * string :=
  (Error, "[ProjectPersistence] Failed to import project:").

End PersistenceVocabulary.

Section RouteVocabulary.
Import Str Regex ErrorMonitor AutoFixRoute.

(** The answer of the [catch] block when the file cannot be read. *)
Definition enoent (sv : server) : response * server :=
  (failed "Error: ENOENT: no such file or directory", sv).

(** Read the file, and write back what [patch] makes of it, if anything. *)
Definition branch (file msg : string) (patch : string -> option string) (sv : server)
  : response * server :=
  match readFile (join_path (cwd sv) file) sv with
  | None => enoent sv
  | Some c =>
      (succeeded msg,
       match patch c with
       | Some c' => writeFile (join_path (cwd sv) file) c' sv
       | None => sv
       end)
  end.

Definition guarded (marker : string) (f : string -> string) (c : string) : option string :=
  if negb (includes c marker) then Some (f c) else None.

Definition patch_hydration : string -> option string :=
  guarded "suppressHydrationWarning"
    (replace body_tag "<body className={inter.className} suppressHydrationWarning>").

Definition strip_fence (c : string) : string :=
  replace css_close "" (replace css_open "" c).

Definition patch_stream : string -> option string :=
  guarded "!stream.locked" (replace_all (lit "await writer.close();") guarded_close).

Definition patch_url : string -> option string :=
  guarded "validateUrl"
    (fun c => replace_all (lit "const targetUrl = url;") "const targetUrl = validateUrl(url);"
                (urlValidation +:+ String LF "" +:+ c)).

Definition no_fix (sv : server) : response * server :=
  ({| status := 200; success := false;
      message := Some "No auto-fix available"; error := None |}, sv).

End RouteVocabulary.

Section LifecycleVocabulary.
Import SandboxWarning.

(** What a tick at [now] writes into the view. *)
Definition reported (t0 now : Z) (x : view) : Prop :=
  timeRemaining x = Some (Num (Z.max 0 (SANDBOX_LIFETIME - (now - t0)))) /\
  showWarning x = (SANDBOX_LIFETIME - (now - t0) <=? WARNING_THRESHOLD)%Z.

End LifecycleVocabulary.

Section ClassifierVocabulary.
Import Str Regex ErrorMonitor.

(** A quote character, single or double. *)
Definition is_quote (x : ascii) : bool := Ascii.eqb x apostrophe || Ascii.eqb x dquote.

(** No character of the text is a quote. *)
Fixpoint quote_free (s : string) : bool :=
  match s with
  | EmptyString => true
  | String x s' => negb (is_quote x) && quote_free s'
  end.

(** The pattern with which the rule for missing modules reads the name
    of the module. *)
Definition quoted_name : re :=
  seq [Chr (fun x => Ascii.eqb x apostrophe || Ascii.eqb x dquote);
       Grp 1 (plus (none_of [apostrophe; dquote]));
       Chr (fun x => Ascii.eqb x apostrophe || Ascii.eqb x dquote)].

End ClassifierVocabulary.

Section ClockVocabulary.

(** The number that a run of decimal digits denotes, on top of [a]. *)
Fixpoint digits_value (u : uint) (a : Z) : Z :=
  match u with
  | Nil => a
  | D0 l => digits_value l (a * 10 + 0)
  | D1 l => digits_value l (a * 10 + 1)
  | D2 l => digits_value l (a * 10 + 2)
  | D3 l => digits_value l (a * 10 + 3)
  | D4 l => digits_value l (a * 10 + 4)
  | D5 l => digits_value l (a * 10 + 5)
  | D6 l => digits_value l (a * 10 + 6)
  | D7 l => digits_value l (a * 10 + 7)
  | D8 l => digits_value l (a * 10 + 8)
  | D9 l => digits_value l (a * 10 + 9)
  end%Z.

(** Two decimal digits. *)
Definition two_digits (n : Z) : string :=
  Str.of_Z (n / 10) +:+ Str.of_Z (n mod 10).

End ClockVocabulary.

Section RestoreVocabulary.
Import Str RestoreRoute.

(** The apply endpoint announces a stream of events. *)
Definition is_stream (r : http_response) : bool :=
  match contentType r with
  | Some ct => includes ct "text/event-stream"
  | None => false
  end.

(** A chunk of the stream holds a line that reports completion. *)
Definition chunk_completes (chunk : string) : bool :=
  existsb completes (split_lines chunk).

End RestoreVocabulary.

Section ReadableVocabulary.
Import Str JSON RestoreRoute.

(** [parse] answers for the text as [JSON.parse] does: the text is no
    JSON, or it is JSON of the values of the model. *)
Definition readable (text : string) : bool :=
  negb (valid text) || match parse text with Some _ => true | None => false end.

(** The same for what the route hands to [JSON.parse] of a line, of the
    lines of a chunk, and of a whole reply of the apply endpoint. *)
Definition line_readable (line : string) : bool :=
  negb (startsWith (trim line) "data: ")
  || readable (substring 6 (String.length line - 6) line).

Definition lines_readable (chunk : string) : bool :=
  forallb line_readable (split_lines chunk).


End ReadableVocabulary.

Section ExplorerVocabulary.
Import FileExplorer.

(** The nodes of a tree in the order of the document: a node, then its
    children. *)
Fixpoint nodes_of (node : FileNode) : list FileNode :=
  node ::
  match node with
  | Node _ _ _ (Some children) _ _ =>
      (fix all (l : list FileNode) : list FileNode :=
         match l with
         | [] => []
         | n :: l' => nodes_of n ++ all l'
         end) children
  | Node _ _ _ None _ _ => []
  end.

Definition all_nodes (nodes : list FileNode) : list FileNode :=
  flat_map nodes_of nodes.

(** The content that a list of nodes gives for a path: that of the last
    node that has a content to load under it. *)
Fixpoint loaded_at (p : string) (l : list FileNode) : option string :=
  match l with
  | [] => None
  | n :: l' =>
      match loaded_at p l' with
      | Some c => Some c
      | None => if String.eqb (path_of n) p then content_to_load n else None
      end
  end.

(** No dot in the text. *)
Fixpoint dot_free (s : string) : bool :=
  match s with
  | EmptyString => true
  | String c s' => negb (Ascii.eqb c ".") && dot_free s'
  end.

End ExplorerVocabulary.

Section ScrapeVocabulary.

(** The code units that [sanitizeQuotes] looks for: curly quotes,
    guillemets, dashes, the ellipsis and the no-break space. *)
Definition typographic : list N :=
  [8216; 8217; 8218; 8219; 8220; 8221; 8222; 8223; 171; 187; 8249; 8250;
   8211; 8212; 8230; 160]%N.

(** What becomes of one code unit. *)
Definition plain (u : N) : list N :=
  if existsb (N.eqb u) [8216; 8217; 8218; 8219; 8249; 8250]%N then [39]%N
  else if existsb (N.eqb u) [8220; 8221; 8222; 8223; 171; 187]%N then [34]%N
  else if existsb (N.eqb u) [8211; 8212]%N then [45]%N
  else if N.eqb u 8230%N then [46; 46; 46]%N
  else if N.eqb u 160%N then [32]%N
  else [u].

End ScrapeVocabulary.

(* ===================================================================== *)
(** * [JSON.parse] after [JSON.stringify] *)
(* ===================================================================== *)

Section JsonFacts.
Import Str JSON.

Lemma append_cons c s t : String c s +:+ t = String c (s +:+ t).
Proof. reflexivity. Qed.

Lemma append_assoc' (a b c : string) : (a +:+ b) +:+ c = a +:+ (b +:+ c).
Proof. induction a as [|x a IH]; [reflexivity|]. rewrite !append_cons, IH. reflexivity. Qed.

(** Strings: a quoted literal reads back. *)
Lemma parse_escape_char c rest :
  parse_string_body (escape_char c +:+ rest) =
  match parse_string_body rest with
  | Some (t, r) => Some (String c t, r)
  | None => None
  end.
Proof.
  destruct c as [[] [] [] [] [] [] [] []]; reflexivity.
Qed.

Lemma parse_escape s rest :
  parse_string_body (escape s +:+ String dquote rest) = Some (s, rest).
Proof.
  induction s as [|c s IH]; [reflexivity|].
  cbn [escape]. rewrite append_assoc', parse_escape_char, IH. reflexivity.
Qed.

Lemma strip_quote s rest :
  strip_prefix (String dquote "") (quote s +:+ rest) = Some (escape s +:+ String dquote rest).
Proof.
  unfold quote. rewrite append_cons, append_assoc'. reflexivity.
Qed.


Lemma read_digits_print u rest :
  follows_ok rest = true ->
  read_digits (NilEmpty.string_of_uint u +:+ rest) = (u, rest).
Proof.
  intros Hr.
  induction u; cbn [NilEmpty.string_of_uint]; rewrite ?append_cons;
    try (cbn; rewrite IHu; reflexivity).
  change ("" +:+ rest) with rest.
  destruct rest as [|c r]; [reflexivity|].
  cbn in Hr |- *. destruct (digit_of c); [discriminate | reflexivity].
Qed.

Lemma to_uint_norm p : unorm (Pos.to_uint p) = Pos.to_uint p.
Proof.
  pose proof (Unsigned.to_of (Pos.to_uint p)) as H.
  rewrite Unsigned.of_to in H. symmetry. exact H.
Qed.

Lemma uint_beq_refl u : uint_beq u u = true.
Proof. induction u; simpl; auto. Qed.

Lemma uint_beq_Nil u : u <> Nil -> uint_beq u Nil = false.
Proof. destruct u; simpl; congruence. Qed.

Lemma string_of_uint_nonnil u :
  u <> Nil -> NilZero.string_of_uint u = NilEmpty.string_of_uint u.
Proof. destruct u; simpl; congruence. Qed.

Lemma follows_ok_ends rest : follows_ok rest = true -> integer_ends rest = true.
Proof.
  destruct rest as [|c r]; [reflexivity|]. unfold follows_ok.
  intros H. apply andb_true_iff in H. apply H.
Qed.

Lemma strip_minus_digits u rest :
  u <> Nil -> strip_prefix "-" (NilEmpty.string_of_uint u +:+ rest) = None.
Proof. destruct u; intros H; try reflexivity. congruence. Qed.

Lemma parse_number_uint (neg : bool) u rest :
  u <> Nil -> unorm u = u -> follows_ok rest = true ->
  parse_number ((if neg then "-" else "") +:+ NilEmpty.string_of_uint u +:+ rest) =
  Some (Z.of_int (if neg then Neg u else Pos u), rest).
Proof.
  intros Hn Hu Hr. unfold parse_number.
  destruct neg.
  - change (strip_prefix "-" ("-" +:+ NilEmpty.string_of_uint u +:+ rest))
      with (Some (NilEmpty.string_of_uint u +:+ rest)).
    cbv beta iota.
    rewrite read_digits_print by assumption.
    rewrite uint_beq_Nil, Hu, uint_beq_refl, follows_ok_ends by assumption.
    reflexivity.
  - change ("" +:+ NilEmpty.string_of_uint u +:+ rest)
      with (NilEmpty.string_of_uint u +:+ rest).
    rewrite strip_minus_digits by assumption.
    cbv beta iota.
    rewrite read_digits_print by assumption.
    rewrite uint_beq_Nil, Hu, uint_beq_refl, follows_ok_ends by assumption.
    reflexivity.
Qed.

Lemma parse_number_print n rest :
  follows_ok rest = true ->
  parse_number (of_Z n +:+ rest) = Some (n, rest).
Proof.
  intros Hr. unfold of_Z.
  rewrite <- (DecimalZ.of_to n) at 2.
  destruct n as [|p|p]; cbn [Z.to_int NilZero.string_of_int].
  - apply (parse_number_uint false (D0 Nil)); [discriminate | reflexivity | assumption].
  - rewrite string_of_uint_nonnil by apply Unsigned.to_uint_nonnil.
    apply (parse_number_uint false);
      [apply Unsigned.to_uint_nonnil | apply to_uint_norm | assumption].
  - rewrite append_cons, string_of_uint_nonnil by apply Unsigned.to_uint_nonnil.
    apply (parse_number_uint true);
      [apply Unsigned.to_uint_nonnil | apply to_uint_norm | assumption].
Qed.


Lemma of_Z_head n : exists c s, of_Z n = String c s /\ number_head c = true.
Proof.
  unfold of_Z. destruct n as [|p|p]; cbn [Z.to_int NilZero.string_of_int].
  - eexists _, _. split; reflexivity.
  - pose proof (Unsigned.to_uint_nonnil p) as Hn.
    destruct (Pos.to_uint p); try congruence; eexists _, _; split; reflexivity.
  - eexists _, _. split; reflexivity.
Qed.

Lemma parse_value_number fuel c s :
  number_head c = true ->
  parse_value (S fuel) (String c s) =
  match parse_number (String c s) with
  | Some (n, r') => Some (JNum n, r')
  | None => None
  end.
Proof.
  destruct c as [[] [] [] [] [] [] [] []]; intros H; try discriminate H; reflexivity.
Qed.

Lemma number_head_plain c :
  number_head c = true -> is_ws c = false /\ Ascii.eqb "]" c = false.
Proof.
  destruct c as [[] [] [] [] [] [] [] []]; intros H; try discriminate H; split; reflexivity.
Qed.

(** The text of a value starts with a character that is neither white
    space nor a closing bracket. *)
Lemma stringify_head v :
  exists c s, stringify v = String c s /\ is_ws c = false /\ Ascii.eqb "]" c = false.
Proof.
  destruct v as [|[]|n|s|l|l]; try (eexists _, _; repeat split; reflexivity).
  destruct (of_Z_head n) as (c & s & E & H).
  exists c, s. split; [exact E | now apply number_head_plain].
Qed.

Lemma skip_ws_stringify v rest : skip_ws (stringify v +:+ rest) = stringify v +:+ rest.
Proof.
  destruct (stringify_head v) as (c & s & E & Hw & _).
  rewrite E, append_cons. cbn [skip_ws]. now rewrite Hw.
Qed.

Lemma strip_close_stringify v rest : strip_prefix "]" (stringify v +:+ rest) = None.
Proof.
  destruct (stringify_head v) as (c & s & E & _ & Hc).
  rewrite E, append_cons. cbn [strip_prefix]. now rewrite Hc.
Qed.

(** Objects without a repeated key are what defining their properties
    one by one yields. *)
Lemma obj_set_fresh k v acc :
  existsb (String.eqb k) (map fst acc) = false -> obj_set k v acc = acc ++ [(k, v)].
Proof.
  induction acc as [|[k' v'] acc IH]; [reflexivity|].
  cbn [map fst existsb obj_set]. intros H. apply orb_false_iff in H as [H1 H2].
  rewrite H1, IH by assumption. reflexivity.
Qed.

Lemma existsb_app_false (k : string) l1 l2 :
  existsb (String.eqb k) (l1 ++ l2) = false <->
  existsb (String.eqb k) l1 = false /\ existsb (String.eqb k) l2 = false.
Proof. rewrite existsb_app. apply orb_false_iff. Qed.

Lemma define_all_nodup ps : forall acc,
  nodupb (map fst (acc ++ ps)) = true -> define_all ps acc = acc ++ ps.
Proof.
  unfold define_all.
  induction ps as [|[k v] ps IH]; intros acc H; cbn [fold_left fst snd].
  - now rewrite app_nil_r.
  - assert (Hk : existsb (String.eqb k) (map fst acc) = false).
    { clear IH. induction acc as [|[k' v'] acc IHa]; [reflexivity|].
      cbn [app map fst nodupb] in H. apply andb_true_iff in H as [H1 H2].
      cbn [map fst existsb]. rewrite (IHa H2), orb_false_r.
      apply negb_true_iff in H1. rewrite map_app in H1.
      apply existsb_app_false in H1 as [_ H1]. cbn [map fst existsb] in H1.
      apply orb_false_iff in H1 as [H1 _].
      rewrite String.eqb_sym. exact H1. }
    rewrite obj_set_fresh by exact Hk.
    rewrite IH; rewrite <- app_assoc; [reflexivity | exact H].
Qed.

Lemma append_nil_l (s : string) : "" +:+ s = s.
Proof. reflexivity. Qed.

Lemma append_nil_r (s : string) : s +:+ "" = s.
Proof. induction s as [|c s IH]; [reflexivity|]. now rewrite append_cons, IH. Qed.

Ltac norm_app :=
  repeat (rewrite append_assoc' || rewrite append_cons || rewrite append_nil_l).


Lemma join_map_cons {A} (f : A -> string) sep x y l :
  join sep (map f (x :: y :: l)) = f x +:+ sep +:+ join sep (map f (y :: l)).
Proof. reflexivity. Qed.

Lemma join_map_single {A} (f : A -> string) sep x : join sep (map f [x]) = f x.
Proof. reflexivity. Qed.

Lemma join_stringify_cons v l t :
  exists t', join "," (map stringify (v :: l)) +:+ t = stringify v +:+ t'.
Proof.
  destruct l as [|v' l]; [now exists t|].
  rewrite join_map_cons. eexists. norm_app. reflexivity.
Qed.

Lemma parse_elems_print (l : list json) :
  Forall reads_back l -> forallb wfb l = true -> l <> [] ->
  forall fuel rest,
    list_sum (map (fun x => S (size x)) l) <= fuel ->
    parse_elems fuel (join "," (map stringify l) +:+ String "]" rest) = Some (l, rest).
Proof.
  induction 1 as [|v l Hv Hl IH]; [congruence|].
  intros Hwf _ fuel rest Hfuel.
  cbn [forallb] in Hwf. apply andb_true_iff in Hwf as [Hwv Hwl].
  rewrite map_cons in Hfuel. change (list_sum (?a :: ?l)) with (a + list_sum l) in Hfuel.
  destruct fuel as [|fuel]; [lia|]. cbn [parse_elems].
  destruct l as [|v' l'].
  - rewrite join_map_single. rewrite (Hv Hwv) by (cbn in *; first [lia | reflexivity]).
    reflexivity.
  - rewrite join_map_cons. norm_app.
    rewrite (Hv Hwv) by (first [lia | reflexivity]).
    change (skip_ws (String "," ?x)) with (String "," x).
    cbn [strip_prefix]. change (Ascii.eqb "," ",") with true. cbv iota.
    destruct (join_stringify_cons v' l' (String "]" rest)) as [t' Et].
    rewrite Et, skip_ws_stringify, <- Et.
    rewrite IH by (first [assumption | congruence | lia]).
    reflexivity.
Qed.


Lemma join_member_cons p l t :
  exists t', join "," (map member_text (p :: l)) +:+ t = quote (fst p) +:+ t'.
Proof.
  destruct l as [|p' l]; rewrite ?join_map_single, ?join_map_cons;
    unfold member_text at 1; eexists; norm_app; reflexivity.
Qed.

Lemma skip_ws_quote s t : skip_ws (quote s +:+ t) = quote s +:+ t.
Proof. reflexivity. Qed.

Lemma strip_brace_quote s t : strip_prefix "}" (quote s +:+ t) = None.
Proof. reflexivity. Qed.

Lemma parse_members_print (l : list (string * json)) :
  Forall (fun p => reads_back (snd p)) l ->
  forallb (fun p => wfb (snd p)) l = true -> l <> [] ->
  forall fuel rest,
    list_sum (map (fun p => S (size (snd p))) l) <= fuel ->
    parse_members fuel (join "," (map member_text l) +:+ String "}" rest) = Some (l, rest).
Proof.
  induction 1 as [|[k v] l Hv Hl IH]; [congruence|].
  intros Hwf _ fuel rest Hfuel.
  cbn [forallb snd] in Hwf. apply andb_true_iff in Hwf as [Hwv Hwl].
  rewrite map_cons in Hfuel. change (list_sum (?a :: ?l)) with (a + list_sum l) in Hfuel. cbn [snd] in Hfuel. cbn [snd] in Hv.
  destruct fuel as [|fuel]; [lia|]. cbn [parse_members].
  destruct l as [|p' l'].
  - rewrite join_map_single. unfold member_text at 1. cbn [fst snd]. norm_app.
    rewrite strip_quote, parse_escape.
    change (skip_ws (String ":" ?x)) with (String ":" x).
    cbn [strip_prefix]. change (Ascii.eqb ":" ":") with true. cbv iota.
    rewrite skip_ws_stringify.
    rewrite (Hv Hwv) by (cbn in *; first [lia | reflexivity]).
    reflexivity.
  - rewrite join_map_cons. unfold member_text at 1. cbn [fst snd]. norm_app.
    rewrite strip_quote, parse_escape.
    change (skip_ws (String ":" ?x)) with (String ":" x).
    cbn [strip_prefix]. change (Ascii.eqb ":" ":") with true. cbv iota.
    rewrite skip_ws_stringify.
    rewrite (Hv Hwv) by (first [lia | reflexivity]).
    change (skip_ws (String "," ?x)) with (String "," x).
    cbn [strip_prefix]. change (Ascii.eqb "," ",") with true. cbv iota.
    destruct (join_member_cons p' l' (String "}" rest)) as [t' Et].
    rewrite Et, skip_ws_quote, <- Et.
    rewrite IH by (first [assumption | congruence | lia]).
    reflexivity.
Qed.

Theorem parse_value_stringify v : reads_back v.
Proof.
  induction v as [|b|n|s|l IH|l IH] using json_induction;
    intros Hwf fuel rest Hfuel Hrest;
    (destruct fuel as [|fuel]; [cbn in Hfuel; lia|]).
  - reflexivity.
  - destruct b; reflexivity.
  - cbn [stringify]. destruct (of_Z_head n) as (c & s & E & Hc).
    rewrite E, append_cons, parse_value_number by exact Hc.
    rewrite <- append_cons, <- E, parse_number_print by exact Hrest.
    reflexivity.
  - cbn [stringify]. unfold quote. norm_app.
    cbn [parse_value]. change (Ascii.eqb dquote "n") with false.
    change (Ascii.eqb dquote "t") with false. change (Ascii.eqb dquote "f") with false.
    change (Ascii.eqb dquote dquote) with true. cbv iota.
    rewrite parse_escape. reflexivity.
  - cbn [stringify]. norm_app. cbn [parse_value].
    change (Ascii.eqb "[" "n") with false. change (Ascii.eqb "[" "t") with false.
    change (Ascii.eqb "[" "f") with false. change (Ascii.eqb "[" dquote) with false.
    change (Ascii.eqb "[" "[") with true. cbv iota.
    destruct l as [|v l].
    + reflexivity.
    + destruct (join_stringify_cons v l (String "]" rest)) as [t' Et].
      rewrite Et, skip_ws_stringify, strip_close_stringify, <- Et.
      cbn [wfb] in Hwf. cbn [size] in Hfuel.
      rewrite parse_elems_print by (first [assumption | congruence | lia]).
      reflexivity.
  - cbn [stringify]. norm_app. cbn [parse_value].
    change (Ascii.eqb "{" "n") with false. change (Ascii.eqb "{" "t") with false.
    change (Ascii.eqb "{" "f") with false. change (Ascii.eqb "{" dquote) with false.
    change (Ascii.eqb "{" "[") with false. change (Ascii.eqb "{" "{") with true.
    cbv iota.
    cbn [wfb] in Hwf. apply andb_true_iff in Hwf as [Hnd Hwf]. cbn [size] in Hfuel.
    destruct l as [|p l].
    + reflexivity.
    + change (map (fun p0 => quote (fst p0) +:+ ":" +:+ stringify (snd p0)) (p :: l))
        with (map member_text (p :: l)).
      destruct (join_member_cons p l (String "}" rest)) as [t' Et].
      rewrite Et, skip_ws_quote, strip_brace_quote, <- Et.
      rewrite parse_members_print by (first [assumption | congruence | lia]).
      rewrite (define_all_nodup (p :: l) []) by exact Hnd.
      reflexivity.
Qed.

(** The length of the text is fuel enough. *)
Lemma length_app_string (a b : string) :
  String.length (a +:+ b) = String.length a + String.length b.
Proof.
  induction a as [|c a IH]; [reflexivity|].
  rewrite append_cons. cbn [String.length]. now rewrite IH.
Qed.

Lemma list_sum_cons a l : list_sum (a :: l) = a + list_sum l.
Proof. reflexivity. Qed.

Lemma size_elems_le (l : list json) :
  Forall (fun v => size v <= String.length (stringify v)) l ->
  list_sum (map (fun x => S (size x)) l) <= S (String.length (join "," (map stringify l))).
Proof.
  induction 1 as [|v l Hv Hl IH]; [cbn; lia|].
  destruct l as [|v' l'].
  - rewrite join_map_single. cbn [map]. rewrite list_sum_cons. cbn [list_sum fold_right]. lia.
  - rewrite join_map_cons, map_cons, list_sum_cons, !length_app_string.
    cbn [String.length]. lia.
Qed.

Lemma size_members_le (l : list (string * json)) :
  Forall (fun p => size (snd p) <= String.length (stringify (snd p))) l ->
  list_sum (map (fun p => S (size (snd p))) l)
  <= S (String.length (join "," (map member_text l))).
Proof.
  induction 1 as [|p l Hv Hl IH]; [cbn; lia|].
  assert (Hm : size (snd p) <= String.length (member_text p)).
  { unfold member_text. rewrite !length_app_string. lia. }
  destruct l as [|p' l'].
  - rewrite join_map_single. cbn [map]. rewrite list_sum_cons. cbn [list_sum fold_right]. lia.
  - rewrite join_map_cons, map_cons, list_sum_cons, !length_app_string.
    cbn [String.length]. lia.
Qed.

Lemma size_le_length v : size v <= String.length (stringify v).
Proof.
  induction v as [|b|n|s|l IH|l IH] using json_induction.
  - cbn. lia.
  - destruct b; cbn; lia.
  - cbn [size stringify]. destruct (of_Z_head n) as (c & s & E & _).
    rewrite E. cbn [String.length]. lia.
  - cbn [size stringify]. unfold quote. cbn [String.length]. lia.
  - cbn [size stringify]. rewrite !length_app_string. cbn [String.length].
    pose proof (size_elems_le l IH). lia.
  - cbn [size stringify]. rewrite !length_app_string. cbn [String.length].
    pose proof (size_members_le l IH).
    change (map (fun p => quote (fst p) +:+ ":" +:+ stringify (snd p)) l)
      with (map member_text l). lia.
Qed.

(** [JSON.parse(JSON.stringify(v))] is [v]. *)
Theorem parse_stringify v : wfb v = true -> parse (stringify v) = Some v.
Proof.
  intros Hwf. unfold parse.
  rewrite <- (append_nil_r (stringify v)) at 2.
  rewrite skip_ws_stringify.
  rewrite (parse_value_stringify v Hwf) by (first [apply size_le_length | reflexivity]).
  reflexivity.
Qed.

(** What [JSON.parse] returns has no repeated key. *)
Lemma obj_set_keys k v acc :
  map fst (obj_set k v acc) =
  if existsb (String.eqb k) (map fst acc) then map fst acc else map fst acc ++ [k].
Proof.
  induction acc as [|[k' v'] acc IH]; [reflexivity|].
  cbn [obj_set map fst existsb].
  destruct (String.eqb k k') eqn:E.
  - apply String.eqb_eq in E. subst k'. reflexivity.
  - cbn [orb map fst]. rewrite IH. now destruct (existsb (String.eqb k) (map fst acc)).
Qed.

Lemma nodupb_snoc l k :
  nodupb l = true -> existsb (String.eqb k) l = false -> nodupb (l ++ [k]) = true.
Proof.
  induction l as [|x l IH]; [reflexivity|].
  cbn [nodupb existsb app]. intros H1 H2.
  apply andb_true_iff in H1 as [Hx Hl]. apply orb_false_iff in H2 as [Hkx Hk].
  rewrite IH by assumption. rewrite andb_true_r.
  apply negb_true_iff. apply negb_true_iff in Hx.
  rewrite existsb_app, Hx. cbn [existsb]. rewrite String.eqb_sym, Hkx. reflexivity.
Qed.

Lemma obj_set_nodup k v acc :
  nodupb (map fst acc) = true -> nodupb (map fst (obj_set k v acc)) = true.
Proof.
  intros H. rewrite obj_set_keys.
  destruct (existsb (String.eqb k) (map fst acc)) eqn:E; [exact H|].
  now apply nodupb_snoc.
Qed.

Lemma obj_set_forallb (f : json -> bool) k v acc :
  f v = true -> forallb (fun p => f (snd p)) acc = true ->
  forallb (fun p => f (snd p)) (obj_set k v acc) = true.
Proof.
  intros Hv. induction acc as [|[k' v'] acc IH]; cbn [obj_set forallb snd].
  - intros _. now rewrite Hv.
  - intros H. apply andb_true_iff in H as [H1 H2].
    destruct (String.eqb k k'); cbn [forallb snd].
    + now rewrite Hv, H2.
    + now rewrite H1, IH.
Qed.

Lemma obj_set_wf k v acc :
  wfb v = true -> wfb (JObj acc) = true -> wfb (JObj (obj_set k v acc)) = true.
Proof.
  cbn [wfb]. intros Hv H. apply andb_true_iff in H as [H1 H2].
  rewrite obj_set_nodup by assumption.
  rewrite (obj_set_forallb wfb) by assumption. reflexivity.
Qed.

Lemma define_all_wf ps : forall acc,
  forallb (fun p => wfb (snd p)) ps = true ->
  wfb (JObj acc) = true -> wfb (JObj (define_all ps acc)) = true.
Proof.
  unfold define_all.
  induction ps as [|[k v] ps IH]; intros acc Hps Hacc; [exact Hacc|].
  cbn [fold_left fst snd]. cbn [forallb snd] in Hps.
  apply andb_true_iff in Hps as [Hv Hps].
  apply IH; [exact Hps | now apply obj_set_wf].
Qed.

Ltac split_match H :=
  repeat match type of H with
    | context [if ?b then _ else _] => destruct b; try discriminate H
    | context [match ?x with _ => _ end] =>
        let E := fresh "E" in destruct x eqn:E; try discriminate H
    end.

Lemma parse_wf_fuel fuel :
  (forall s v r, parse_value fuel s = Some (v, r) -> wfb v = true) /\
  (forall s vs r, parse_elems fuel s = Some (vs, r) -> forallb wfb vs = true) /\
  (forall s ps r, parse_members fuel s = Some (ps, r) ->
                  forallb (fun p => wfb (snd p)) ps = true).
Proof.
  induction fuel as [|fuel (IHv & IHe & IHm)];
    [repeat split; intros; discriminate|].
  repeat split.
  - intros s v r H. cbn [parse_value] in H.
    split_match H; inversion H; subst; try reflexivity.
    all: first [ cbn [wfb]; eapply IHe; eassumption
               | apply define_all_wf; [eapply IHm; eassumption | reflexivity] ].
  - intros s vs r H. cbn [parse_elems] in H.
    split_match H; inversion H; subst; cbn [forallb].
    + erewrite IHv by eassumption. erewrite IHe by eassumption. reflexivity.
    + erewrite IHv by eassumption. reflexivity.
  - intros s ps r H. cbn [parse_members] in H.
    split_match H; inversion H; subst; cbn [forallb snd].
    + erewrite IHv by eassumption. erewrite IHm by eassumption. reflexivity.
    + erewrite IHv by eassumption. reflexivity.
Qed.

Theorem parse_wf text v : parse text = Some v -> wfb v = true.
Proof.
  unfold parse. intros H. split_match H. inversion H; subst.
  eapply (proj1 (parse_wf_fuel _)); eassumption.
Qed.

End JsonFacts.

(* ===================================================================== *)
(** * What [JSON.parse] reads is JSON *)
(* ===================================================================== *)

Section GrammarFacts.
Import Str JSON.

Lemma parse_u4_hex a b c d r x rest :
  parse_u4 (String a (String b (String c (String d r)))) = Some (x, rest) ->
  is_hex a && is_hex b && is_hex c && is_hex d = true.
Proof.
  unfold parse_u4, is_hex.
  destruct (hex_value a), (hex_value b), (hex_value c), (hex_value d);
    try discriminate; reflexivity.
Qed.

Lemma parse_string_valid n : forall s t r,
  String.length s <= n ->
  parse_string_body s = Some (t, r) -> valid_string_body s = Some r.
Proof.
  induction n as [|n IH]; intros s t r Hn H.
  - destruct s; [discriminate | cbn in Hn; lia].
  - destruct s as [|c s]; [discriminate|].
    cbn [parse_string_body valid_string_body] in *. cbn [String.length] in Hn.
    destruct (Ascii.eqb c dquote); [now injection H as _ <-|].
    destruct (Ascii.eqb c backslash).
    + destruct s as [|e s']; [discriminate|]. cbn [String.length] in Hn.
      assert (Hplain : forall x,
                match parse_string_body s' with
                | Some (t0, r'') => Some (String x t0, r'')
                | None => None
                end = Some (t, r) -> valid_string_body s' = Some r).
      { intros x Hx. destruct (parse_string_body s') as [[t0 r0]|] eqn:E; [|discriminate].
        injection Hx as _ <-. apply (IH s' t0 r0); [lia | exact E]. }
      destruct (Ascii.eqb e dquote); [exact (Hplain _ H)|].
      destruct (Ascii.eqb e backslash); [exact (Hplain _ H)|].
      destruct (Ascii.eqb e "/"); [exact (Hplain _ H)|].
      destruct (Ascii.eqb e "b"); [exact (Hplain _ H)|].
      destruct (Ascii.eqb e "f"); [exact (Hplain _ H)|].
      destruct (Ascii.eqb e "n"); [exact (Hplain _ H)|].
      destruct (Ascii.eqb e "r"); [exact (Hplain _ H)|].
      destruct (Ascii.eqb e "t"); [exact (Hplain _ H)|].
      cbn [orb].
      destruct (Ascii.eqb e "u"); [|discriminate].
      destruct s' as [|a [|b [|c0 [|d r2]]]]; try discriminate.
      destruct (parse_u4 _) as [[x rest]|] eqn:Eu; [|discriminate].
      rewrite (parse_u4_hex _ _ _ _ _ _ _ Eu).
      destruct (parse_string_body r2) as [[t0 r0]|] eqn:E; [|discriminate].
      injection H as _ <-. apply (IH r2 t0 r0); [cbn [String.length] in Hn; lia | exact E].
    + destruct (N.ltb (code c) 32); [discriminate|].
      destruct (parse_string_body s) as [[t0 r0]|] eqn:E; [|discriminate].
      injection H as _ <-. apply (IH s t0 r0); [lia | exact E].
Qed.

Lemma parse_number_valid s z r :
  parse_number s = Some (z, r) -> valid_number s = Some r.
Proof.
  unfold parse_number, valid_number.
  destruct (strip_prefix "-" s) as [s1|];
    (destruct (read_digits _) as [u r0];
     destruct (uint_beq u Nil); [discriminate|];
     destruct (negb (uint_beq (unorm u) u)); [discriminate|];
     destruct (negb (integer_ends r0)) eqn:E; [discriminate|];
     intros [= _ <-]; apply negb_false_iff in E;
     destruct r0 as [|c x]; [reflexivity|];
     cbn [integer_ends] in E; apply negb_true_iff in E;
     apply orb_false_iff in E as [E E3]; apply orb_false_iff in E as [E1 E2];
     cbn [strip_prefix]; rewrite (Ascii.eqb_sym "." c), E1, E2, E3; reflexivity).
Qed.

Lemma parse_valid_fuel fuel :
  (forall s v r, parse_value fuel s = Some (v, r) -> valid_value fuel s = Some r) /\
  (forall s vs r, parse_elems fuel s = Some (vs, r) -> valid_elems fuel s = Some r) /\
  (forall s ps r, parse_members fuel s = Some (ps, r) -> valid_members fuel s = Some r).
Proof.
  induction fuel as [|fuel (IHv & IHe & IHm)]; [repeat split; discriminate|].
  split; [|split].
  - intros s v r H. destruct s as [|c s]; [discriminate|].
    cbn [parse_value valid_value] in *.
    destruct (Ascii.eqb c "n").
    { destruct (strip_prefix "ull" s); [now injection H as _ <- | discriminate]. }
    destruct (Ascii.eqb c "t").
    { destruct (strip_prefix "rue" s); [now injection H as _ <- | discriminate]. }
    destruct (Ascii.eqb c "f").
    { destruct (strip_prefix "alse" s); [now injection H as _ <- | discriminate]. }
    destruct (Ascii.eqb c dquote).
    { destruct (parse_string_body s) as [[t r0]|] eqn:E; [|discriminate].
      injection H as _ <-. now apply (parse_string_valid (String.length s) s t). }
    destruct (Ascii.eqb c "[").
    { destruct (strip_prefix "]" (skip_ws s)); [now injection H as _ <-|].
      destruct (parse_elems fuel (skip_ws s)) as [[vs r0]|] eqn:E; [|discriminate].
      injection H as _ <-. now apply (IHe _ vs). }
    destruct (Ascii.eqb c "{").
    { destruct (strip_prefix "}" (skip_ws s)); [now injection H as _ <-|].
      destruct (parse_members fuel (skip_ws s)) as [[ps r0]|] eqn:E; [|discriminate].
      injection H as _ <-. now apply (IHm _ ps). }
    destruct (parse_number (String c s)) as [[z r0]|] eqn:E; [|discriminate].
    injection H as _ <-. now apply (parse_number_valid _ z).
  - intros s vs r H. cbn [parse_elems valid_elems] in *.
    destruct (parse_value fuel s) as [[v r0]|] eqn:E; [|discriminate].
    rewrite (IHv _ _ _ E).
    destruct (strip_prefix "," (skip_ws r0)) as [r1|].
    + destruct (parse_elems fuel (skip_ws r1)) as [[vs' r2]|] eqn:E2; [|discriminate].
      injection H as _ <-. now apply (IHe _ vs').
    + destruct (strip_prefix "]" (skip_ws r0)); [now injection H as _ <- | discriminate].
  - intros s ps r H. cbn [parse_members valid_members] in *.
    destruct (strip_prefix (String dquote "") s) as [r0|]; [|discriminate].
    destruct (parse_string_body r0) as [[k r1]|] eqn:Ek; [|discriminate].
    rewrite (parse_string_valid (String.length r0) r0 k r1 (le_n _) Ek).
    destruct (strip_prefix ":" (skip_ws r1)) as [r2|]; [|discriminate].
    destruct (parse_value fuel (skip_ws r2)) as [[v r3]|] eqn:E; [|discriminate].
    rewrite (IHv _ _ _ E).
    destruct (strip_prefix "," (skip_ws r3)) as [r4|].
    + destruct (parse_members fuel (skip_ws r4)) as [[ps' r5]|] eqn:E2; [|discriminate].
      injection H as _ <-. now apply (IHm _ ps').
    + destruct (strip_prefix "}" (skip_ws r3)); [now injection H as _ <- | discriminate].
Qed.

(** Every text that the model reads is JSON. *)
Theorem parse_valid text v : parse text = Some v -> valid text = true.
Proof.
  unfold parse, valid.
  destruct (parse_value _ _) as [[v0 r]|] eqn:E; [|discriminate].
  rewrite (proj1 (parse_valid_fuel _) _ _ _ E).
  now destruct (skip_ws r).
Qed.

(** A text that is no JSON is refused. *)
Corollary invalid_parse text : valid text = false -> parse text = None.
Proof.
  intros H. destruct (parse text) as [v|] eqn:E; [|reflexivity].
  apply parse_valid in E. congruence.
Qed.

End GrammarFacts.

(* ===================================================================== *)
(** * The recogniser never runs out of fuel *)
(* ===================================================================== *)

Section FuelFacts.
Import Str JSON.

Lemma skip_ws_length s : String.length (skip_ws s) <= String.length s.
Proof.
  induction s as [|c s IH]; cbn [skip_ws]; [lia|].
  destruct (is_ws c); cbn [String.length]; lia.
Qed.

Lemma strip_prefix_length p s r :
  strip_prefix p s = Some r -> String.length s = String.length p + String.length r.
Proof.
  revert s. induction p as [|a p IH]; intros s; cbn [strip_prefix].
  - now intros [= ->].
  - destruct s as [|b s]; [discriminate|]. destruct (Ascii.eqb a b); [|discriminate].
    intros H. apply IH in H. cbn [String.length]. lia.
Qed.

Lemma read_digits_length s u r :
  read_digits s = (u, r) ->
  String.length r <= String.length s /\
  (uint_beq u Nil = false -> String.length r < String.length s).
Proof.
  revert u r. induction s as [|c s IH]; intros u r; cbn [read_digits].
  - intros [= <- <-]. split; [lia | discriminate].
  - destruct (digit_of c) as [d|] eqn:E.
    + destruct (read_digits s) as [u' r'] eqn:E'. intros [= <- <-].
      destruct (IH u' r' eq_refl) as [H _]. cbn [String.length]. split; intros; lia.
    + intros [= <- <-]. split; [lia | discriminate].
Qed.

Lemma some_digits_length s r :
  some_digits s = Some r -> String.length r < String.length s.
Proof.
  unfold some_digits. destruct (read_digits s) as [u r'] eqn:E.
  destruct (uint_beq u Nil) eqn:Eu; [discriminate|]. intros [= <-].
  now apply (read_digits_length s u r' E).
Qed.

Lemma valid_number_length s r :
  valid_number s = Some r -> String.length r < String.length s.
Proof.
  unfold valid_number.
  assert (H1 : String.length match strip_prefix "-" s with Some r0 => r0 | None => s end
               <= String.length s).
  { destruct (strip_prefix "-" s) eqn:E; [apply strip_prefix_length in E|]; lia. }
  set (s1 := match strip_prefix "-" s with Some r0 => r0 | None => s end) in *.
  destruct (read_digits s1) as [u r0] eqn:E.
  destruct (uint_beq u Nil) eqn:Eu; [discriminate|].
  destruct (negb (uint_beq (unorm u) u)); [discriminate|].
  destruct (read_digits_length s1 u r0 E) as [_ H2]. specialize (H2 Eu).
  assert (H3 : forall r1,
            match strip_prefix "." r0 with
            | Some f => some_digits f
            | None => Some r0
            end = Some r1 -> String.length r1 <= String.length r0).
  { intros r1. destruct (strip_prefix "." r0) as [f|] eqn:Ef.
    - intros H. apply some_digits_length in H. apply strip_prefix_length in Ef. lia.
    - intros [= <-]. lia. }
  destruct (match strip_prefix "." r0 with
            | Some f => some_digits f
            | None => Some r0
            end) as [r1|]; [|discriminate].
  specialize (H3 r1 eq_refl).
  destruct r1 as [|c x]; [intros [= <-]; cbn [String.length] in *; lia|].
  cbn [String.length] in H3.
  destruct (Ascii.eqb c "e" || Ascii.eqb c "E").
  - destruct x as [|sign d]; [discriminate|]. cbn [String.length] in H3.
    destruct (Ascii.eqb sign "+" || Ascii.eqb sign "-"); intros H;
      apply some_digits_length in H; cbn [String.length] in H; lia.
  - intros [= <-]. cbn [String.length]. lia.
Qed.

Lemma valid_string_body_length n : forall s r,
  String.length s <= n ->
  valid_string_body s = Some r -> String.length r < String.length s.
Proof.
  induction n as [|n IH]; intros s r Hn H.
  - destruct s; [discriminate | cbn in Hn; lia].
  - destruct s as [|c s]; [discriminate|]. cbn [valid_string_body] in H.
    cbn [String.length] in *.
    destruct (Ascii.eqb c dquote); [injection H as <-; lia|].
    destruct (Ascii.eqb c backslash).
    + destruct s as [|e s']; [discriminate|]. cbn [String.length] in *.
      destruct (_ || _).
      * apply IH in H; lia.
      * destruct (Ascii.eqb e "u"); [|discriminate].
        destruct s' as [|a [|b [|c0 [|d r2]]]]; try discriminate.
        destruct (_ && _); [|discriminate]. cbn [String.length] in *.
        apply IH in H; lia.
    + destruct (N.ltb (code c) 32); [discriminate|]. apply IH in H; lia.
Qed.

(** Fuel equal to the number of characters read is enough. *)
Definition enough (run : nat -> string -> option string) (fuel : nat) : Prop :=
  forall s r, run fuel s = Some r ->
    String.length r < String.length s /\
    forall fuel', String.length s - String.length r <= fuel' -> run fuel' s = Some r.

Lemma valid_enough fuel :
  enough valid_value fuel /\ enough valid_elems fuel /\ enough valid_members fuel.
Proof.
  induction fuel as [|fuel (IHv & IHe & IHm)]; [repeat split; discriminate|].
  split; [|split]; intros s r H.
  - destruct s as [|c s]; [discriminate|]. cbn [valid_value] in H.
    assert (Hlit : forall p, strip_prefix p s = Some r ->
              String.length r < String.length (String c s)).
    { intros p Hp. apply strip_prefix_length in Hp. cbn [String.length]. lia. }
    assert (Hplain : String.length r < String.length (String c s) ->
              (forall fuel', valid_value (S fuel') (String c s) = Some r) ->
              String.length r < String.length (String c s) /\
              forall fuel', String.length (String c s) - String.length r <= fuel' ->
                valid_value fuel' (String c s) = Some r).
    { intros Hl Hf. split; [exact Hl|]. intros [|fuel'] Hle; [lia | apply Hf]. }
    destruct (Ascii.eqb c "n") eqn:E1.
    { apply Hplain; [now apply (Hlit "ull")|]. intros f. cbn [valid_value]. now rewrite E1. }
    destruct (Ascii.eqb c "t") eqn:E2.
    { apply Hplain; [now apply (Hlit "rue")|]. intros f. cbn [valid_value]. now rewrite E1, E2. }
    destruct (Ascii.eqb c "f") eqn:E3.
    { apply Hplain; [now apply (Hlit "alse")|]. intros f. cbn [valid_value].
      now rewrite E1, E2, E3. }
    destruct (Ascii.eqb c dquote) eqn:E4.
    { apply Hplain.
      - apply (valid_string_body_length _ _ _ (le_n _)) in H. cbn [String.length]. lia.
      - intros f. cbn [valid_value]. now rewrite E1, E2, E3, E4. }
    pose proof (skip_ws_length s) as Hws.
    destruct (Ascii.eqb c "[") eqn:E5.
    { destruct (strip_prefix "]" (skip_ws s)) as [r'|] eqn:E.
      - injection H as ->. apply strip_prefix_length in E as E'. apply Hplain.
        + cbn [String.length] in *. lia.
        + intros f. cbn [valid_value]. now rewrite E1, E2, E3, E4, E5, E.
      - destruct (IHe _ _ H) as [Hl Hf]. cbn [String.length]. split; [lia|].
        intros [|fuel'] Hle; [lia|]. cbn [valid_value]. rewrite E1, E2, E3, E4, E5, E.
        apply Hf. lia. }
    destruct (Ascii.eqb c "{") eqn:E6.
    { destruct (strip_prefix "}" (skip_ws s)) as [r'|] eqn:E.
      - injection H as ->. apply strip_prefix_length in E as E'. apply Hplain.
        + cbn [String.length] in *. lia.
        + intros f. cbn [valid_value]. now rewrite E1, E2, E3, E4, E5, E6, E.
      - destruct (IHm _ _ H) as [Hl Hf]. cbn [String.length]. split; [lia|].
        intros [|fuel'] Hle; [lia|]. cbn [valid_value]. rewrite E1, E2, E3, E4, E5, E6, E.
        apply Hf. lia. }
    apply Hplain; [now apply valid_number_length|].
    intros f. cbn [valid_value]. now rewrite E1, E2, E3, E4, E5, E6.
  - cbn [valid_elems] in H.
    destruct (valid_value fuel s) as [r1|] eqn:Ev; [|discriminate].
    destruct (IHv _ _ Ev) as [Hl1 Hf1].
    pose proof (skip_ws_length r1) as Hws1.
    destruct (strip_prefix "," (skip_ws r1)) as [r2|] eqn:Ec.
    + apply strip_prefix_length in Ec as Ec'. cbn [String.length] in Ec'.
      pose proof (skip_ws_length r2) as Hws2.
      destruct (IHe _ _ H) as [Hl Hf]. split; [lia|].
      intros [|fuel'] Hle; [lia|]. cbn [valid_elems].
      rewrite Hf1 by lia. rewrite Ec. apply Hf. lia.
    + apply strip_prefix_length in H as H'. cbn [String.length] in H'. split; [lia|].
      intros [|fuel'] Hle; [lia|]. cbn [valid_elems].
      rewrite Hf1 by lia. now rewrite Ec.
  - cbn [valid_members] in H.
    destruct (strip_prefix (String dquote "") s) as [r0|] eqn:Eq; [|discriminate].
    apply strip_prefix_length in Eq as Eq'. cbn [String.length] in Eq'.
    destruct (valid_string_body r0) as [r1|] eqn:Ek; [|discriminate].
    pose proof (valid_string_body_length _ _ _ (le_n _) Ek) as Hk.
    pose proof (skip_ws_length r1) as Hws1.
    destruct (strip_prefix ":" (skip_ws r1)) as [r2|] eqn:Ecol; [|discriminate].
    apply strip_prefix_length in Ecol as Ecol'. cbn [String.length] in Ecol'.
    pose proof (skip_ws_length r2) as Hws2.
    destruct (valid_value fuel (skip_ws r2)) as [r3|] eqn:Ev; [|discriminate].
    destruct (IHv _ _ Ev) as [Hl3 Hf3].
    pose proof (skip_ws_length r3) as Hws3.
    destruct (strip_prefix "," (skip_ws r3)) as [r4|] eqn:Ec.
    + apply strip_prefix_length in Ec as Ec'. cbn [String.length] in Ec'.
      pose proof (skip_ws_length r4) as Hws4.
      destruct (IHm _ _ H) as [Hl Hf]. split; [lia|].
      intros [|fuel'] Hle; [lia|]. cbn [valid_members].
      rewrite Eq, Ek, Ecol. rewrite Hf3 by lia. rewrite Ec. apply Hf. lia.
    + apply strip_prefix_length in H as H'. cbn [String.length] in H'. split; [lia|].
      intros [|fuel'] Hle; [lia|]. cbn [valid_members].
      rewrite Eq, Ek, Ecol. rewrite Hf3 by lia. now rewrite Ec.
Qed.

(** [valid] accepts a text exactly when the recogniser accepts it with
    some fuel: the length of the text always suffices. *)
Theorem valid_any_fuel text :
  valid text = true <->
  exists fuel r, valid_value fuel (skip_ws text) = Some r /\ skip_ws r = "".
Proof.
  unfold valid. split.
  - destruct (valid_value _ _) as [r|] eqn:E; [|discriminate].
    destruct (skip_ws r) eqn:Er; [|discriminate]. intros _. eauto.
  - intros (fuel & r & H & Hr).
    destruct (proj1 (valid_enough fuel) _ _ H) as [_ Hf].
    rewrite (Hf (String.length text)), Hr; [reflexivity|].
    pose proof (skip_ws_length text). lia.
Qed.

End FuelFacts.

(* ===================================================================== *)
(** * Saving and loading *)
(* ===================================================================== *)

Section PersistenceFacts.
Import Str JSON JS Storage ProjectPersistence Spec.

(** ** Storage *)

Lemma setItem_Some k v st st' :
  setItem k v st = Some st' ->
  st' = {| items := <[k := v]> (items st); quota := quota st |}.
Proof.
  unfold setItem. destruct (used _ <=? quota st); [|discriminate].
  now intros [= <-].
Qed.

Lemma getItem_setItem_eq k v st st' :
  setItem k v st = Some st' -> getItem k st' = Some v.
Proof.
  intros H. apply setItem_Some in H. subst st'. unfold getItem. cbn.
  apply lookup_insert_eq.
Qed.

Lemma getItem_setItem_ne k k' v st st' :
  k <> k' -> setItem k v st = Some st' -> getItem k' st' = getItem k' st.
Proof.
  intros Hne H. apply setItem_Some in H. subst st'. unfold getItem. cbn.
  now apply lookup_insert_ne.
Qed.

Lemma keys_differ : STORAGE_KEY <> BACKUP_KEY.
Proof. discriminate. Qed.

(** ** Objects *)

Lemma stringify_obj_nonempty l : String.eqb (stringify (JObj l)) "" = false.
Proof. reflexivity. Qed.


Lemma assoc_obj_set_ne k k' v l :
  String.eqb k' k = false -> assoc k' (obj_set k v l) = assoc k' l.
Proof.
  intros Hne. induction l as [|[k0 v0] l IH]; cbn [obj_set assoc].
  - now rewrite Hne.
  - destruct (String.eqb k k0) eqn:E; cbn [assoc].
    + apply String.eqb_eq in E. subst k0. now rewrite Hne.
    + now rewrite IH.
Qed.

(** ** Saving, then loading *)

Lemma saveProject_fits now state w :
  window w = true -> writes_fit now state (localStorage w) = true ->
  exists st1 st2,
    setItem STORAGE_KEY (serialized now state) (localStorage w) = Some st1 /\
    setItem BACKUP_KEY (serialized now state) st1 = Some st2 /\
    saveProject now state w =
      say Log "[ProjectPersistence] Project saved successfully" (with_storage st2 w).
Proof.
  intros Hw Hfit. unfold writes_fit in Hfit. unfold saveProject. rewrite Hw. cbn [negb].
  destruct (setItem STORAGE_KEY _ _) as [st1|] eqn:E1; [|discriminate].
  destruct (setItem BACKUP_KEY _ st1) as [st2|] eqn:E2; [|discriminate].
  exists st1, st2. rewrite E2. repeat split.
Qed.

Lemma loadProject_primary w text v :
  window w = true ->
  getItem STORAGE_KEY (localStorage w) = Some text ->
  String.eqb text "" = false ->
  parse text = Some v ->
  fst (loadProject w) = v.
Proof.
  intros Hw Hg Hne Hp. unfold loadProject. rewrite Hw, Hg. cbn [negb falsy].
  rewrite Hne. cbn -[parse]. now rewrite Hp.
Qed.

Theorem load_after_save now state w :
  window w = true ->
  wfb (JObj (spread state)) = true ->
  writes_fit now state (localStorage w) = true ->
  fst (loadProject (saveProject now state w))
  = JObj (obj_set "lastSaved" (JStr now) (spread state)).
Proof.
  intros Hw Hwf Hfit.
  destruct (saveProject_fits now state w Hw Hfit) as (st1 & st2 & H1 & H2 & ->).
  apply loadProject_primary with (text := serialized now state).
  - exact Hw.
  - cbn [say with_storage localStorage].
    rewrite (getItem_setItem_ne BACKUP_KEY STORAGE_KEY _ st1 st2)
      by (first [apply not_eq_sym, keys_differ | eassumption]).
    eapply getItem_setItem_eq; eassumption.
  - apply stringify_obj_nonempty.
  - apply parse_stringify. apply obj_set_wf; [reflexivity | exact Hwf].
Qed.

(** ** Typed snapshots *)

Lemma wfb_files fs : forallb wfb (map file_json fs) = true.
Proof. induction fs as [|f fs IH]; [reflexivity|]. cbn. exact IH. Qed.

Lemma wfb_names ps : forallb wfb (map JStr ps) = true.
Proof. induction ps as [|p ps IH]; [reflexivity|]. cbn. exact IH. Qed.

Lemma wfb_state s : wfb (state_json s) = true.
Proof.
  unfold state_json. destruct (sandboxId s); cbn [app wfb map fst snd nodupb forallb];
    rewrite wfb_files, wfb_names; reflexivity.
Qed.

Lemma refreshed_json now s :
  JObj (obj_set "lastSaved" (JStr now) (spread (state_json s))) = state_json (refreshed now s).
Proof. unfold state_json, refreshed. cbn [spread]. destruct (sandboxId s); reflexivity. Qed.

Theorem round_trip now s w :
  window w = true ->
  writes_fit now (state_json s) (localStorage w) = true ->
  fst (loadProject (saveProject now (state_json s) w)) = state_json (refreshed now s).
Proof.
  intros Hw Hfit. rewrite load_after_save by (first [assumption | apply wfb_state]).
  apply refreshed_json.
Qed.

(** ** [loadProject] only writes on the console *)

Lemma loadProject_world w :
  window (snd (loadProject w)) = window w /\
  localStorage (snd (loadProject w)) = localStorage w.
Proof.
  unfold loadProject.
  destruct (negb (window w)); [now split|].
  destruct (falsy (getItem STORAGE_KEY (localStorage w))).
  - destruct (negb (falsy (getItem BACKUP_KEY (localStorage w)))); [|now split].
    destruct (parse _); now split.
  - destruct (parse _); now split.
Qed.

(** ** The map of files and the set of packages, on typed data *)


Lemma map_set_enc f m :
  map_set (Some (JStr (path f))) (file_json f) (enc m) = enc (put f m).
Proof.
  induction m as [|g m IH]; [reflexivity|].
  cbn [enc map map_set put same_value_zero].
  destruct (String.eqb (path g) (path f)) eqn:E.
  - apply String.eqb_eq in E. cbn [map]. now rewrite E.
  - cbn [map]. f_equal. exact IH.
Qed.

Lemma fold_map_set_enc l m :
  fold_left (fun m f => map_set (Some (JStr (path f))) (file_json f) m) l (enc m)
  = enc (fold_left (fun m f => put f m) l m).
Proof.
  revert m. induction l as [|f l IH]; intros m; [reflexivity|].
  cbn [fold_left]. rewrite map_set_enc. apply IH.
Qed.

Lemma set_each_file f l m :
  set_each (file_json f :: l) m
  = set_each l (map_set (Some (JStr (path f))) (file_json f) m).
Proof. reflexivity. Qed.

Lemma set_each_files fs m :
  set_each (map file_json fs) (enc m)
  = Normal (enc (fold_left (fun m f => put f m) fs m)).
Proof.
  revert m. induction fs as [|f fs IH]; intros m; [reflexivity|].
  rewrite map_cons, set_each_file, map_set_enc. apply IH.
Qed.

Lemma map_snd_enc m : map snd (enc m) = map file_json m.
Proof. unfold enc. rewrite map_map. reflexivity. Qed.

Lemma set_add_names q s : set_add (JStr q) (map JStr s) = map JStr (add_name q s).
Proof.
  induction s as [|q' s IH]; [reflexivity|].
  cbn [map set_add add_name same_value_zero].
  destruct (String.eqb q' q); cbn [map]; [reflexivity | now rewrite IH].
Qed.

Lemma fold_set_add_names l s :
  fold_left (fun s x => set_add x s) (map JStr l) (map JStr s)
  = map JStr (fold_left (fun s q => add_name q s) l s).
Proof.
  revert s. induction l as [|q l IH]; intros s; [reflexivity|].
  cbn [map fold_left]. rewrite set_add_names. apply IH.
Qed.

Lemma new_Set_names ps qs :
  new_Set (map JStr ps ++ map JStr qs) = map JStr (union_names ps qs).
Proof.
  unfold new_Set, union_names. rewrite <- map_app.
  apply (fold_set_add_names (ps ++ qs) []).
Qed.

(** ** [saveFiles] on a stored snapshot *)

Lemma saveFiles_on_snapshot now newFiles newPackages s w :
  fst (loadProject w) = state_json s ->
  saveFiles now newFiles newPackages w
  = (Normal tt,
     saveProject now (state_json (merged now s newFiles newPackages)) (snd (loadProject w))).
Proof.
  intros Hl. unfold saveFiles.
  destruct (loadProject w) as [loaded w1]. cbn [fst snd] in *. subst loaded.
  assert (Ht : truthy (Some (state_json s)) = true) by reflexivity.
  rewrite Ht.
  assert (Hf : get_prop "files" (state_json s) = Some (JArr (map file_json (files s)))).
  { unfold state_json. reflexivity. }
  assert (Hp : get_prop "packages" (state_json s) = Some (JArr (map JStr (packages s)))).
  { unfold state_json. reflexivity. }
  rewrite Hf, Hp.
  pose proof (set_each_files (files s) []) as He.
  change (enc []) with (@nil (option json * json)) in He at 1. rewrite He.
  rewrite fold_map_set_enc, map_snd_enc. cbn [iterate].
  rewrite new_Set_names.
  f_equal. f_equal.
  unfold state_json, merged, merge_files. cbn [files packages lastSaved projectName sandboxId].
  rewrite fold_left_app. cbn [spread].
  destruct (sandboxId s); reflexivity.
Qed.

Lemma merged_refreshed now s nf np :
  refreshed now (merged now s nf np) = merged now s nf np.
Proof. reflexivity. Qed.

Theorem load_after_saveFiles now newFiles newPackages s w :
  window w = true ->
  fst (loadProject w) = state_json s ->
  writes_fit now (state_json (merged now s newFiles newPackages)) (localStorage w) = true ->
  fst (saveFiles now newFiles newPackages w) = Normal tt /\
  fst (loadProject (snd (saveFiles now newFiles newPackages w)))
  = state_json (merged now s newFiles newPackages).
Proof.
  intros Hw Hl Hfit. rewrite (saveFiles_on_snapshot now newFiles newPackages s w Hl).
  cbn [fst snd]. split; [reflexivity|].
  destruct (loadProject_world w) as [Hw1 Hs1].
  rewrite round_trip; [apply f_equal, merged_refreshed | congruence | now rewrite Hs1].
Qed.

(** ** What the merge keeps and what it overwrites *)


Lemma find_put p f m :
  List.find (has_path p) (put f m)
  = if has_path p f then Some f else List.find (has_path p) m.
Proof.
  unfold has_path. induction m as [|g m IH]; cbn [put List.find].
  - reflexivity.
  - destruct (String.eqb (path g) (path f)) eqn:E; cbn [List.find].
    + apply String.eqb_eq in E. rewrite E.
      now destruct (String.eqb (path f) p).
    + rewrite IH. destruct (String.eqb (path g) p) eqn:Eg; [|reflexivity].
      destruct (String.eqb (path f) p) eqn:Ef; [|reflexivity].
      apply String.eqb_eq in Eg, Ef. rewrite <- Ef in Eg.
      rewrite Eg, String.eqb_refl in E. discriminate.
Qed.

Lemma find_app {A} (P : A -> bool) l1 l2 :
  List.find P (l1 ++ l2)
  = match List.find P l1 with Some x => Some x | None => List.find P l2 end.
Proof.
  induction l1 as [|a l1 IH]; [reflexivity|].
  cbn [app List.find]. now destruct (P a).
Qed.

Lemma find_fold_put p l : forall acc,
  List.find (has_path p) (fold_left (fun m f => put f m) l acc)
  = match List.find (has_path p) (rev l) with
    | Some f => Some f
    | None => List.find (has_path p) acc
    end.
Proof.
  induction l as [|f l IH]; intros acc; [reflexivity|].
  cbn [fold_left rev]. rewrite IH, find_app, find_put. cbn [List.find].
  destruct (List.find (has_path p) (rev l)); [reflexivity|].
  now destruct (has_path p f).
Qed.

Lemma paths_put f m :
  map path (put f m) = if existsb (String.eqb (path f)) (map path m)
                       then map path m else map path m ++ [path f].
Proof.
  induction m as [|g m IH]; [reflexivity|].
  cbn [put map existsb].
  destruct (String.eqb (path g) (path f)) eqn:E.
  - apply String.eqb_eq in E. rewrite E, String.eqb_refl. reflexivity.
  - rewrite String.eqb_sym, E. cbn [orb map]. rewrite IH.
    now destruct (existsb (String.eqb (path f)) (map path m)).
Qed.

Lemma existsb_eqb_In (x : string) l : existsb (String.eqb x) l = true <-> In x l.
Proof.
  rewrite existsb_exists. split.
  - intros (y & Hy & E). apply String.eqb_eq in E. now subst.
  - intros H. exists x. split; [exact H | apply String.eqb_refl].
Qed.

Lemma NoDup_snoc (x : string) l : NoDup l -> ~ In x l -> NoDup (l ++ [x]).
Proof.
  intros Hl Hx. apply NoDup_app. repeat split.
  - exact Hl.
  - intros y Hy Hy'. apply list_elem_of_In in Hy, Hy'.
    destruct Hy' as [<-|[]]. contradiction.
  - apply NoDup_singleton.
Qed.

Lemma NoDup_paths_put f m : NoDup (map path m) -> NoDup (map path (put f m)).
Proof.
  intros H. rewrite paths_put.
  destruct (existsb (String.eqb (path f)) (map path m)) eqn:E; [exact H|].
  apply NoDup_snoc; [exact H|].
  intros Hin. apply existsb_eqb_In in Hin. congruence.
Qed.

Lemma NoDup_paths_fold l : forall acc,
  NoDup (map path acc) -> NoDup (map path (fold_left (fun m f => put f m) l acc)).
Proof.
  induction l as [|f l IH]; intros acc H; [exact H|].
  cbn [fold_left]. apply IH. now apply NoDup_paths_put.
Qed.

Lemma find_has_path_None p l :
  List.find (has_path p) l = None <-> ~ In p (map path l).
Proof.
  unfold has_path. induction l as [|f l IH]; cbn [List.find map In]; [tauto|].
  destruct (String.eqb (path f) p) eqn:E.
  - apply String.eqb_eq in E. split; [discriminate | tauto].
  - apply String.eqb_neq in E. rewrite IH. tauto.
Qed.

Lemma find_rev_NoDup p l :
  NoDup (map path l) -> List.find (has_path p) (rev l) = List.find (has_path p) l.
Proof.
  induction l as [|f l IH]; [reflexivity|].
  cbn [map rev List.find]. intros H. apply NoDup_cons in H as [Hf Hl].
  rewrite find_app, IH by exact Hl. cbn [List.find].
  destruct (has_path p f) eqn:E.
  - unfold has_path in E. apply String.eqb_eq in E. subst p.
    assert (Hn : List.find (has_path (path f)) l = None).
    { apply find_has_path_None. intros Hin. apply Hf. now apply list_elem_of_In. }
    now rewrite Hn.
  - now destruct (List.find (has_path p) l).
Qed.

Theorem merge_files_at p existing new :
  file_at p (merge_files existing new)
  = match file_at p new with
    | Some f => Some f
    | None => file_at p existing
    end.
Proof.
  unfold file_at, merge_files.
  change (fun f => String.eqb (path f) p) with (has_path p).
  rewrite find_rev_NoDup by (apply NoDup_paths_fold; constructor).
  rewrite find_fold_put, rev_app_distr, find_app. cbn [List.find].
  destruct (List.find (has_path p) (rev new)); [reflexivity|].
  now destruct (List.find (has_path p) (rev existing)).
Qed.

Lemma file_at_None p l : file_at p l = None <-> ~ In p (map path l).
Proof.
  unfold file_at. change (fun f => String.eqb (path f) p) with (has_path p).
  rewrite find_has_path_None, map_rev.
  split; intros H Hin; apply H; [apply in_rev in Hin | apply in_rev]; exact Hin.
Qed.

Lemma merge_files_NoDup existing new : NoDup (map path (merge_files existing new)).
Proof. apply NoDup_paths_fold. constructor. Qed.

(** ** The union of the packages *)

Lemma In_add_name q x s : In q (add_name x s) <-> q = x \/ In q s.
Proof.
  induction s as [|y s IH]; cbn [add_name In]; [intuition congruence|].
  destruct (String.eqb y x) eqn:E; cbn [In].
  - apply String.eqb_eq in E. subst. intuition congruence.
  - rewrite IH. intuition congruence.
Qed.

Lemma NoDup_add_name x s : NoDup s -> NoDup (add_name x s).
Proof.
  induction s as [|y s IH]; cbn [add_name]; intros H.
  - apply NoDup_singleton.
  - destruct (String.eqb y x) eqn:E; [exact H|].
    apply NoDup_cons in H as [Hy Hs]. apply NoDup_cons. split; [|now apply IH].
    intros Hin. apply list_elem_of_In, In_add_name in Hin as [->|Hin].
    + rewrite String.eqb_refl in E. discriminate.
    + apply Hy. now apply list_elem_of_In.
Qed.

Lemma fold_add_name l : forall acc,
  (forall q, In q (fold_left (fun s q => add_name q s) l acc) <-> In q l \/ In q acc) /\
  (NoDup acc -> NoDup (fold_left (fun s q => add_name q s) l acc)).
Proof.
  induction l as [|x l IH]; intros acc; cbn [fold_left In].
  - split; [tauto | auto].
  - destruct (IH (add_name x acc)) as [H1 H2]. split.
    + intros q. rewrite H1, In_add_name. intuition congruence.
    + intros H. apply H2. now apply NoDup_add_name.
Qed.

Theorem union_names_spec old new :
  (forall q, In q (union_names old new) <-> In q old \/ In q new) /\
  NoDup (union_names old new).
Proof.
  unfold union_names. destruct (fold_add_name (old ++ new) []) as [H1 H2]. split.
  - intros q. rewrite H1, in_app_iff. cbn [In]. tauto.
  - apply H2. constructor.
Qed.

(** ** [loadProject], case by case *)







(** ** [saveProject], write by write *)


Lemma saveProject_primary_fails now state w :
  window w = true ->
  setItem STORAGE_KEY (serialized now state) (localStorage w) = None ->
  localStorage (saveProject now state w) = localStorage w /\
  console (saveProject now state w) = console w ++ [save_error].
Proof. intros Hw H. unfold saveProject. rewrite Hw, H. now split. Qed.

Lemma saveProject_backup_fails now state w st1 :
  window w = true ->
  setItem STORAGE_KEY (serialized now state) (localStorage w) = Some st1 ->
  setItem BACKUP_KEY (serialized now state) st1 = None ->
  localStorage (saveProject now state w) = st1 /\
  console (saveProject now state w) = console w ++ [save_error].
Proof. intros Hw H1 H2. unfold saveProject. rewrite Hw, H1, H2. now split. Qed.

(** ** [importProject] *)


Lemma of_Z_not_word (k : string) i :
  match k with String c _ => number_head c = false | EmptyString => True end ->
  String.eqb k (of_Z i) = false.
Proof.
  intros Hk. destruct (of_Z_head i) as (c & s & E & Hc). rewrite E.
  destruct k as [|c' k']; [reflexivity|]. cbn [String.eqb].
  destruct (Ascii.eqb c' c) eqn:Ec; [|reflexivity].
  apply Ascii.eqb_eq in Ec. subst c'. congruence.
Qed.

Lemma assoc_indexed_word (k : string) l : forall i,
  match k with String c _ => number_head c = false | EmptyString => True end ->
  assoc k (indexed_from i l) = None.
Proof.
  induction l as [|v l IH]; intros i Hk; [reflexivity|].
  cbn [indexed_from assoc]. rewrite of_Z_not_word by exact Hk. now apply IH.
Qed.

(** Only an object has an array under [files]. *)
Lemma files_array_object doc :
  isArray (get_prop "files" doc) = true -> exists l, doc = JObj l.
Proof.
  destruct doc as [|b|n|s|l|l]; cbn [get_prop isArray]; try discriminate.
  - change (String.eqb "files" "length") with false. cbv iota.
    rewrite assoc_indexed_word by reflexivity. discriminate.
  - change (String.eqb "files" "length") with false. cbv iota.
    rewrite assoc_indexed_word by reflexivity. discriminate.
  - intros _. now exists l.
Qed.

Lemma isArray_truthy v : isArray v = true -> truthy v = true.
Proof. destruct v as [[]|]; cbn; congruence. Qed.

Lemma importProject_rejects now text w :
  has_files_array text = false ->
  importProject now (Some text) w = (false, say Error (snd import_error) w).
Proof.
  unfold has_files_array, importProject. intros H.
  destruct (parse text) as [doc|]; [|reflexivity].
  destruct doc; try reflexivity; rewrite H; now rewrite orb_true_r.
Qed.

Lemma importProject_accepts now text w doc :
  parse text = Some doc -> has_files_array text = true ->
  importProject now (Some text) w = (true, saveProject now doc w).
Proof.
  unfold has_files_array, importProject. intros Hp H. rewrite Hp in *.
  destruct doc; try discriminate; rewrite H, (isArray_truthy _ H); reflexivity.
Qed.

Lemma importProject_true now text w :
  fst (importProject now (Some text) w) = true -> has_files_array text = true.
Proof.
  intros H. destruct (has_files_array text) eqn:E; [reflexivity|].
  rewrite importProject_rejects in H by exact E. discriminate.
Qed.

Theorem load_after_import now text doc w :
  window w = true ->
  parse text = Some doc ->
  fst (importProject now (Some text) w) = true ->
  writes_fit now doc (localStorage w) = true ->
  fst (loadProject (snd (importProject now (Some text) w)))
  = JObj (obj_set "lastSaved" (JStr now) (spread doc)).
Proof.
  intros Hw Hp Hacc Hfit.
  pose proof (importProject_true _ _ _ Hacc) as Hh.
  rewrite (importProject_accepts now text w doc Hp Hh). cbn [snd].
  apply load_after_save; [exact Hw | | exact Hfit].
  unfold has_files_array in Hh. rewrite Hp in Hh.
  assert (Ha : isArray (get_prop "files" doc) = true) by (destruct doc; congruence).
  destruct (files_array_object doc Ha) as [l ->]. cbn [spread].
  eapply parse_wf; eassumption.
Qed.

(** ** [saveFiles] when nothing is stored *)

Lemma saveFiles_on_empty_store now newFiles newPackages w :
  fst (loadProject w) = JNull ->
  saveFiles now newFiles newPackages w
  = (Normal tt,
     saveProject now (first_snapshot now newFiles newPackages) (snd (loadProject w))).
Proof.
  intros Hl. unfold saveFiles.
  destruct (loadProject w) as [loaded w1]. cbn [fst snd] in *. subst loaded.
  cbn [truthy get_prop assoc String.eqb Ascii.eqb Bool.eqb set_each iterate app map].
  pose proof (fold_map_set_enc newFiles []) as He.
  change (enc []) with (@nil (option json * json)) in He at 1. rewrite He.
  rewrite map_snd_enc.
  pose proof (new_Set_names [] newPackages) as Hn. cbn [map app] in Hn. rewrite Hn.
  reflexivity.
Qed.

Theorem load_after_first_saveFiles now newFiles newPackages w :
  window w = true ->
  fst (loadProject w) = JNull ->
  writes_fit now (first_snapshot now newFiles newPackages) (localStorage w) = true ->
  fst (loadProject (snd (saveFiles now newFiles newPackages w)))
  = first_snapshot now newFiles newPackages.
Proof.
  intros Hw Hl Hfit. rewrite (saveFiles_on_empty_store now newFiles newPackages w Hl).
  cbn [snd]. destruct (loadProject_world w) as [Hw1 Hs1].
  rewrite load_after_save; [reflexivity | congruence | | now rewrite Hs1].
  unfold first_snapshot. cbn [spread wfb map fst snd nodupb forallb].
  now rewrite wfb_files, wfb_names.
Qed.

(** ** A load after the backup write failed *)

Lemma load_after_backup_failure now s w st1 :
  window w = true ->
  setItem STORAGE_KEY (serialized now (state_json s)) (localStorage w) = Some st1 ->
  setItem BACKUP_KEY (serialized now (state_json s)) st1 = None ->
  fst (loadProject (saveProject now (state_json s) w)) = state_json (refreshed now s).
Proof.
  intros Hw H1 H2.
  apply loadProject_primary with (text := serialized now (state_json s)).
  - unfold saveProject. now rewrite Hw, H1, H2.
  - destruct (saveProject_backup_fails now _ w st1 Hw H1 H2) as [-> _].
    eapply getItem_setItem_eq; eassumption.
  - apply stringify_obj_nonempty.
  - unfold serialized. rewrite refreshed_json. apply parse_stringify, wfb_state.
Qed.

End PersistenceFacts.

(* ===================================================================== *)
(** * Classifier, restore route, lifecycle *)
(* ===================================================================== *)

Section OtherFacts.
Import Str JSON JS Regex.

(** * The classifier *)
Section Classifier.
Import ErrorMonitor.

Lemma detect_first patterns errorMessage :
  match detect patterns errorMessage with
  | Some p =>
      exists earlier later,
        patterns = earlier ++ p :: later /\
        test (pattern p) errorMessage = true /\
        Forall (fun q => test (pattern q) errorMessage = false) earlier
  | None => Forall (fun q => test (pattern q) errorMessage = false) patterns
  end.
Proof.
  induction patterns as [|p rest IH]; cbn [detect]; [constructor|].
  destruct (test (pattern p) errorMessage) eqn:E.
  - exists [], rest. repeat split; [exact E | constructor].
  - destruct (detect rest errorMessage) as [q|].
    + destruct IH as (earlier & later & -> & Hq & Hearlier).
      exists (p :: earlier), later. repeat split; [exact Hq | now constructor].
    + now constructor.
Qed.
End Classifier.

(** * The restore route *)
Section Restore.
Import RestoreRoute Spec.

End Restore.

(** * The sandbox lifecycle *)
Section Lifecycle.
Import SandboxWarning Spec.

Variable t0 : Z.


Lemma tick_reported now v : reported t0 now (tick (Num t0) now v).
Proof.
  unfold reported, tick, SANDBOX_LIFETIME, WARNING_THRESHOLD.
  destruct (Z.leb_spec (15 * 60 * 1000 - (now - t0)) 0);
    [|destruct (Z.leb_spec (15 * 60 * 1000 - (now - t0)) (2 * 60 * 1000))];
    cbn [timeRemaining showWarning]; split; try (f_equal; f_equal; lia);
    symmetry; first [apply Z.leb_le | apply Z.leb_gt]; lia.
Qed.

Lemma tick_ticking now v :
  ticking (tick (Num t0) now v) = true -> (0 < SANDBOX_LIFETIME - (now - t0))%Z.
Proof.
  unfold tick. destruct (Z.leb_spec (SANDBOX_LIFETIME - (now - t0)) 0); [discriminate|].
  intros _. assumption.
Qed.

Lemma observe_ticking nows v x : In x (observe (Num t0) nows v) -> ticking v = true.
Proof. destruct nows; cbn [observe]; [intros []|]. now destruct (ticking v). Qed.

Lemma observe_reports nows : forall v x,
  In x (observe (Num t0) nows v) -> exists now, In now nows /\ reported t0 now x.
Proof.
  induction nows as [|now later IH]; intros v x; cbn [observe]; [intros []|].
  destruct (ticking v); [|intros []].
  intros [<-|Hin].
  - exists now. split; [now left | apply tick_reported].
  - destruct (IH _ _ Hin) as (now' & Hin' & Hr). exists now'. split; [now right | exact Hr].
Qed.

Lemma phase_reported now x : reported t0 now x -> phase_of x = phase_at (now - t0).
Proof.
  intros [Ht Hs]. unfold phase_of, phase_at. rewrite Ht, Hs.
  unfold SANDBOX_LIFETIME, WARNING_THRESHOLD in *.
  destruct (Z.leb_spec (15 * 60 * 1000 - (now - t0)) (2 * 60 * 1000));
    destruct (Z.ltb_spec (now - t0) (15 * 60 * 1000 - 2 * 60 * 1000)); try lia;
    cbn [negb]; [|reflexivity].
  destruct (Z.leb_spec (Z.max 0 (15 * 60 * 1000 - (now - t0))) 0);
    destruct (Z.ltb_spec (now - t0) (15 * 60 * 1000)); try lia; reflexivity.
Qed.

Lemma phase_at_mono e1 e2 :
  (e1 <= e2)%Z -> rank (phase_at e1) <= rank (phase_at e2).
Proof.
  intros H. unfold phase_at, SANDBOX_LIFETIME, WARNING_THRESHOLD.
  destruct (Z.ltb_spec e1 (15 * 60 * 1000 - 2 * 60 * 1000));
    destruct (Z.ltb_spec e2 (15 * 60 * 1000 - 2 * 60 * 1000));
    destruct (Z.ltb_spec e1 (15 * 60 * 1000));
    destruct (Z.ltb_spec e2 (15 * 60 * 1000)); cbn [rank]; lia.
Qed.

Lemma advances_reported now now' a b :
  (now < now')%Z -> (0 < SANDBOX_LIFETIME - (now - t0))%Z ->
  reported t0 now a -> reported t0 now' b -> advances a b.
Proof.
  intros Hlt Hpos Ha Hb. split.
  - rewrite (phase_reported _ _ Ha), (phase_reported _ _ Hb).
    apply phase_at_mono. lia.
  - destruct Ha as [Ha _], Hb as [Hb _]. unfold remaining_of. rewrite Ha, Hb.
    eexists _, _. repeat split. lia.
Qed.

Theorem observe_advances nows : forall v,
  StronglySorted Z.lt nows -> StronglySorted advances (observe (Num t0) nows v).
Proof.
  induction nows as [|now later IH]; intros v Hs; cbn [observe]; [constructor|].
  destruct (ticking v); [|constructor].
  apply StronglySorted_inv in Hs as [Hlater Hnow].
  constructor; [now apply IH|].
  apply List.Forall_forall. intros x Hx.
  destruct (observe_reports _ _ _ Hx) as (now' & Hin & Hr).
  apply advances_reported with (now := now) (now' := now').
  - rewrite List.Forall_forall in Hnow. now apply Hnow.
  - apply tick_ticking with (v := v). eapply observe_ticking; eassumption.
  - apply tick_reported.
  - exact Hr.
Qed.

Lemma expired_iff_zero now x :
  reported t0 now x -> (remaining_of x = Some 0%Z <-> phase_of x = Expired).
Proof.
  intros Hr. rewrite (phase_reported _ _ Hr). destruct Hr as [Ht _].
  unfold remaining_of, phase_at. rewrite Ht.
  unfold SANDBOX_LIFETIME, WARNING_THRESHOLD.
  destruct (Z.ltb_spec (now - t0) (15 * 60 * 1000 - 2 * 60 * 1000));
    [|destruct (Z.ltb_spec (now - t0) (15 * 60 * 1000))];
    (split; [intros [= E]; try lia | try discriminate]); try reflexivity.
  intros _. f_equal. lia.
Qed.
Lemma tick_stops now v :
  ticking v = true ->
  (ticking (tick (Num t0) now v) = false <-> phase_of (tick (Num t0) now v) = Expired).
Proof.
  intros Hv. unfold tick, phase_of.
  destruct (Z.leb_spec (SANDBOX_LIFETIME - (now - t0)) 0) as [H0|H0].
  - cbn. split; reflexivity.
  - destruct (Z.leb_spec (SANDBOX_LIFETIME - (now - t0)) WARNING_THRESHOLD);
      cbn [timeRemaining showWarning ticking negb]; rewrite Hv.
    + destruct (Z.leb_spec (SANDBOX_LIFETIME - (now - t0)) 0); [lia|].
      split; discriminate.
    + split; discriminate.
Qed.

Lemma observe_stops nows : forall v x,
  In x (observe (Num t0) nows v) ->
  (ticking x = false <-> phase_of x = Expired).
Proof.
  induction nows as [|now later IH]; intros v x; cbn [observe]; [intros []|].
  destruct (ticking v) eqn:Hv; [|intros []].
  intros [<-|Hin]; [now apply tick_stops | eapply IH; eassumption].
Qed.
End Lifecycle.

End OtherFacts.

(* ===================================================================== *)
(** * The auto-fix route, applied twice *)
(* ===================================================================== *)

Section AutoFixFacts.
Import Str Regex ErrorMonitor AutoFixRoute Spec.

(** * Substrings *)

Lemma strip_prefix_app m a b r :
  strip_prefix m a = Some r -> strip_prefix m (a +:+ b) = Some (r +:+ b).
Proof.
  revert a. induction m as [|x m IH]; intros a; cbn [strip_prefix].
  - now intros [= ->].
  - destruct a as [|y a]; [discriminate|]. rewrite append_cons.
    destruct (Ascii.eqb x y); [apply IH | discriminate].
Qed.

Lemma startsWith_app a b m : startsWith a m = true -> startsWith (a +:+ b) m = true.
Proof.
  unfold startsWith. destruct (strip_prefix m a) as [r|] eqn:E; [|discriminate].
  now rewrite (strip_prefix_app _ _ b _ E).
Qed.

Lemma includes_unfold s m :
  includes s m = startsWith s m || match s with
                                   | EmptyString => false
                                   | String _ s' => includes s' m
                                   end.
Proof. destruct s; reflexivity. Qed.

Lemma includes_app_l a b m : includes a m = true -> includes (a +:+ b) m = true.
Proof.
  induction a as [|x a IH]; rewrite (includes_unfold _ m); intros H.
  - rewrite orb_false_r in H. rewrite (includes_unfold (_ +:+ _)).
    now rewrite (startsWith_app "" b m H).
  - apply orb_true_iff in H as [H|H]; rewrite (includes_unfold (_ +:+ _)).
    + now rewrite (startsWith_app _ b m H).
    + rewrite append_cons. rewrite (IH H). apply orb_true_r.
Qed.

Lemma includes_app_r a b m : includes b m = true -> includes (a +:+ b) m = true.
Proof.
  intros H. induction a as [|x a IH]; [exact H|].
  rewrite (includes_unfold (_ +:+ _)), append_cons, IH. apply orb_true_r.
Qed.

Lemma includes_mid a r b m : includes r m = true -> includes (a +:+ r +:+ b) m = true.
Proof. intros H. apply includes_app_r, includes_app_l, H. Qed.

(** * One replacement either changes nothing or puts the new text in *)

Lemma replace_cases r repl s m :
  includes repl m = true ->
  replace r repl s = s \/ includes (replace r repl s) m = true.
Proof.
  intros H. unfold replace. destruct (exec r s) as [[[b e] c]|]; [|now left].
  right. now apply includes_mid.
Qed.

Lemma replace_all_cases r repl s m :
  includes repl m = true ->
  replace_all r repl s = s \/ includes (replace_all r repl s) m = true.
Proof.
  intros H. unfold replace_all. cbn [replace_all_from].
  destruct (exec_from r 0 s) as [[[b e] c]|]; [|now left].
  right. destruct (e =? b).
  - destruct (substring _ _ s).
    + now apply includes_app_r.
    + now apply includes_mid.
  - now apply includes_mid.
Qed.

(** * The branches of the route *)


Lemma branch_guarded file msg marker f sv :
  branch file msg (guarded marker f) sv =
  match readFile (join_path (cwd sv) file) sv with
  | None => enoent sv
  | Some c =>
      (succeeded msg,
       if negb (includes c marker) then writeFile (join_path (cwd sv) file) (f c) sv else sv)
  end.
Proof.
  unfold branch, guarded. destruct (readFile _ sv) as [c|]; [|reflexivity].
  now destruct (negb (includes c marker)).
Qed.

Lemma POST_branches plan :
  (is_css_plan plan = false /\
   exists msg patch,
     (forall sv, POST plan sv = branch (file plan) msg patch sv) /\
     (forall c c', patch c = Some c' -> patch c' = None \/ patch c' = Some c')) \/
  (is_css_plan plan = true /\
   forall sv, POST plan sv
              = branch (file plan) "CSS markdown syntax removed" (fun c => Some (strip_fence c)) sv) \/
  (is_css_plan plan = false /\ forall sv, POST plan sv = no_fix sv).
Proof.
  unfold is_css_plan.
  destruct (String.eqb (file plan) "app/layout.tsx"
            && includes (fix_ plan) "suppressHydrationWarning") eqn:E1.
  { left. split; [reflexivity|]. exists "Hydration warning suppressed", patch_hydration. split.
    - intros sv. unfold patch_hydration. rewrite branch_guarded. unfold POST. now rewrite E1.
    - unfold patch_hydration, guarded. intros c c'.
      set (f := replace body_tag _).
      destruct (negb (includes c _)) eqn:G; [|discriminate].
      intros Hc. assert (Hc' : c' = f c) by congruence. subst c'. clear Hc. subst f.
      destruct (replace_cases body_tag
                  "<body className={inter.className} suppressHydrationWarning>" c
                  "suppressHydrationWarning" eq_refl) as [E | E].
      + rewrite !E, G. now right.
      + rewrite E. now left. }
  destruct (endsWith (file plan) ".css" && includes (fix_ plan) "Remove markdown") eqn:E2.
  { right. left. split; [reflexivity|]. intros sv. unfold POST, branch. now rewrite E1, E2. }
  destruct (includes (file plan) "generate-ai-code-stream"
            && includes (fix_ plan) "stream state checks") eqn:E3.
  { left. split; [reflexivity|]. exists "Stream error handling added", patch_stream. split.
    - intros sv. unfold patch_stream. rewrite branch_guarded. unfold POST.
      now rewrite E1, E2, E3.
    - unfold patch_stream, guarded. intros c c'.
      set (f := replace_all _ _).
      destruct (negb (includes c _)) eqn:G; [|discriminate].
      intros Hc. assert (Hc' : c' = f c) by congruence. subst c'. clear Hc. subst f.
      destruct (replace_all_cases (lit "await writer.close();") guarded_close c
                  "!stream.locked" eq_refl) as [E | E].
      + rewrite !E, G. now right.
      + rewrite E. now left. }
  destruct (includes (file plan) "scrape-url-enhanced"
            && includes (fix_ plan) "Validate and format URL") eqn:E4.
  { left. split; [reflexivity|]. exists "URL validation added", patch_url. split.
    - intros sv. unfold patch_url. rewrite branch_guarded. unfold POST.
      now rewrite E1, E2, E3, E4.
    - unfold patch_url, guarded. intros c c'.
      destruct (negb (includes c _)) eqn:G; [|discriminate].
      intros Hc.
      assert (Hc' : c' = replace_all (lit "const targetUrl = url;")
                           "const targetUrl = validateUrl(url);"
                           (urlValidation +:+ String LF "" +:+ c)) by congruence.
      subst c'. clear Hc.
      left.
      destruct (replace_all_cases (lit "const targetUrl = url;")
                  "const targetUrl = validateUrl(url);"
                  (urlValidation +:+ String LF "" +:+ c) "validateUrl" eq_refl) as [E | E].
      + rewrite E, (includes_app_l urlValidation _ "validateUrl" eq_refl). reflexivity.
      + rewrite E. reflexivity. }
  right. right. split; [reflexivity|]. intros sv. unfold POST, no_fix.
  now rewrite E1, E2, E3, E4.
Qed.

(** * Running a branch twice *)

Lemma branch_twice file msg patch sv :
  (forall c c', readFile (join_path (cwd sv) file) sv = Some c -> patch c = Some c' ->
                patch c' = None \/ patch c' = Some c') ->
  branch file msg patch (snd (branch file msg patch sv)) = branch file msg patch sv.
Proof.
  intros H. unfold branch at 2 3.
  destruct (readFile (join_path (cwd sv) file) sv) as [c|] eqn:Hr.
  - cbn [snd]. destruct (patch c) as [c'|] eqn:Hp.
    + unfold branch. cbn [cwd writeFile]. unfold readFile at 1. cbn [disk writeFile].
      rewrite lookup_insert_eq.
      destruct (H c c' eq_refl Hp) as [-> | ->]; [reflexivity|].
      unfold writeFile. cbn [cwd disk]. now rewrite insert_insert_eq.
    + unfold branch. now rewrite Hr, Hp.
  - unfold enoent at 1. cbn [snd]. unfold branch. now rewrite Hr.
Qed.

Lemma no_fix_twice sv : no_fix (snd (no_fix sv)) = no_fix sv.
Proof. reflexivity. Qed.

(** * The two anchored patterns of the CSS branch *)

Lemma strip_prefix_cons a p b s :
  strip_prefix (String a p) (String b s) = if Ascii.eqb a b then strip_prefix p s else None.
Proof. reflexivity. Qed.

Lemma run_lit p : forall fuel pos s c k,
  run (lit p) fuel pos s c k =
  match strip_prefix p s with
  | Some s' => k (pos + String.length p) s' c
  | None => None
  end.
Proof.
  induction p as [|x p IH]; intros fuel pos s c k.
  - cbn. now rewrite Nat.add_0_r.
  - destruct p as [|x' p'].
    + cbn. destruct s as [|y s']; [reflexivity|].
      destruct (Ascii.eqb x y); [|reflexivity].
      replace (pos + 1) with (S pos) by lia. reflexivity.
    + change (lit (String x (String x' p'))) with (Seq (chr x) (lit (String x' p'))).
      cbn [run chr]. destruct s as [|y s']; [reflexivity|].
      rewrite strip_prefix_cons.
      destruct (Ascii.eqb x y); [|reflexivity].
      rewrite IH. destruct (strip_prefix (String x' p') s'); [|reflexivity].
      change (String.length (String x (String x' p')))
        with (S (String.length (String x' p'))).
      rewrite Nat.add_succ_r. reflexivity.
Qed.

Lemma exec_from_bol r s : forall pos, 0 < pos -> exec_from (Seq Bol r) pos s = None.
Proof.
  induction s as [|x s IH]; intros pos Hpos; cbn [exec_from run];
    destruct (Nat.eqb_spec pos 0); try lia; [reflexivity|].
  apply IH. lia.
Qed.

Lemma replace_open_unfenced c :
  startsWith c fence_open = false -> replace css_open "" c = c.
Proof.
  intros H. unfold replace, exec.
  change css_open with (Seq Bol (lit fence_open)).
  assert (E : exec_from (Seq Bol (lit fence_open)) 0 c = None).
  { unfold startsWith in H.
    destruct c as [|x c']; cbn [exec_from run Nat.eqb]; rewrite run_lit;
      destruct (strip_prefix fence_open _); try discriminate; [reflexivity|].
    apply exec_from_bol. lia. }
  now rewrite E.
Qed.

Lemma strip_prefix_all p s : strip_prefix p s = Some "" -> s = p.
Proof.
  revert s. induction p as [|x p IH]; intros s; cbn [strip_prefix].
  - now intros [= ->].
  - destruct s as [|y s]; [discriminate|].
    destruct (Ascii.eqb_spec x y); [|discriminate].
    intros H. subst y. f_equal. now apply IH.
Qed.

Lemma exec_from_eol p s : forall pos,
  endsWith s p = false -> exec_from (Seq (lit p) Eol) pos s = None.
Proof.
  induction s as [|x s IH]; intros pos H.
  - cbn [exec_from run]. rewrite run_lit.
    destruct (strip_prefix p "") as [[|]|] eqn:E; try reflexivity.
    apply strip_prefix_all in E. subst p. discriminate.
  - cbn [endsWith] in H. apply orb_false_iff in H as [Hne Hs].
    cbn [exec_from run]. rewrite run_lit.
    destruct (strip_prefix p (String x s)) as [[|]|] eqn:E; try (now apply IH).
    apply strip_prefix_all in E. subst p. rewrite String.eqb_refl in Hne. discriminate.
Qed.

Lemma replace_close_unfenced c :
  endsWith c fence_close = false -> replace css_close "" c = c.
Proof.
  intros H. unfold replace, exec.
  change css_close with (Seq (lit fence_close) Eol).
  now rewrite exec_from_eol.
Qed.

Lemma strip_fence_unfenced c : unfenced c = true -> strip_fence c = c.
Proof.
  unfold unfenced, strip_fence. intros H. apply andb_true_iff in H as [H1 H2].
  apply negb_true_iff in H1, H2.
  now rewrite replace_open_unfenced, replace_close_unfenced.
Qed.

(** * The route, twice *)

Theorem POST_twice plan sv :
  fst (POST plan (snd (POST plan sv))) = fst (POST plan sv) /\
  (is_css_plan plan = false -> snd (POST plan (snd (POST plan sv))) = snd (POST plan sv)) /\
  (forall once, target plan (snd (POST plan sv)) = Some once -> unfenced once = true ->
                snd (POST plan (snd (POST plan sv))) = snd (POST plan sv)).
Proof.
  destruct (POST_branches plan)
    as [(Hc & msg & patch & HP & Hpatch) | [(Hc & HP) | (Hc & HP)]].
  - assert (E : POST plan (snd (POST plan sv)) = POST plan sv).
    { rewrite !HP. apply branch_twice. intros c c' _. apply Hpatch. }
    rewrite E. repeat split; reflexivity.
  - rewrite Hc. split; [|split; [discriminate|]].
    + rewrite !HP. unfold branch at 2 3.
      destruct (readFile (join_path (cwd sv) (file plan)) sv) as [c|] eqn:Hr; cbn [fst snd].
      * unfold branch. cbn [cwd writeFile]. unfold readFile at 1. cbn [disk writeFile].
        now rewrite lookup_insert_eq.
      * unfold enoent at 1. cbn [snd]. unfold branch. now rewrite Hr.
    + intros once Ht Hu. unfold target in Ht. rewrite !HP.
      unfold branch at 2 3. rewrite HP in Ht. unfold branch in Ht.
      destruct (readFile (join_path (cwd sv) (file plan)) sv) as [c|] eqn:Hr.
      * cbn [snd] in Ht |- *.
        assert (Hread : forall x,
                  readFile (join_path (cwd sv) (file plan))
                           (writeFile (join_path (cwd sv) (file plan)) x sv) = Some x).
        { intros x. unfold readFile, writeFile. cbn [disk]. apply lookup_insert_eq. }
        cbn [cwd writeFile] in Ht. fold (writeFile (join_path (cwd sv) (file plan))
                                           (strip_fence c) sv) in Ht.
        rewrite Hread in Ht. injection Ht as Ht.
        unfold branch. cbn [cwd writeFile].
        fold (writeFile (join_path (cwd sv) (file plan)) (strip_fence c) sv).
        rewrite Hread, Ht, (strip_fence_unfenced once Hu). cbn [snd].
        unfold writeFile. cbn [cwd disk]. now rewrite insert_insert_eq.
      * unfold enoent at 1. cbn [snd]. unfold branch. now rewrite Hr.
  - rewrite !HP. repeat split; reflexivity.
Qed.

End AutoFixFacts.

(* ===================================================================== *)
(** * Pieces of a text *)
(* ===================================================================== *)

Section TextFacts.
Import Str Regex.

Lemma length_append (a b : string) :
  String.length (a +:+ b) = String.length a + String.length b.
Proof. induction a as [|x a IH]; [reflexivity|]. rewrite append_cons. cbn. now rewrite IH. Qed.

Lemma substring_all (s : string) : substring 0 (String.length s) s = s.
Proof. induction s as [|x s IH]; [reflexivity|]. cbn. now rewrite IH. Qed.

Lemma substring_head (a z : string) : substring 0 (String.length a) (a +:+ z) = a.
Proof.
  induction a as [|x a IH].
  - rewrite append_nil_l. now destruct z.
  - rewrite append_cons. cbn. now rewrite IH.
Qed.

Lemma substring_tail (a z : string) :
  substring (String.length a) (String.length z) (a +:+ z) = z.
Proof.
  induction a as [|x a IH].
  - rewrite append_nil_l. apply substring_all.
  - rewrite append_cons. cbn. exact IH.
Qed.

(** [replace] puts the new text where the match was. *)
Lemma replace_at r repl (a t z : string) c :
  exec r (a +:+ t +:+ z) = Some (String.length a, String.length a + String.length t, c) ->
  replace r repl (a +:+ t +:+ z) = a +:+ repl +:+ z.
Proof.
  intros H. unfold replace. rewrite H.
  rewrite substring_head. f_equal. f_equal.
  rewrite <- append_assoc'.
  replace (String.length a + String.length t) with (String.length (a +:+ t))
    by apply length_append.
  replace (String.length ((a +:+ t) +:+ z) - String.length (a +:+ t))
    with (String.length z) by (rewrite (length_append (a +:+ t) z); lia).
  apply substring_tail.
Qed.

Lemma strip_prefix_split p s r : strip_prefix p s = Some r -> s = p +:+ r.
Proof.
  revert s. induction p as [|x p IH]; intros s; cbn [strip_prefix].
  - intros [= ->]. now rewrite append_nil_l.
  - destruct s as [|y s]; [discriminate|].
    destruct (Ascii.eqb_spec x y); [|discriminate].
    intros H. subst y. rewrite append_cons. f_equal. now apply IH.
Qed.

Lemma strip_prefix_append p r : strip_prefix p (p +:+ r) = Some r.
Proof.
  induction p as [|x p IH]; [now rewrite append_nil_l|].
  rewrite append_cons. cbn [strip_prefix]. now rewrite Ascii.eqb_refl.
Qed.


Lemma substring_mid (a g z : string) :
  substring (String.length a) (String.length g) (a +:+ g +:+ z) = g.
Proof.
  induction a as [|x a IH].
  - rewrite append_nil_l. apply substring_head.
  - rewrite append_cons. cbn. exact IH.
Qed.

(** Where [exec_from] finds a match, the pattern matches. *)
Lemma exec_from_found r s : forall pos b e c,
  exec_from r pos s = Some (b, e, c) ->
  exists pre s',
    s = pre +:+ s' /\ b = pos + String.length pre /\
    run r (S (String.length s')) b s' [] (fun pos' _ c' => Some (pos', c')) = Some (e, c).
Proof.
  induction s as [|x s IH]; intros pos b e c; cbn [exec_from].
  - destruct (run r _ pos "" [] _) as [[e' c']|] eqn:E; [|discriminate].
    intros [= <- <- <-]. exists "", "". rewrite Nat.add_0_r. repeat split. exact E.
  - destruct (run r _ pos (String x s) [] _) as [[e' c']|] eqn:E.
    + intros [= <- <- <-]. exists "", (String x s). rewrite Nat.add_0_r.
      rewrite append_nil_l. repeat split. exact E.
    + intros H. destruct (IH _ _ _ _ H) as (pre & s' & -> & -> & Hr).
      exists (String x pre), s'. rewrite append_cons. cbn [String.length].
      repeat split; [lia | exact Hr].
Qed.

End TextFacts.

Section PersistenceMore.
Import Str JSON JS Storage ProjectPersistence Spec Examples.

Lemma getItem_removeItem_eq k st : getItem k (removeItem k st) = None.
Proof. unfold getItem, removeItem. cbn [items]. apply lookup_delete_eq. Qed.

Lemma getItem_removeItem_ne k k' st : k <> k' -> getItem k' (removeItem k st) = getItem k' st.
Proof. intros H. unfold getItem, removeItem. cbn [items]. now apply lookup_delete_ne. Qed.

(** What [saveProject] leaves under a key that is neither slot. *)
Lemma saveProject_other_keys k now state w :
  k <> STORAGE_KEY -> k <> BACKUP_KEY ->
  getItem k (localStorage (saveProject now state w)) = getItem k (localStorage w).
Proof.
  intros H1 H2. unfold saveProject. destruct (negb (window w)); [reflexivity|].
  destruct (setItem STORAGE_KEY _ _) as [st1|] eqn:E1; [|reflexivity].
  assert (G1 : getItem k st1 = getItem k (localStorage w))
    by (eapply getItem_setItem_ne; [apply not_eq_sym, H1 | exact E1]).
  destruct (setItem BACKUP_KEY _ st1) as [st2|] eqn:E2; cbn [say with_storage localStorage].
  - rewrite <- G1. eapply getItem_setItem_ne; [apply not_eq_sym, H2 | exact E2].
  - exact G1.
Qed.

Lemma saveProject_window now state w : window (saveProject now state w) = window w.
Proof.
  unfold saveProject. destruct (window w) eqn:Hw; cbn [negb]; [|exact Hw].
  destruct (setItem STORAGE_KEY _ _) as [st1|]; [|exact Hw].
  destruct (setItem BACKUP_KEY _ _); exact Hw.
Qed.

Lemma loadProject_without_project w : hasProject w = false -> loadProject w = (JNull, w).
Proof.
  unfold hasProject, loadProject. destruct (negb (window w)); [reflexivity|].
  intros H. apply orb_false_iff in H as [H1 H2].
  apply negb_false_iff in H1, H2. now rewrite H1, H2.
Qed.

Lemma slots_after_save now state w :
  window w = true ->
  writes_fit now state (localStorage w) = true ->
  getItem STORAGE_KEY (localStorage (saveProject now state w)) = Some (serialized now state) /\
  getItem BACKUP_KEY (localStorage (saveProject now state w)) = Some (serialized now state).
Proof.
  intros Hw Hfit.
  destruct (saveProject_fits now state w Hw Hfit) as (st1 & st2 & E1 & E2 & ->).
  cbn [say with_storage localStorage]. split.
  - erewrite getItem_setItem_ne; [|apply not_eq_sym, keys_differ|exact E2].
    eapply getItem_setItem_eq; exact E1.
  - eapply getItem_setItem_eq; exact E2.
Qed.

Lemma hasProject_after_save now state w :
  window w = true ->
  writes_fit now state (localStorage w) = true ->
  hasProject (saveProject now state w) = true.
Proof.
  intros Hw Hfit. destruct (slots_after_save now state w Hw Hfit) as [G1 _].
  unfold hasProject. rewrite saveProject_window, Hw, G1. cbn [negb falsy].
  unfold serialized. now rewrite stringify_obj_nonempty.
Qed.

Lemma loadProject_storage w : localStorage (snd (loadProject w)) = localStorage w.
Proof. apply loadProject_world. Qed.

Lemma saveFiles_storage_cases now nf np w :
  (exists state, snd (saveFiles now nf np w) = saveProject now state (snd (loadProject w))) \/
  snd (saveFiles now nf np w) = snd (loadProject w).
Proof.
  unfold saveFiles. destruct (loadProject w) as [loaded w1]. cbn [snd].
  destruct (get_prop "files" _) as [[| | | |existing|]|]; try (right; reflexivity).
  destruct (set_each existing []); [|right; reflexivity].
  destruct (iterate _); [|right; reflexivity].
  left. eexists. reflexivity.
Qed.

Lemma importProject_storage_cases now file w :
  (exists state, snd (importProject now file w) = saveProject now state w) \/
  localStorage (snd (importProject now file w)) = localStorage w.
Proof.
  unfold importProject. destruct file as [text|]; [|right; reflexivity].
  destruct (parse text) as [doc|]; [|right; reflexivity].
  destruct doc; try (right; reflexivity);
    match goal with
    | |- context [if ?b then _ else _] => destruct b; [right; reflexivity | left; eexists; reflexivity]
    end.
Qed.


Lemma put_present f m :
  In (path f) (map path m) -> NoDup (map path m) ->
  put f m = map (fun g => if String.eqb (path g) (path f) then f else g) m.
Proof.
  induction m as [|g m IH]; cbn [map In put]; [intros []|].
  intros Hin Hnd. apply NoDup_cons in Hnd as [Hg Hm].
  rewrite list_elem_of_In in Hg.
  destruct (String.eqb_spec (path g) (path f)) as [E|E].
  - f_equal. clear IH Hin Hm.
    induction m as [|h m IH]; [reflexivity|]. cbn [map].
    destruct (String.eqb_spec (path h) (path f)) as [E'|E'].
    + exfalso. apply Hg. left. congruence.
    + f_equal. apply IH. intros H. apply Hg. now right.
  - f_equal. apply IH; [|exact Hm]. destruct Hin as [Hin|Hin]; [congruence|exact Hin].
Qed.

Lemma put_fresh f m : ~ In (path f) (map path m) -> put f m = m ++ [f].
Proof.
  induction m as [|g m IH]; cbn [map In put]; [reflexivity|].
  intros H. destruct (String.eqb_spec (path g) (path f)) as [E|E].
  - exfalso. apply H. now left.
  - cbn [app]. f_equal. apply IH. intros Hin. apply H. now right.
Qed.

(** Files of distinct paths, put one after the other, come out as they
    went in. *)
Lemma fold_put_NoDup l : forall acc,
  NoDup (map path (acc ++ l)) ->
  fold_left (fun m f => put f m) l acc = acc ++ l.
Proof.
  induction l as [|f l IH]; intros acc H; cbn [fold_left].
  - now rewrite app_nil_r.
  - assert (E : acc ++ f :: l = (acc ++ [f]) ++ l) by now rewrite <- app_assoc.
    rewrite E in H |- *.
    rewrite put_fresh.
    + now apply IH.
    + rewrite !map_app in H. apply NoDup_app in H as (H & _ & _).
      apply NoDup_app in H as (_ & H & _).
      intros Hin. apply list_elem_of_In in Hin. apply (H _ Hin). now left.
Qed.

Lemma file_at_snoc p l f :
  file_at p (l ++ [f]) = if String.eqb (path f) p then Some f else file_at p l.
Proof. unfold file_at. rewrite rev_app_distr. reflexivity. Qed.

Lemma file_at_path p l f : file_at p l = Some f -> path f = p.
Proof.
  unfold file_at. intros H. apply find_some in H as [_ H]. now apply String.eqb_eq.
Qed.

Lemma file_at_NoDup l f : NoDup (map path l) -> In f l -> file_at (path f) l = Some f.
Proof.
  intros Hnd Hin. unfold file_at.
  change (fun f0 => String.eqb (path f0) (path f)) with (has_path (path f)).
  rewrite find_rev_NoDup by exact Hnd.
  induction l as [|g l IH]; [destruct Hin|]. cbn [List.find].
  cbn [map] in Hnd. apply NoDup_cons in Hnd as [Hg Hl]. rewrite list_elem_of_In in Hg.
  unfold has_path at 1.
  destruct Hin as [->|Hin]; [now rewrite String.eqb_refl|].
  destruct (String.eqb_spec (path g) (path f)) as [E|E].
  - exfalso. apply Hg. rewrite E. now apply in_map.
  - now apply IH.
Qed.

(** New files whose paths the list holds overwrite in place: each entry
    becomes the last new file of its path, if there is one. *)
Lemma fold_put_present new : forall m,
  NoDup (map path m) ->
  (forall f, In f new -> In (path f) (map path m)) ->
  fold_left (fun m f => put f m) new m
  = map (fun g => match file_at (path g) new with Some f => f | None => g end) m.
Proof.
  induction new as [|f new IH] using rev_ind; intros m Hnd Hin.
  - cbn [fold_left]. now rewrite List.map_id.
  - rewrite fold_left_app. cbn [fold_left].
    rewrite IH; [|exact Hnd|intros g Hg; apply Hin, in_or_app; now left].
    assert (Hp : map path (map (fun g => match file_at (path g) new with
                                         | Some f0 => f0 | None => g end) m)
                 = map path m).
    { rewrite List.map_map. apply List.map_ext. intros g.
      destruct (file_at (path g) new) eqn:E; [|reflexivity].
      now apply file_at_path in E. }
    rewrite put_present.
    + rewrite List.map_map. apply List.map_ext. intros g. rewrite file_at_snoc.
      destruct (file_at (path g) new) as [h|] eqn:E.
      * apply file_at_path in E. rewrite E.
        rewrite (String.eqb_sym (path f)). now destruct (String.eqb (path g) (path f)).
      * rewrite (String.eqb_sym (path f)). now destruct (String.eqb (path g) (path f)).
    + rewrite Hp. apply Hin, in_or_app. right. now left.
    + now rewrite Hp.
Qed.

Lemma merge_files_holds e n f : In f n -> In (path f) (map path (merge_files e n)).
Proof.
  intros Hf. destruct (file_at (path f) (merge_files e n)) as [g|] eqn:E.
  - unfold file_at in E. apply find_some in E as [Hg Hp].
    apply String.eqb_eq in Hp. rewrite <- Hp. apply in_map. now apply in_rev.
  - rewrite merge_files_at in E.
    destruct (file_at (path f) n) eqn:En; [discriminate|].
    apply file_at_None in En. exfalso. apply En. now apply in_map.
Qed.

(** Merging the same new files a second time changes nothing. *)
Lemma merge_files_again e n : merge_files (merge_files e n) n = merge_files e n.
Proof.
  unfold merge_files at 1. rewrite fold_left_app.
  rewrite (fold_put_NoDup (merge_files e n) []) by apply merge_files_NoDup.
  cbn [app]. rewrite fold_put_present.
  - rewrite <- (List.map_id (merge_files e n)) at 2. apply map_ext_in. intros g Hg.
    destruct (file_at (path g) n) as [f|] eqn:E; [|reflexivity].
    pose proof (file_at_NoDup _ g (merge_files_NoDup e n) Hg) as Hm.
    rewrite merge_files_at, E in Hm. congruence.
  - apply merge_files_NoDup.
  - intros f Hf. now apply merge_files_holds.
Qed.

Lemma add_name_present q s : In q s -> add_name q s = s.
Proof.
  induction s as [|x s IH]; cbn [In add_name]; [intros []|].
  destruct (String.eqb_spec x q) as [E|E]; [reflexivity|].
  intros [H|H]; [contradiction|]. f_equal. now apply IH.
Qed.

Lemma add_name_fresh q s : ~ In q s -> add_name q s = s ++ [q].
Proof.
  induction s as [|x s IH]; cbn [In add_name]; [reflexivity|].
  intros H. destruct (String.eqb_spec x q) as [E|E]; [tauto|].
  cbn [app]. f_equal. apply IH. tauto.
Qed.

Lemma fold_add_name_NoDup l : forall acc,
  NoDup (acc ++ l) -> fold_left (fun s q => add_name q s) l acc = acc ++ l.
Proof.
  induction l as [|q l IH]; intros acc H; cbn [fold_left].
  - now rewrite app_nil_r.
  - assert (E : acc ++ q :: l = (acc ++ [q]) ++ l) by now rewrite <- app_assoc.
    rewrite E in H |- *. rewrite add_name_fresh.
    + now apply IH.
    + apply NoDup_app in H as (H & _ & _). apply NoDup_app in H as (_ & H & _).
      intros Hin. apply list_elem_of_In in Hin. apply (H _ Hin). now left.
Qed.

Lemma fold_add_name_present l : forall s,
  (forall q, In q l -> In q s) -> fold_left (fun s q => add_name q s) l s = s.
Proof.
  induction l as [|q l IH]; intros s H; cbn [fold_left]; [reflexivity|].
  rewrite add_name_present by (apply H; now left).
  apply IH. intros x Hx. apply H. now right.
Qed.

Lemma union_names_again o n : union_names (union_names o n) n = union_names o n.
Proof.
  destruct (union_names_spec o n) as [Hin Hnd].
  unfold union_names at 1. rewrite fold_left_app.
  rewrite (fold_add_name_NoDup (union_names o n) []) by exact Hnd.
  cbn [app]. apply fold_add_name_present. intros q Hq. apply Hin. now right.
Qed.

Lemma merged_again now1 now2 s nf np :
  merged now2 (merged now1 s nf np) nf np = merged now2 s nf np.
Proof.
  unfold merged. cbn [files packages projectName sandboxId].
  now rewrite merge_files_again, union_names_again.
Qed.

End PersistenceMore.

(* ===================================================================== *)
(** * Merging into any stored snapshot *)
(* ===================================================================== *)

Section MergeFacts.
Import Str JSON JS Storage ProjectPersistence Spec.





Lemma holds_object doc fs ps : holds doc fs ps -> exists l, doc = JObj l.
Proof.
  intros [H _]. apply files_array_object. now rewrite H.
Qed.

Lemma holds_truthy now doc fs ps : holds doc fs ps -> starts_from now doc = doc.
Proof.
  intros H. destruct (holds_object _ _ _ H) as [l ->]. reflexivity.
Qed.








(** On a typed snapshot the merged document is the typed snapshot with
    its files and packages merged. *)
Lemma holds_typed now s : holds (starts_from now (state_json s)) (files s) (packages s).
Proof. split; reflexivity. Qed.

Lemma merged_doc_typed now s nf np :
  merged_doc now (starts_from now (state_json s))
    (merge_files (files s) nf) (union_names (packages s) np)
  = state_json (merged now s nf np).
Proof.
  unfold merged_doc, starts_from, state_json, merged.
  cbn [files packages lastSaved projectName sandboxId truthy spread].
  destruct (sandboxId s); reflexivity.
Qed.

(** ** [saveFiles] on any stored snapshot, or on none *)



End MergeFacts.

(* ===================================================================== *)
(** * Patterns made of literal texts *)
(* ===================================================================== *)

Section LiteralPatterns.
Import Str Regex.

(** A literal pattern is found exactly where [includes] finds its text. *)
Lemma exec_from_lit p s : forall pos,
  exec_from (lit p) pos s = None <-> includes s p = false.
Proof.
  induction s as [|x s IH]; intros pos; cbn [exec_from includes]; rewrite run_lit;
    unfold startsWith; destruct (strip_prefix p _); cbn [orb];
    try (split; [discriminate|discriminate]); try tauto.
  apply IH.
Qed.

Lemma test_lit p s : test (lit p) s = includes s p.
Proof.
  unfold test, exec. destruct (exec_from (lit p) 0 s) eqn:E.
  - destruct (includes s p) eqn:I; [reflexivity|].
    apply (proj2 (exec_from_lit p s 0)) in I. rewrite I in E. discriminate.
  - symmetry. now apply (proj1 (exec_from_lit p s 0)).
Qed.

(** An alternative is found where one of its branches is. *)
Lemma exec_from_or a b s : forall pos,
  exec_from (Or a b) pos s = None <->
  exec_from a pos s = None /\ exec_from b pos s = None.
Proof.
  induction s as [|x s IH]; intros pos; cbn [exec_from run].
  - destruct (run a _ _ _ _ _) as [[]|]; [split; [discriminate|intros [? _]; discriminate]|].
    destruct (run b _ _ _ _ _) as [[]|]; [split; [discriminate|intros [_ ?]; discriminate]|].
    tauto.
  - destruct (run a _ _ _ _ _) as [[]|].
    + split; [discriminate|intros [? _]; discriminate].
    + destruct (run b _ _ _ _ _) as [[]|].
      * split; [discriminate|intros [_ ?]; discriminate].
      * apply IH.
Qed.

Lemma test_or a b s : test (Or a b) s = test a s || test b s.
Proof.
  unfold test, exec. pose proof (exec_from_or a b s 0) as H.
  destruct (exec_from (Or a b) 0 s), (exec_from a 0 s), (exec_from b 0 s);
    try reflexivity; exfalso; intuition congruence.
Qed.

End LiteralPatterns.

(* ===================================================================== *)
(** * The name between quotes *)
(* ===================================================================== *)

Section QuotedName.
Import Str Regex ErrorMonitor.

Lemma none_of_quotes x : negb (existsb (Ascii.eqb x) [apostrophe; dquote]) = negb (is_quote x).
Proof. unfold is_quote. cbn [existsb]. now rewrite orb_false_r. Qed.

(** The greedy run of characters that are no quotes, followed by a
    quote: what the loop of the star returns. *)
Lemma quote_free_run fuel b c0 : forall n pos s e caps,
  (fix loop (n : nat) (pos : nat) (s : string) (c : captures) {struct n} :=
     match n with
     | O =>
         run (Chr (fun x => Ascii.eqb x apostrophe || Ascii.eqb x dquote)) fuel pos s
             ((1, (b, pos)) :: c) (fun pos' _ c' => Some (pos', c'))
     | S n' =>
         match run (none_of [apostrophe; dquote]) fuel pos s c
                 (fun pos' s' c' => if pos <? pos' then loop n' pos' s' c' else None) with
         | Some m => Some m
         | None =>
             run (Chr (fun x => Ascii.eqb x apostrophe || Ascii.eqb x dquote)) fuel pos s
                 ((1, (b, pos)) :: c) (fun pos' _ c' => Some (pos', c'))
         end
     end) n pos s c0 = Some (e, caps) ->
  exists g y rest,
    s = g +:+ String y rest /\ quote_free g = true /\ is_quote y = true /\
    e = S (pos + String.length g) /\ caps = (1, (b, pos + String.length g)) :: c0.
Proof.
  assert (Hstop : forall pos s e caps,
            run (Chr (fun x => Ascii.eqb x apostrophe || Ascii.eqb x dquote)) fuel pos s
                ((1, (b, pos)) :: c0) (fun pos' _ c' => Some (pos', c')) = Some (e, caps) ->
            exists g y rest,
              s = g +:+ String y rest /\ quote_free g = true /\ is_quote y = true /\
              e = S (pos + String.length g) /\ caps = (1, (b, pos + String.length g)) :: c0).
  { intros pos s e caps. cbn [run]. destruct s as [|y rest]; [discriminate|].
    destruct (Ascii.eqb y apostrophe || Ascii.eqb y dquote) eqn:Q; [|discriminate].
    intros [= <- <-]. exists "", y, rest. cbn [String.length]. rewrite Nat.add_0_r.
    repeat split. exact Q. }
  induction n as [|n IH]; intros pos s e caps; [apply Hstop|].
  unfold none_of. cbn [run]. destruct s as [|x s'].
  - cbn [run]. discriminate.
  - rewrite none_of_quotes. destruct (is_quote x) eqn:Q; cbn [negb].
    + apply (Hstop pos (String x s') e caps).
    + assert (L : (pos <? S pos) = true) by (apply Nat.ltb_lt; lia). rewrite L.
      match goal with
      | |- context [match ?t with Some m => Some m | None => _ end] => destruct t as [m|] eqn:E
      end.
      * intros [= ->]. destruct (IH _ _ _ _ E) as (g & y & rest & -> & Hg & Hy & -> & ->).
        exists (String x g), y, rest. rewrite append_cons. cbn [String.length quote_free].
        rewrite Q, Hg. cbn [negb andb]. rewrite !Nat.add_succ_r. repeat split. exact Hy.
      * cbn [run]. unfold is_quote in Q. rewrite Q. discriminate.
Qed.


Lemma run_quoted_name fuel pos s e caps :
  run quoted_name fuel pos s [] (fun pos' _ c' => Some (pos', c')) = Some (e, caps) ->
  exists q name y rest,
    s = String q (name +:+ String y rest) /\
    is_quote q = true /\ name <> "" /\ quote_free name = true /\ is_quote y = true /\
    caps = [(1, (S pos, S pos + String.length name))].
Proof.
  unfold quoted_name. cbn [seq]. unfold plus. cbn [run].
  destruct s as [|q s1]; [discriminate|].
  destruct (Ascii.eqb q apostrophe || Ascii.eqb q dquote) eqn:Q; [|discriminate].
  unfold none_of at 1. cbn [run]. destruct s1 as [|x s2]; [discriminate|].
  rewrite none_of_quotes. destruct (is_quote x) eqn:Qx; cbn [negb]; [discriminate|].
  intros H.
  destruct (quote_free_run fuel (S pos) [] fuel (S (S pos)) s2 e caps H)
    as (g & y & rest & -> & Hg & Hy & _ & ->).
  exists q, (String x g), y, rest. rewrite append_cons. cbn [String.length quote_free].
  rewrite Qx, Hg. cbn [negb andb]. rewrite Nat.add_succ_r.
  repeat split; try assumption. discriminate.
Qed.

(** What the rule for missing modules takes as the name of the module. *)
Lemma group_quoted_name error g :
  match exec quoted_name error with
  | Some m => group 1 error m
  | None => None
  end = Some g ->
  exists pre q y rest,
    error = pre +:+ String q (g +:+ String y rest) /\
    is_quote q = true /\ g <> "" /\ quote_free g = true /\ is_quote y = true.
Proof.
  unfold exec. destruct (exec_from quoted_name 0 error) as [[[b e] c]|] eqn:E; [|discriminate].
  destruct (exec_from_found _ _ _ _ _ _ E) as (pre & s' & -> & -> & Hr).
  destruct (run_quoted_name _ _ _ _ _ Hr) as (q & name & y & rest & -> & Hq & Hn & Hf & Hy & ->).
  unfold group. cbn [snd List.find fst Nat.eqb Nat.add]. intros H.
  replace (S (String.length pre + String.length name) - S (String.length pre))
    with (String.length name) in H by lia.
  assert (Hs : substring (S (String.length pre)) (String.length name)
                 (pre +:+ String q (name +:+ String y rest)) = name).
  { replace (pre +:+ String q (name +:+ String y rest))
      with ((pre +:+ String q "") +:+ name +:+ String y rest)
      by (now rewrite append_assoc', append_cons, append_nil_l).
    replace (S (String.length pre)) with (String.length (pre +:+ String q ""))
      by (rewrite length_append; cbn [String.length]; lia).
    apply substring_mid. }
  rewrite Hs in H. injection H as <-.
  exists pre, q, y, rest. repeat split; assumption.
Qed.

End QuotedName.

(* ===================================================================== *)
(** * What a branch of the auto-fix route writes *)
(* ===================================================================== *)

Section AutoFixMore.
Import Str Regex ErrorMonitor AutoFixRoute Spec.

(** ** The frame of a branch *)

Lemma readFile_writeFile p c sv : readFile p (writeFile p c sv) = Some c.
Proof. unfold readFile, writeFile. cbn [disk]. apply lookup_insert_eq. Qed.

Lemma branch_frame file msg patch sv :
  cwd (snd (branch file msg patch sv)) = cwd sv /\
  dom (disk (snd (branch file msg patch sv))) = dom (disk sv) /\
  (forall p, p <> join_path (cwd sv) file ->
             readFile p (snd (branch file msg patch sv)) = readFile p sv) /\
  (readFile (join_path (cwd sv) file) sv = None ->
   snd (branch file msg patch sv) = sv /\ success (fst (branch file msg patch sv)) = false).
Proof.
  unfold branch. destruct (readFile (join_path (cwd sv) file) sv) as [c|] eqn:Hr.
  - cbn [fst snd]. destruct (patch c) as [c'|].
    + cbn [writeFile cwd disk]. repeat split.
      * apply set_eq. intros p. rewrite dom_insert, elem_of_union, elem_of_singleton.
        split; [intros [->|H]; [|exact H] | now right].
        apply elem_of_dom. exists c. exact Hr.
      * intros p Hp. unfold readFile. cbn [disk]. now apply lookup_insert_ne.
      * discriminate.
      * discriminate.
    + repeat split; discriminate.
  - unfold enoent. cbn [fst snd failed success]. repeat split.
Qed.


(** ** Replacing every occurrence of a literal text *)

Lemma replace_all_lit_found p repl s m :
  includes repl m = true -> includes s p = true ->
  includes (replace_all (lit p) repl s) m = true.
Proof.
  intros Hm Hs. unfold replace_all. cbn [replace_all_from].
  destruct (exec_from (lit p) 0 s) as [[[b e] c]|] eqn:E.
  - destruct (e =? b).
    + destruct (substring _ _ s).
      * now apply includes_app_r.
      * now apply includes_mid.
    + now apply includes_mid.
  - apply exec_from_lit in E. congruence.
Qed.

Lemma replace_all_lit_absent p repl s :
  includes s p = false -> replace_all (lit p) repl s = s.
Proof.
  intros Hs. unfold replace_all. cbn [replace_all_from].
  now rewrite (proj2 (exec_from_lit p s 0) Hs).
Qed.

(** ** The pattern of the hydration branch *)

Lemma run_body_tag fuel pos s :
  run body_tag fuel pos s [] (fun pos' _ c => Some (pos', c)) =
  match strip_prefix "<body className={inter" s with
  | Some (String x r) =>
      if negb (Ascii.eqb x LF || Ascii.eqb x CR) then
        match strip_prefix "className}>" r with
        | Some _ => Some (pos + 34, [])
        | None => None
        end
      else None
  | _ => None
  end.
Proof.
  unfold body_tag. cbn [seq]. cbn [run]. rewrite run_lit.
  destruct (strip_prefix "<body className={inter" s) as [[|x r]|]; try reflexivity.
  unfold dot. cbn [run]. destruct (negb _); [|reflexivity].
  rewrite run_lit. destruct (strip_prefix "className}>" r); [|reflexivity].
  f_equal. f_equal. cbn [String.length]. lia.
Qed.

Lemma exec_from_body_tag s : forall pos b e c,
  exec_from body_tag pos s = Some (b, e, c) ->
  exists a x z,
    s = a +:+ ("<body className={inter" +:+ String x "className}>") +:+ z /\
    b = pos + String.length a /\
    e = b + String.length ("<body className={inter" +:+ String x "className}>").
Proof.
  induction s as [|y s IH]; intros pos b e c; cbn [exec_from]; rewrite run_body_tag.
  - cbn. discriminate.
  - destruct (strip_prefix "<body className={inter" (String y s)) as [[|x r]|] eqn:E1.
    + intros H. destruct (IH _ _ _ _ H) as (a & x & z & -> & -> & ->).
      exists (String y a), x, z. rewrite append_cons. cbn [String.length].
      repeat split; lia.
    + destruct (negb (Ascii.eqb x LF || Ascii.eqb x CR)).
      * destruct (strip_prefix "className}>" r) as [z|] eqn:E2.
        -- intros [= <- <- <-]. exists "", x, z.
           apply strip_prefix_split in E1, E2. rewrite E1, E2.
           rewrite append_nil_l. split; [|split; [cbn [String.length]; lia|reflexivity]].
           repeat (rewrite append_assoc' || rewrite append_cons || rewrite append_nil_l).
           reflexivity.
        -- intros H. destruct (IH _ _ _ _ H) as (a & x' & z & -> & -> & ->).
           exists (String y a), x', z. rewrite append_cons. cbn [String.length].
           repeat split; lia.
      * intros H. destruct (IH _ _ _ _ H) as (a & x' & z & -> & -> & ->).
        exists (String y a), x', z. rewrite append_cons. cbn [String.length].
        repeat split; lia.
    + intros H. destruct (IH _ _ _ _ H) as (a & x & z & -> & -> & ->).
      exists (String y a), x, z. rewrite append_cons. cbn [String.length].
      repeat split; lia.
Qed.

(** ** The two patterns of the CSS branch on a fenced text *)

Lemma replace_open_fenced rest : replace css_open "" (fence_open +:+ rest) = rest.
Proof.
  unfold replace, exec. change css_open with (Seq Bol (lit fence_open)).
  assert (E : exec_from (Seq Bol (lit fence_open)) 0 (fence_open +:+ rest)
              = Some (0, String.length fence_open, [])).
  { destruct (fence_open +:+ rest) as [|x s] eqn:Es.
    - discriminate Es.
    - cbn [exec_from run Nat.eqb]. rewrite run_lit, <- Es, strip_prefix_append. reflexivity. }
  rewrite E. cbn [substring]. rewrite append_nil_l.
  replace (String.length (fence_open +:+ rest) - String.length fence_open)
    with (String.length rest) by (rewrite length_append; lia).
  replace (substring 0 0 (fence_open +:+ rest)) with "" by (now destruct (fence_open +:+ rest)).
  rewrite append_nil_l. apply substring_tail.
Qed.

Lemma exec_from_close_fenced body : forall pos,
  exec_from (Seq (lit fence_close) Eol) pos (body +:+ fence_close)
  = Some (pos + String.length body, pos + String.length body + String.length fence_close, []).
Proof.
  induction body as [|x body IH]; intros pos.
  - rewrite append_nil_l. cbn. rewrite !Nat.add_0_r.
    now replace (pos + 4) with (S (S (S (S pos)))) by lia.
  - rewrite append_cons. cbn [exec_from run]. rewrite run_lit.
    destruct (strip_prefix fence_close (String x (body +:+ fence_close))) as [[|y r]|] eqn:E.
    + apply strip_prefix_all in E. apply (f_equal String.length) in E.
      cbn [String.length] in E. rewrite length_append in E. cbn [String.length] in E. exfalso. revert E. generalize (String.length body) (String.length fence_close). intros; lia.
    + rewrite IH. cbn [String.length]. now rewrite !Nat.add_succ_comm.
    + rewrite IH. cbn [String.length]. now rewrite !Nat.add_succ_comm.
Qed.

Lemma replace_close_fenced body : replace css_close "" (body +:+ fence_close) = body.
Proof.
  unfold replace, exec. change css_close with (Seq (lit fence_close) Eol).
  rewrite exec_from_close_fenced. cbn [Nat.add].
  rewrite substring_head, append_nil_l, length_append.
  replace (String.length body + String.length fence_close
           - (String.length body + String.length fence_close)) with 0 by lia.
  replace (substring _ 0 _) with "".
  - apply append_nil_r.
  - generalize (String.length body + String.length fence_close).
    generalize (body +:+ fence_close). intros s. induction s as [|y s IH]; intros [|n]; cbn; auto.
Qed.

Lemma strip_fence_fenced body : strip_fence (fence_open +:+ body +:+ fence_close) = body.
Proof. unfold strip_fence. now rewrite replace_open_fenced, replace_close_fenced. Qed.

End AutoFixMore.

(* ===================================================================== *)
(** * One layer of the fence at a time *)
(* ===================================================================== *)

Section FenceFacts.
Import Str Regex ErrorMonitor AutoFixRoute Spec.

Lemma strip_suffix_split m s b : strip_suffix m s = Some b -> s = b +:+ m.
Proof.
  revert b. induction s as [|x s IH]; intros b; cbn [strip_suffix].
  - destruct (String.eqb_spec "" m) as [<-|]; [|discriminate]. now intros [= <-].
  - destruct (String.eqb_spec (String x s) m) as [<-|].
    + intros [= <-]. now rewrite append_nil_l.
    + destruct (strip_suffix m s) as [b'|]; [|discriminate].
      intros [= <-]. rewrite append_cons. f_equal. now apply IH.
Qed.

Lemma strip_suffix_endsWith m s :
  endsWith s m = match strip_suffix m s with Some _ => true | None => false end.
Proof.
  induction s as [|x s IH]; cbn [endsWith strip_suffix].
  - destruct (String.eqb "" m); reflexivity.
  - destruct (String.eqb (String x s) m); [reflexivity|]. cbn [orb].
    rewrite IH. now destruct (strip_suffix m s).
Qed.

Lemma replace_open_is c : replace css_open "" c = without_open c.
Proof.
  unfold without_open. destruct (strip_prefix fence_open c) as [rest|] eqn:E.
  - apply strip_prefix_split in E. subst c. apply replace_open_fenced.
  - apply replace_open_unfenced. unfold startsWith. now rewrite E.
Qed.

Lemma replace_close_is c : replace css_close "" c = without_close c.
Proof.
  unfold without_close. destruct (strip_suffix fence_close c) as [body|] eqn:E.
  - apply strip_suffix_split in E. subst c. apply replace_close_fenced.
  - apply replace_close_unfenced. rewrite strip_suffix_endsWith. now rewrite E.
Qed.

Lemma strip_fence_is c : strip_fence c = one_layer_less c.
Proof. unfold strip_fence, one_layer_less. now rewrite replace_open_is, replace_close_is. Qed.

Lemma without_open_length c :
  String.length (without_open c) <= String.length c /\
  (startsWith c fence_open = true -> String.length (without_open c) < String.length c).
Proof.
  unfold without_open, startsWith.
  destruct (strip_prefix fence_open c) as [rest|] eqn:E; [|split; [lia|discriminate]].
  apply strip_prefix_split in E. subst c. rewrite length_append.
  change (String.length fence_open) with 7. split; intros; lia.
Qed.

Lemma without_close_length c :
  String.length (without_close c) <= String.length c /\
  (endsWith c fence_close = true -> String.length (without_close c) < String.length c).
Proof.
  rewrite strip_suffix_endsWith. unfold without_close.
  destruct (strip_suffix fence_close c) as [body|] eqn:E; [|split; [lia|discriminate]].
  apply strip_suffix_split in E. subst c. rewrite length_append.
  change (String.length fence_close) with 4. split; intros; lia.
Qed.

(** Stripping changes nothing exactly when there is no fence. *)
Lemma one_layer_less_fixed c : one_layer_less c = c <-> unfenced c = true.
Proof.
  split.
  - intros H. apply (f_equal String.length) in H. unfold one_layer_less in H.
    unfold unfenced.
    destruct (without_open_length c) as [Ho Ho'].
    destruct (without_close_length (without_open c)) as [Hc Hc'].
    destruct (startsWith c fence_open) eqn:E1; [specialize (Ho' eq_refl); lia|].
    cbn [negb andb].
    assert (Hw : without_open c = c).
    { unfold without_open. unfold startsWith in E1.
      now destruct (strip_prefix fence_open c). }
    rewrite Hw in *.
    destruct (endsWith c fence_close); [specialize (Hc' eq_refl); lia|reflexivity].
  - intros H. rewrite <- strip_fence_is. now apply strip_fence_unfenced.
Qed.

(** The CSS branch of the route. *)
Lemma POST_css plan sv content :
  is_css_plan plan = true -> target plan sv = Some content ->
  POST plan sv
  = (succeeded "CSS markdown syntax removed",
     writeFile (join_path (cwd sv) (file plan)) (one_layer_less content) sv).
Proof.
  intros Hc Ht. unfold target in Ht.
  destruct (POST_branches plan) as [(Hc' & _) | [(_ & HP) | (Hc' & _)]]; try congruence.
  rewrite HP. unfold branch. now rewrite Ht, strip_fence_is.
Qed.

Lemma writeFile_same p c c' sv :
  readFile p sv = Some c -> (writeFile p c' sv = sv <-> c' = c).
Proof.
  intros Hr. split.
  - intros H. apply (f_equal (readFile p)) in H.
    unfold readFile at 1, writeFile in H. cbn [disk] in H.
    rewrite lookup_insert_eq in H. congruence.
  - intros ->. destruct sv as [d m]. unfold writeFile, readFile in *. cbn [cwd disk] in *.
    f_equal. now apply insert_id.
Qed.

Theorem POST_css_twice plan sv :
  is_css_plan plan = true ->
  (forall content, target plan sv = Some content ->
     target plan (snd (POST plan sv)) = Some (one_layer_less content)) /\
  (forall once, target plan (snd (POST plan sv)) = Some once ->
     (snd (POST plan (snd (POST plan sv))) = snd (POST plan sv) <-> unfenced once = true)).
Proof.
  intros Hc. split.
  - intros content Ht. rewrite (POST_css plan sv content Hc Ht). cbn [snd].
    unfold target. cbn [cwd writeFile]. unfold readFile, writeFile. cbn [disk].
    apply lookup_insert_eq.
  - intros once Ht.
    rewrite (POST_css plan (snd (POST plan sv)) once Hc Ht). cbn [snd].
    rewrite (writeFile_same _ once _ _ Ht). apply one_layer_less_fixed.
Qed.

(** [exec_from] returns the first position at which the pattern matches. *)
Lemma exec_from_first r s : forall pos b e c,
  exec_from r pos s = Some (b, e, c) ->
  forall pre s', s = pre +:+ s' ->
    run r (S (String.length s')) (pos + String.length pre) s' []
        (fun pos' _ c' => Some (pos', c')) <> None ->
    b <= pos + String.length pre.
Proof.
  induction s as [|x s IH]; intros pos b e c H pre s' Hs Hrun; cbn [exec_from] in H.
  - destruct (run r _ pos "" [] _) as [[e' c']|] eqn:E; [|discriminate].
    injection H as <- _ _. lia.
  - destruct (run r _ pos (String x s) [] _) as [[e' c']|] eqn:E.
    + injection H as <- _ _. lia.
    + destruct pre as [|y pre].
      * rewrite append_nil_l in Hs. subst s'. cbn [String.length Nat.add] in Hrun.
        rewrite Nat.add_0_r in Hrun. cbn [String.length] in E. contradiction.
      * rewrite append_cons in Hs. injection Hs as _ Hs.
        specialize (IH _ _ _ _ H pre s' Hs). cbn [String.length].
        rewrite <- Nat.add_succ_comm. apply IH.
        rewrite Nat.add_succ_comm. exact Hrun.
Qed.

Lemma body_tag_first content b e c a' x' z' :
  exec body_tag content = Some (b, e, c) ->
  content = a' +:+ ("<body className={inter" +:+ String x' "className}>") +:+ z' ->
  Ascii.eqb x' LF || Ascii.eqb x' CR = false ->
  b <= String.length a'.
Proof.
  intros H Hc Hx.
  apply (exec_from_first body_tag content 0 b e c H a' _ Hc).
  rewrite run_body_tag.
  rewrite append_assoc', strip_prefix_append. rewrite append_cons. rewrite Hx.
  cbn [negb]. rewrite strip_prefix_append. discriminate.
Qed.

End FenceFacts.

(* ===================================================================== *)
(** * The clock of the sandbox warning *)
(* ===================================================================== *)

Section ClockFacts.
Import Str Storage JS SandboxWarning SandboxBanner.

Lemma read_radix_digits u : forall a,
  read_radix 10 (NilEmpty.string_of_uint u) (Some a) = Some (digits_value u a).
Proof.
  induction u; intros a; cbn [NilEmpty.string_of_uint digits_value];
    [reflexivity | ..]; cbn [read_radix]; exact (IHu _).
Qed.

Lemma of_uint_acc_value u : forall p,
  Z.pos (Pos.of_uint_acc u p) = digits_value u (Z.pos p).
Proof.
  induction u; intros p; cbn [Pos.of_uint_acc digits_value];
    [reflexivity | ..]; rewrite IHu; f_equal; lia.
Qed.

Lemma of_uint_value u : Z.of_N (Pos.of_uint u) = digits_value u 0.
Proof.
  induction u; cbn [Pos.of_uint digits_value]; [reflexivity | exact IHu | ..];
    cbn [Z.of_N]; apply of_uint_acc_value.
Qed.


(** [parseInt] on a text that starts with a decimal digit reads the run
    of digits, unless the text starts with [0x]. *)
Lemma parseInt_digit c rest :
  (match digit_value c with Some d => (d <? 10)%Z | None => false end) = true ->
  (Ascii.eqb c "0" && match rest with
                      | String x _ => Ascii.eqb x "x" || Ascii.eqb x "X"
                      | EmptyString => false
                      end) = false ->
  parseInt (String c rest)
  = match read_radix 10 (String c rest) None with Some z => Num z | None => NaN end.
Proof.
  destruct c as [[] [] [] [] [] [] [] []]; intros H; try discriminate H; intros H0;
    try reflexivity.
  destruct rest as [|x r]; [reflexivity|].
  cbn [Ascii.eqb Bool.eqb andb] in H0. unfold parseInt.
  change (trim_start (String "0" (String x r))) with (String "0" (String x r)).
  change (strip_prefix "-" (String "0" (String x r))) with (@None string).
  change (strip_prefix "+" (String "0" (String x r))) with (@None string).
  cbv beta iota.
  change (strip_prefix "0x" (String "0" (String x r)))
    with (if Ascii.eqb "x" x then Some r else None).
  change (strip_prefix "0X" (String "0" (String x r)))
    with (if Ascii.eqb "X" x then Some r else None).
  apply orb_false_iff in H0 as [H1 H2].
  rewrite (Ascii.eqb_sym "x"), (Ascii.eqb_sym "X"), H1, H2. reflexivity.
Qed.

Lemma read_radix_uint u :
  u <> Nil -> read_radix 10 (NilEmpty.string_of_uint u) None = Some (digits_value u 0).
Proof.
  destruct u; [congruence | ..]; intros _; cbn [NilEmpty.string_of_uint digits_value];
    exact (read_radix_digits u _).
Qed.

Lemma parseInt_uint u :
  u <> Nil -> parseInt (NilEmpty.string_of_uint u) = Num (digits_value u 0).
Proof.
  intros Hn.
  assert (Hx : forall l, match NilEmpty.string_of_uint l with
                         | String x _ => Ascii.eqb x "x" || Ascii.eqb x "X"
                         | EmptyString => false
                         end = false) by (intros []; reflexivity).
  pose proof (read_radix_uint u Hn) as Hr.
  destruct u; [congruence | ..]; cbn [NilEmpty.string_of_uint] in Hr |- *;
    (rewrite parseInt_digit;
     [now rewrite Hr | reflexivity | cbn [Ascii.eqb Bool.eqb andb]; try apply Hx; reflexivity]).
Qed.

(** A negative number: the sign, then the digits. *)
Lemma parseInt_minus c rest :
  (match digit_value c with Some d => (d <? 10)%Z | None => false end) = true ->
  Ascii.eqb c "0" = false ->
  parseInt (String "-" (String c rest))
  = match read_radix 10 (String c rest) None with Some z => Num (- z) | None => NaN end.
Proof.
  destruct c as [[] [] [] [] [] [] [] []]; intros H; try discriminate H; intros H0;
    try discriminate H0; reflexivity.
Qed.

Lemma to_uint_head p :
  exists c rest,
    NilEmpty.string_of_uint (Pos.to_uint p) = String c rest /\
    (match digit_value c with Some d => (d <? 10)%Z | None => false end) = true /\
    Ascii.eqb c "0" = false.
Proof.
  pose proof (to_uint_norm p) as Hu. pose proof (Unsigned.to_uint_nonnil p) as Hn.
  pose proof (Unsigned.of_to p) as Ho.
  destruct (Pos.to_uint p) as [|l|l|l|l|l|l|l|l|l|l]; [congruence | ..];
    cbn [NilEmpty.string_of_uint]; try (eexists _, _; repeat split; reflexivity).
  exfalso. cbn [unorm] in Hu.
  assert (Hz : forall l', unorm l' = D0 l -> l = Nil).
  { clear. intros l'. induction l'; cbn [unorm]; try discriminate; auto.
    intros [= <-]. reflexivity. }
  apply Hz in Hu. subst l. discriminate Ho.
Qed.

(** What [toString] prints of an integer, [parseInt] reads back. *)
Lemma parseInt_of_Z n : parseInt (of_Z n) = Num n.
Proof.
  unfold of_Z. destruct n as [|p|p]; cbn [Z.to_int NilZero.string_of_int].
  - reflexivity.
  - rewrite string_of_uint_nonnil by apply Unsigned.to_uint_nonnil.
    rewrite parseInt_uint by apply Unsigned.to_uint_nonnil.
    rewrite <- of_uint_value, Unsigned.of_to. reflexivity.
  - rewrite string_of_uint_nonnil by apply Unsigned.to_uint_nonnil.
    destruct (to_uint_head p) as (c & rest & E & H1 & H2).
    pose proof (read_radix_uint _ (Unsigned.to_uint_nonnil p)) as Hr.
    rewrite E in Hr |- *.
    rewrite parseInt_minus by assumption. rewrite Hr.
    rewrite <- of_uint_value, Unsigned.of_to. reflexivity.
Qed.

Lemma of_Z_nonempty n : String.eqb (of_Z n) "" = false.
Proof. destruct (of_Z_head n) as (c & s & -> & _). reflexivity. Qed.

End ClockFacts.

(* ===================================================================== *)
(** * The note of the banner *)
(* ===================================================================== *)

Section BannerFacts.
Import SandboxWarning SandboxBanner.

Lemma render_note backup v b : render backup v = Some b -> note b = backup.
Proof.
  unfold render. destruct (negb (showWarning v)); [discriminate|].
  destruct (timeRemaining v); [|discriminate]. now intros [= <-].
Qed.

End BannerFacts.

(* ===================================================================== *)
(** * Reading the answer of the apply endpoint *)
(* ===================================================================== *)

Section RestoreMore.
Import Str JSON JS RestoreRoute Spec.

Lemma read_stream_unbroken chunks : read_stream chunks false = Normal tt.
Proof.
  induction chunks as [|c chunks IH]; cbn [read_stream]; [reflexivity|].
  now destruct (existsb completes (split_lines c)).
Qed.

Lemma read_stream_broken chunks :
  read_stream chunks true = Normal tt <-> Exists (fun c => chunk_completes c = true) chunks.
Proof.
  unfold chunk_completes.
  induction chunks as [|c chunks IH]; cbn [read_stream].
  - split; [discriminate | intros H; inversion H].
  - destruct (existsb completes (split_lines c)) eqn:E.
    + split; [intros _; now left | reflexivity].
    + rewrite IH. split; [intros H; now right|].
      intros H. inversion H as [? ? H1|? ? H1]; subst; [congruence | exact H1].
Qed.




End RestoreMore.

(* ===================================================================== *)
(** * The status of the restore route *)
(* ===================================================================== *)

Section RestoreStatus.
Import Str JSON JS RestoreRoute Spec.

Lemma readable_valid text :
  readable text = true -> (parse text <> None <-> valid text = true).
Proof.
  unfold readable. intros H. split.
  - destruct (parse text) eqn:E; [intros _; now apply parse_valid in E | congruence].
  - intros Hv. rewrite Hv in H. cbn [negb orb] in H. now destruct (parse text).
Qed.



End RestoreStatus.

(* ===================================================================== *)
(** * The file explorer *)
(* ===================================================================== *)

Section ExplorerFacts.
Import Str FileExplorer.

Lemma loadNode_children name ty p children content lang contents :
  loadNode (Node name ty p (Some children) content lang) contents
  = loadFiles children
      (match content_to_load (Node name ty p (Some children) content lang) with
       | Some c => <[p := c]> contents
       | None => contents
       end).
Proof.
  unfold loadFiles. cbn [loadNode path_of].
  generalize (match content_to_load (Node name ty p (Some children) content lang) with
              | Some c => <[p := c]> contents
              | None => contents
              end).
  induction children as [|n l IH]; intros m.
  - reflexivity.
  - cbn [fold_left]. apply IH.
Qed.

Lemma nodes_of_children name ty p children content lang :
  nodes_of (Node name ty p (Some children) content lang)
  = Node name ty p (Some children) content lang :: all_nodes children.
Proof.
  reflexivity.
Qed.

(** Loading one node is loading the nodes under it, one after the other. *)
Definition loads_flat (node : FileNode) : Prop :=
  forall contents,
    loadNode node contents
    = fold_left (fun m n => match content_to_load n with
                            | Some c => <[path_of n := c]> m
                            | None => m
                            end) (nodes_of node) contents.


Lemma fold_load_app (l1 l2 : list FileNode) (m : gmap string string) :
  fold_left (fun m n => match content_to_load n with
                        | Some c => <[path_of n := c]> m
                        | None => m
                        end) (l1 ++ l2) m
  = fold_left (fun m n => match content_to_load n with
                          | Some c => <[path_of n := c]> m
                          | None => m
                          end) l2
      (fold_left (fun m n => match content_to_load n with
                             | Some c => <[path_of n := c]> m
                             | None => m
                             end) l1 m).
Proof. apply fold_left_app. Qed.

(** Induction on a tree, with its children. *)
Lemma FileNode_induction (P : FileNode -> Prop) :
  (forall name ty p content lang, P (Node name ty p None content lang)) ->
  (forall name ty p children content lang,
     Forall P children -> P (Node name ty p (Some children) content lang)) ->
  forall node, P node.
Proof.
  intros H0 H1.
  fix IH 1. intros [name ty p [children|] content lang]; [|apply H0].
  apply H1. induction children as [|n l IHl]; constructor; [apply IH | exact IHl].
Qed.

Lemma loadNode_flat node : loads_flat node.
Proof.
  induction node as [name ty p content lang | name ty p children content lang IH]
    using FileNode_induction; intros contents.
  - reflexivity.
  - rewrite loadNode_children, nodes_of_children. cbn [fold_left path_of].
    generalize (match content_to_load (Node name ty p (Some children) content lang) with
                | Some c => <[p := c]> contents
                | None => contents
                end).
    unfold loadFiles, all_nodes.
    induction IH as [|n l Hn _ IHl]; intros m; [reflexivity|].
    cbn [fold_left flat_map]. rewrite fold_load_app, <- Hn. apply IHl.
Qed.

Lemma loadFiles_flat nodes : forall contents,
  loadFiles nodes contents
  = fold_left (fun m n => match content_to_load n with
                          | Some c => <[path_of n := c]> m
                          | None => m
                          end) (all_nodes nodes) contents.
Proof.
  unfold loadFiles, all_nodes.
  induction nodes as [|n l IH]; intros m; [reflexivity|].
  cbn [fold_left flat_map]. rewrite fold_load_app, <- (loadNode_flat n). apply IH.
Qed.

Lemma fold_load_lookup p l : forall m : gmap string string,
  fold_left (fun m n => match content_to_load n with
                        | Some c => <[path_of n := c]> m
                        | None => m
                        end) l m !! p
  = match loaded_at p l with
    | Some c => Some c
    | None => m !! p
    end.
Proof.
  induction l as [|n l IH]; intros m; [reflexivity|].
  cbn [fold_left loaded_at]. rewrite IH.
  destruct (loaded_at p l); [reflexivity|].
  destruct (content_to_load n) as [c|] eqn:E.
  - destruct (String.eqb_spec (path_of n) p) as [->|Hne].
    + apply lookup_insert_eq.
    + now apply lookup_insert_ne.
  - now destruct (String.eqb (path_of n) p).
Qed.


(** ** The extension of a file name *)

Lemma split_on_nonempty sep s : split_on sep s <> [].
Proof.
  destruct s as [|c s]; cbn [split_on]; [discriminate|].
  destruct (Ascii.eqb c sep); [discriminate|]. now destruct (split_on sep s).
Qed.

Lemma split_on_app sep a b :
  split_on sep (a +:+ String sep b) = split_on sep a ++ split_on sep b.
Proof.
  induction a as [|c a IH].
  - rewrite append_nil_l. cbn [split_on]. now rewrite Ascii.eqb_refl.
  - rewrite append_cons. cbn [split_on]. rewrite IH.
    destruct (Ascii.eqb c sep); [reflexivity|].
    pose proof (split_on_nonempty sep a) as Hn.
    destruct (split_on sep a); [congruence | reflexivity].
Qed.

Lemma split_on_dot_free ext : dot_free ext = true -> split_on "." ext = [ext].
Proof.
  induction ext as [|c ext IH]; cbn [dot_free split_on]; [reflexivity|].
  intros H. apply andb_true_iff in H as [H1 H2]. apply negb_true_iff in H1.
  now rewrite H1, IH.
Qed.

Lemma last_app_nonempty {A} (l1 l2 : list A) d : l2 <> [] -> List.last (l1 ++ l2) d = List.last l2 d.
Proof.
  intros H. induction l1 as [|x l1 IH]; [reflexivity|].
  cbn [app]. destruct (l1 ++ l2) eqn:E.
  - apply app_eq_nil in E as [_ E]. congruence.
  - rewrite <- IH. reflexivity.
Qed.

Lemma lower_char_dot c : Ascii.eqb (lower_char c) "." = Ascii.eqb c ".".
Proof. destruct c as [[] [] [] [] [] [] [] []]; reflexivity. Qed.

Lemma lower_char_twice c : lower_char (lower_char c) = lower_char c.
Proof. destruct c as [[] [] [] [] [] [] [] []]; reflexivity. Qed.

Lemma toLowerCase_twice s : toLowerCase (toLowerCase s) = toLowerCase s.
Proof.
  induction s as [|c s IH]; [reflexivity|]. cbn [toLowerCase]. now rewrite lower_char_twice, IH.
Qed.

Lemma split_on_lower s :
  split_on "." (toLowerCase s) = map toLowerCase (split_on "." s).
Proof.
  induction s as [|c s IH]; [reflexivity|].
  cbn [toLowerCase split_on]. rewrite lower_char_dot, IH.
  destruct (Ascii.eqb c "."); [reflexivity|].
  pose proof (split_on_nonempty "." s) as Hn.
  destruct (split_on "." s); [congruence | reflexivity].
Qed.

Lemma last_map {A B} (f : A -> B) l d : List.last (map f l) (f d) = f (List.last l d).
Proof.
  induction l as [|x l IH]; [reflexivity|].
  cbn [map]. destruct l; [reflexivity|]. exact IH.
Qed.

End ExplorerFacts.

(* ===================================================================== *)
(** * The seven passes of [sanitizeQuotes] *)
(* ===================================================================== *)

Section ScrapeFacts.
Import ScrapeRoute.

Lemma replace_class_app class by_ a b :
  replace_class class by_ (a ++ b) = replace_class class by_ a ++ replace_class class by_ b.
Proof. unfold replace_class. apply flat_map_app. Qed.

(** One code unit through the seven passes. *)
Lemma sanitize_unit u : sanitizeQuotes [u] = plain u.
Proof.
  unfold plain. cbn [existsb].
  repeat match goal with
         | |- context [N.eqb u ?k] =>
             let E := fresh "E" in
             destruct (N.eqb u k) eqn:E; [apply N.eqb_eq in E; subst u; reflexivity|]
         end.
  unfold sanitizeQuotes, replace_class.
  repeat (cbn [flat_map existsb app orb];
          rewrite ?E, ?E0, ?E1, ?E2, ?E3, ?E4, ?E5, ?E6, ?E7, ?E8, ?E9, ?E10, ?E11, ?E12,
                  ?E13, ?E14).
  reflexivity.
Qed.

Lemma sanitize_app a b : sanitizeQuotes (a ++ b) = sanitizeQuotes a ++ sanitizeQuotes b.
Proof. unfold sanitizeQuotes. now rewrite !replace_class_app. Qed.

(** The seven passes amount to one pass that maps each code unit. *)
Lemma sanitize_flat_map t : sanitizeQuotes t = flat_map plain t.
Proof.
  induction t as [|u t IH]; [reflexivity|].
  change (u :: t) with ([u] ++ t). rewrite sanitize_app, sanitize_unit, IH. reflexivity.
Qed.

Lemma plain_clean u : Forall (fun v => ~ In v typographic) (plain u).
Proof.
  unfold plain. cbn [existsb].
  repeat match goal with
         | |- context [N.eqb u ?k] =>
             destruct (N.eqb_spec u k);
             [cbn [orb]; repeat constructor; cbn; intuition discriminate|]
         end.
  cbn [orb]. repeat constructor. unfold typographic. cbn [In]. intuition congruence.
Qed.

Lemma plain_fixed u : ~ In u typographic -> plain u = [u].
Proof.
  unfold typographic, plain. cbn [In existsb]. intros H.
  repeat match goal with
         | |- context [N.eqb u ?k] =>
             destruct (N.eqb_spec u k); [exfalso; apply H; subst u; tauto|]
         end.
  reflexivity.
Qed.

End ScrapeFacts.

(* ===================================================================== *)
(** * The claims about project persistence *)
(* ===================================================================== *)

Section PersistenceClaims.
Import Str JSON JS Storage ProjectPersistence Spec Examples.






(** C3, as the code has it. [saveProject] returns normally whatever
    happens: a failed write is written on the console and nothing reaches
    the caller. When the write of the primary slot throws, both slots are as
    before. When the write of the primary slot succeeds and the write of the
    backup throws, the primary slot holds the new snapshot, the backup slot
    what it held before, and a load returns the new snapshot. *)
Theorem C3_save_failure_is_logged (now : string) (s : ProjectState) (w : world) :
  window w = true ->
  (setItem STORAGE_KEY (serialized now (state_json s)) (localStorage w) = None ->
   localStorage (saveProject now (state_json s) w) = localStorage w /\
   console (saveProject now (state_json s) w) = console w ++ [save_error]) /\
  (forall st1,
     setItem STORAGE_KEY (serialized now (state_json s)) (localStorage w) = Some st1 ->
     setItem BACKUP_KEY (serialized now (state_json s)) st1 = None ->
     getItem STORAGE_KEY (localStorage (saveProject now (state_json s) w))
     = Some (serialized now (state_json s)) /\
     getItem BACKUP_KEY (localStorage (saveProject now (state_json s) w))
     = getItem BACKUP_KEY (localStorage w) /\
     fst (loadProject (saveProject now (state_json s) w)) = state_json (refreshed now s) /\
     console (saveProject now (state_json s) w) = console w ++ [save_error]).
Proof.
  intros Hw. split.
  - intros H. now apply saveProject_primary_fails.
  - intros st1 H1 H2.
    destruct (saveProject_backup_fails now (state_json s) w st1 Hw H1 H2) as [Hs Hc].
    split; [|split; [|split]].
    + rewrite Hs. eapply getItem_setItem_eq; eassumption.
    + rewrite Hs. eapply getItem_setItem_ne; [apply keys_differ | eassumption].
    + eapply load_after_backup_failure; eassumption.
    + exact Hc.
Qed.

(** In a storage too full for even one copy of the larger snapshot, the
    save changes nothing and says so on the console only. *)
Lemma C3_full_storage :
  setItem STORAGE_KEY (serialized tuesday (state_json larger)) (localStorage full) = None /\
  localStorage (saveProject tuesday (state_json larger) full) = localStorage full /\
  console (saveProject tuesday (state_json larger) full) = console full ++ [save_error].
Proof.
  assert (H : setItem STORAGE_KEY (serialized tuesday (state_json larger))
                (localStorage full) = None) by (vm_compute; reflexivity).
  split; [exact H|].
  refine (proj1 (C3_save_failure_is_logged tuesday larger full _) H).
  vm_compute; reflexivity.
Defined.

(** C3 as stated fails: the storage has room for the larger snapshot once
    but not twice, the write of the backup throws, and a load after the
    failed save returns the new snapshot while the backup still holds the
    old one. *)
Lemma C3_partial_commit :
  writes_fit tuesday (state_json larger) (localStorage tight) = false /\
  fst (loadProject tight) = state_json (refreshed monday snapshot) /\
  fst (loadProject (saveProject tuesday (state_json larger) tight))
  = state_json (refreshed tuesday larger) /\
  getItem BACKUP_KEY (localStorage (saveProject tuesday (state_json larger) tight))
  = Some (serialized monday (state_json snapshot)).
Proof. repeat split; vm_compute; reflexivity. Qed.

(** C6. Round trip: in a browser whose storage has room for the two
    copies, a load right after [saveProject] of a snapshot returns that
    snapshot with the same files, packages, project name and sandbox id, and
    with the time of the save as its time stamp ([refreshed]). *)
Theorem C6_round_trip (now : string) (s : ProjectState) (w : world) :
  window w = true ->
  writes_fit now (state_json s) (localStorage w) = true ->
  fst (loadProject (saveProject now (state_json s) w)) = state_json (refreshed now s).
Proof. apply round_trip. Qed.

Lemma C6_example :
  fst (loadProject (saveProject tuesday (state_json snapshot) (browser 4000)))
  = state_json
      {| files := [text_file "a" "1"; text_file "b" "2"];
         packages := ["p"];
         lastSaved := tuesday;
         projectName := "demo";
         sandboxId := None |}.
Proof.
  refine (C6_round_trip tuesday snapshot (browser 4000) _ _); vm_compute; reflexivity.
Defined.

(** C7. Import validation. A text that is no JSON is rejected, and so is
    a document that holds no array under [files] (it is [null], it has no
    [files], or [files] is not an array); in both cases the storage is
    left as it was. A document that holds an array under [files] is
    accepted. When the text of the file cannot be read at all the import
    is rejected too. The empty document is of the rejected kind, the
    document with an empty [files] array of the accepted kind. The
    documents are those within the values of the model ([parse]). *)
Theorem C7_import_validation (now text : string) (w : world) :
  (valid text = false ->
   fst (importProject now (Some text) w) = false /\
   localStorage (snd (importProject now (Some text) w)) = localStorage w) /\
  (forall doc, parse text = Some doc -> isArray (get_prop "files" doc) = false ->
   fst (importProject now (Some text) w) = false /\
   localStorage (snd (importProject now (Some text) w)) = localStorage w) /\
  (forall doc, parse text = Some doc -> isArray (get_prop "files" doc) = true ->
   fst (importProject now (Some text) w) = true) /\
  (fst (importProject now None w) = false /\
   localStorage (snd (importProject now None w)) = localStorage w) /\
  (parse empty_document = Some (JObj []) /\
   parse files_document = Some (JObj [("files", JArr [])])).
Proof.
  split; [|split; [|split; [|split]]].
  - intros H. apply invalid_parse in H.
    rewrite importProject_rejects; [now split|].
    unfold has_files_array. now rewrite H.
  - intros doc Hp Ha.
    rewrite importProject_rejects; [now split|].
    unfold has_files_array. rewrite Hp. now destruct doc.
  - intros doc Hp Ha.
    rewrite (importProject_accepts now text w doc Hp); [reflexivity|].
    unfold has_files_array. rewrite Hp. destruct doc; exact Ha.
  - now split.
  - split; vm_compute; reflexivity.
Qed.

Lemma C7_example :
  fst (importProject tuesday (Some empty_document) stored) = false /\
  localStorage (snd (importProject tuesday (Some empty_document) stored))
  = localStorage stored /\
  fst (importProject tuesday (Some files_document) stored) = true /\
  fst (importProject tuesday (Some "{oops") stored) = false.
Proof.
  pose proof (C7_import_validation tuesday empty_document stored) as (_ & Hrej & _ & _ & He & _).
  pose proof (C7_import_validation tuesday files_document stored) as (_ & _ & Hacc & _ & _ & Hf).
  pose proof (C7_import_validation tuesday "{oops" stored) as (Hbad & _).
  destruct (Hrej _ He eq_refl) as [H1 H2].
  exact (conj H1 (conj H2 (conj (Hacc _ Hf eq_refl) (proj1 (Hbad eq_refl))))).
Defined.

(** C10. A successful import replaces the stored snapshot: in a browser
    whose storage has room, after [importProject] accepted a document, a
    load returns that document with a fresh time stamp, so exactly its
    files and its packages, and the paths that can be retrieved are those of
    the document and no other. *)
Theorem C10_import_replaces (now text : string) (doc : json) (w : world) :
  window w = true ->
  parse text = Some doc ->
  fst (importProject now (Some text) w) = true ->
  writes_fit now doc (localStorage w) = true ->
  fst (loadProject (snd (importProject now (Some text) w)))
  = JObj (obj_set "lastSaved" (JStr now) (spread doc)) /\
  get_prop "files" (fst (loadProject (snd (importProject now (Some text) w))))
  = get_prop "files" doc /\
  get_prop "packages" (fst (loadProject (snd (importProject now (Some text) w))))
  = get_prop "packages" doc /\
  paths_of (fst (loadProject (snd (importProject now (Some text) w)))) = paths_of doc.
Proof.
  intros Hw Hp Hacc Hfit.
  rewrite (load_after_import now text doc w Hw Hp Hacc Hfit).
  pose proof (importProject_true _ _ _ Hacc) as Hh.
  unfold has_files_array in Hh. rewrite Hp in Hh.
  assert (Ha : isArray (get_prop "files" doc) = true) by (destruct doc; congruence).
  destruct (files_array_object doc Ha) as [l ->].
  unfold paths_of. cbn [spread get_prop].
  rewrite !assoc_obj_set_ne by reflexivity. repeat split.
Qed.

(** On the example: the stored files a and b are gone after the import of
    a document without files. *)
Lemma C10_example :
  paths_of (fst (loadProject stored)) = [Some (JStr "a"); Some (JStr "b")] /\
  paths_of (fst (loadProject (snd (importProject tuesday (Some files_document) stored))))
  = [].
Proof.
  split; [vm_compute; reflexivity|].
  assert (Hp : parse files_document = Some (JObj [("files", JArr [])]))
    by (vm_compute; reflexivity).
  refine (eq_trans
            (proj2 (proj2 (proj2
               (C10_import_replaces tuesday files_document _ stored _ Hp _ _)))) _);
    vm_compute; reflexivity.
Defined.

End PersistenceClaims.

(* ===================================================================== *)
(** * The claim about the classifier *)
(* ===================================================================== *)

Section ClassifierClaims.
Import Str Regex ErrorMonitor Examples.

(** C4. [detectError] tries the rules in the order of their declaration and
    returns the first whose pattern matches: every rule declared before the
    one returned does not match, and when none is returned no rule matches
    and [getErrorType] answers unknown. It is a function of the message
    alone. An error that both the rule for missing modules and the later
    rule for syntax errors match is classified by the earlier one. *)
Theorem C4_first_matching_rule_wins (errorMessage : string) :
  match detectError errorMessage with
  | Some p =>
      (exists earlier later,
         errorPatterns = earlier ++ p :: later /\
         test (pattern p) errorMessage = true /\
         Forall (fun q => test (pattern q) errorMessage = false) earlier) /\
      getErrorType errorMessage = type_name (type p)
  | None =>
      Forall (fun q => test (pattern q) errorMessage = false) errorPatterns /\
      getErrorType errorMessage = "unknown"
  end /\
  getErrorType overlapping_error = "build" /\
  map (fun q => (type_name (type q), test (pattern q) overlapping_error)) errorPatterns
  = [("css", false); ("hydration", false); ("runtime", false); ("runtime", false);
     ("build", true); ("syntax", true)].
Proof.
  split; [|split; vm_compute; reflexivity].
  pose proof (detect_first errorPatterns errorMessage) as H.
  unfold getErrorType, detectError in *.
  destruct (detect errorPatterns errorMessage) as [p|]; split; try exact H; reflexivity.
Qed.

End ClassifierClaims.

(* ===================================================================== *)
(** * The claim about the auto-fix route *)
(* ===================================================================== *)

Section AutoFixClaims.
Import Str Regex ErrorMonitor AutoFixRoute Spec Examples.

(** C5, as the code has it. Applying a plan a second time answers as the
    first application did. For every plan but the one that strips the
    markdown fence of a style sheet, the second application leaves the
    server as the first left it: the guard finds the marker, or the first
    application had nothing to change. The plan for style sheets carries no
    guard: each application takes away one opening line of the fence at
    the start of the file and one closing line at its end, where there
    are such, and the second application changes nothing exactly when the
    content left by the first carries no fence any more. *)
Theorem C5_second_application (plan : AutoFix) (sv : server) :
  fst (POST plan (snd (POST plan sv))) = fst (POST plan sv) /\
  (is_css_plan plan = false ->
   snd (POST plan (snd (POST plan sv))) = snd (POST plan sv)) /\
  (forall once,
     target plan (snd (POST plan sv)) = Some once -> unfenced once = true ->
     snd (POST plan (snd (POST plan sv))) = snd (POST plan sv)) /\
  (is_css_plan plan = true ->
   forall content,
     target plan sv = Some content ->
     target plan (snd (POST plan sv)) = Some (one_layer_less content)) /\
  (is_css_plan plan = true ->
   forall once,
     target plan (snd (POST plan sv)) = Some once ->
     (snd (POST plan (snd (POST plan sv))) = snd (POST plan sv) <-> unfenced once = true)).
Proof.
  destruct (POST_twice plan sv) as (H1 & H2 & H3).
  split; [exact H1|]. split; [exact H2|]. split; [exact H3|].
  split; intros Hc; now apply POST_css_twice.
Qed.

(** The hydration plan of the classifier, twice on a layout file. *)
Lemma C5_example :
  target hydration_plan (snd (POST hydration_plan site))
  = Some "<html><body className={inter.className} suppressHydrationWarning>x</body></html>" /\
  snd (POST hydration_plan (snd (POST hydration_plan site)))
  = snd (POST hydration_plan site) /\
  success (fst (POST hydration_plan (snd (POST hydration_plan site)))) = true.
Proof.
  pose proof (C5_second_application hydration_plan site) as (Hr & Hs & _).
  split; [vm_compute; reflexivity|].
  split; [apply Hs; vm_compute; reflexivity|].
  rewrite Hr. vm_compute; reflexivity.
Defined.

(** C5 as stated fails: the plan that the classifier proposes for a style
    sheet is not manual, and on a style sheet that was fenced twice its
    second application changes the file again. *)
Lemma C5_double_fence :
  autoFixFor css_error = Some css_plan /\
  manual css_plan = false /\
  target css_plan site = Some fenced_twice /\
  target css_plan (snd (POST css_plan site)) = Some fenced_once /\
  target css_plan (snd (POST css_plan (snd (POST css_plan site)))) = Some plain_css /\
  String.eqb fenced_once plain_css = false.
Proof. repeat split; vm_compute; reflexivity. Qed.

(** The plan that the classifier proposes for an invalid URL names its fix
    in words that no branch of the route looks for: the route answers that
    no fix is available and touches nothing. *)
Example url_plan_is_not_recognised :
  autoFixFor "Firecrawl API error: Invalid URL" = Some url_plan /\
  success (fst (POST url_plan site)) = false /\
  message (fst (POST url_plan site)) = Some "No auto-fix available" /\
  snd (POST url_plan site) = site.
Proof. repeat split; vm_compute; reflexivity. Qed.

End AutoFixClaims.

(* ===================================================================== *)
(** * The claim about the sandbox lifecycle *)
(* ===================================================================== *)

Section LifecycleClaims.
Import SandboxWarning Spec Examples.

(** C8. Lifecycle monotonicity: for a start time [t0] and firings of the
    interval at increasing clock readings, of any two observations the
    later one is in the same phase or a later one (never Expired and then
    Warning or Active, never Warning and then Active) and shows a strictly
    smaller countdown; an observation shows zero exactly when it is
    Expired (and the interval stops there); and the phase of an observation
    is the one that the data model gives for the elapsed time. *)
Theorem C8_lifecycle_is_monotone (t0 : Z) (nows : list Z) (v : view) :
  StronglySorted Z.lt nows ->
  StronglySorted advances (observe (Num t0) nows v) /\
  Forall (fun x => remaining_of x = Some 0%Z <-> phase_of x = Expired)
         (observe (Num t0) nows v) /\
  Forall (fun x => ticking x = false <-> phase_of x = Expired)
         (observe (Num t0) nows v) /\
  (forall now, phase_of (tick (Num t0) now v) = phase_at (now - t0)).
Proof.
  intros Hs. repeat split.
  - now apply observe_advances.
  - apply List.Forall_forall. intros x Hx.
    destruct (observe_reports t0 _ _ _ Hx) as (now & _ & Hr).
    apply (expired_iff_zero t0 now x Hr).
  - apply List.Forall_forall. intros x Hx. now apply (observe_stops t0 nows v).
  - intros now. apply (phase_reported t0 now). apply tick_reported.
Qed.

Lemma C8_example :
  map phase_of (observe (Num 0) firings initial) = [Active; Warning; Warning; Expired] /\
  map remaining_of (observe (Num 0) firings initial)
  = [Some 899000; Some 120000; Some 1000; Some 0]%Z /\
  StronglySorted advances (observe (Num 0) firings initial).
Proof.
  split; [vm_compute; reflexivity|]. split; [vm_compute; reflexivity|].
  refine (proj1 (C8_lifecycle_is_monotone 0 firings initial _)).
  unfold firings. repeat constructor; reflexivity.
Defined.

End LifecycleClaims.

(* ===================================================================== *)
(** * The claim about the restore route *)
(* ===================================================================== *)

Section RestoreClaims.
Import JSON JS RestoreRoute Spec Examples.




End RestoreClaims.

(* ===================================================================== *)
(** * More about project persistence *)
(* ===================================================================== *)

Section PersistenceExtras.
Import Str JSON JS Storage ProjectPersistence Spec Examples.

(** X1. After [clearProject], [hasProject] answers no and
    [loadProject] returns [null]; in a browser both slots are gone. *)
Theorem X1_clearProject_forgets (w : world) :
  hasProject (clearProject w) = false /\
  fst (loadProject (clearProject w)) = JNull /\
  (window w = true ->
   getItem STORAGE_KEY (localStorage (clearProject w)) = None /\
   getItem BACKUP_KEY (localStorage (clearProject w)) = None).
Proof.
  unfold clearProject, hasProject, loadProject.
  destruct (window w) eqn:Hw; cbn [negb].
  - cbn [say with_storage window localStorage]. rewrite Hw. cbn [negb].
    rewrite getItem_removeItem_eq.
    rewrite getItem_removeItem_ne by (apply not_eq_sym, keys_differ).
    rewrite getItem_removeItem_eq. cbn [falsy negb orb fst]. auto.
  - rewrite Hw. cbn [negb fst]. intuition congruence.
Qed.

(** X2. When [hasProject] answers no,
    [loadProject] returns [null] and writes nothing on the console. *)
Theorem X2_nothing_stored_nothing_loaded (w : world) :
  hasProject w = false -> loadProject w = (JNull, w).
Proof. apply loadProject_without_project. Qed.

Lemma X2_nothing_stored_example :
  hasProject (clearProject stored) = false /\
  loadProject (clearProject stored) = (JNull, clearProject stored).
Proof.
  assert (H : hasProject (clearProject stored) = false) by (vm_compute; reflexivity).
  split; [exact H|]. exact (X2_nothing_stored_nothing_loaded (clearProject stored) H).
Defined.

(** X3. After a save that found room, both slots hold
    the same text, so that [hasProject] still answers yes when either
    slot is removed. *)
Theorem X3_save_fills_both_slots (now : string) (state : json) (w : world) :
  window w = true ->
  writes_fit now state (localStorage w) = true ->
  getItem STORAGE_KEY (localStorage (saveProject now state w)) = Some (serialized now state) /\
  getItem BACKUP_KEY (localStorage (saveProject now state w)) = Some (serialized now state) /\
  hasProject (saveProject now state w) = true /\
  hasProject (with_storage (removeItem STORAGE_KEY (localStorage (saveProject now state w)))
                (saveProject now state w)) = true /\
  hasProject (with_storage (removeItem BACKUP_KEY (localStorage (saveProject now state w)))
                (saveProject now state w)) = true.
Proof.
  intros Hw Hfit. destruct (slots_after_save now state w Hw Hfit) as [G1 G2].
  split; [exact G1|]. split; [exact G2|].
  split; [now apply hasProject_after_save|].
  assert (Hne : falsy (Some (serialized now state)) = false)
    by apply stringify_obj_nonempty.
  unfold hasProject. cbn [window with_storage localStorage].
  rewrite saveProject_window, Hw. cbn [negb].
  rewrite !getItem_removeItem_eq.
  rewrite (getItem_removeItem_ne STORAGE_KEY BACKUP_KEY) by apply keys_differ.
  rewrite (getItem_removeItem_ne BACKUP_KEY STORAGE_KEY) by (apply not_eq_sym, keys_differ).
  rewrite G1, G2, Hne. cbn. auto.
Qed.

Lemma X3_save_fills_both_slots_example :
  getItem STORAGE_KEY (localStorage stored) = getItem BACKUP_KEY (localStorage stored) /\
  hasProject (without_primary stored) = true.
Proof.
  assert (Hw : window (browser 4000) = true) by reflexivity.
  assert (Hfit : writes_fit monday (state_json snapshot) (localStorage (browser 4000)) = true)
    by (vm_compute; reflexivity).
  destruct (X3_save_fills_both_slots monday (state_json snapshot) (browser 4000) Hw Hfit)
    as (H1 & H2 & _ & H4 & _).
  split; [exact (eq_trans H1 (eq_sym H2)) | exact H4].
Defined.

(** X4. [importProject] answers [true] for every
    document that holds an array under [files], also when nothing could be
    stored: on the server, or when the storage has no room for the
    document. The storage is then as before. *)
Theorem X4_import_answers_true_unsaved (now text : string) (doc : json) (w : world) :
  parse text = Some doc ->
  has_files_array text = true ->
  window w = false \/
  setItem STORAGE_KEY (serialized now doc) (localStorage w) = None ->
  fst (importProject now (Some text) w) = true /\
  localStorage (snd (importProject now (Some text) w)) = localStorage w.
Proof.
  intros Hp Hf Hno. rewrite (importProject_accepts now text w doc Hp Hf). cbn [fst snd].
  split; [reflexivity|]. unfold saveProject.
  destruct Hno as [Hw|Hq].
  - now rewrite Hw.
  - destruct (negb (window w)); [reflexivity|]. now rewrite Hq.
Qed.

Lemma X4_import_answers_true_unsaved_example :
  fst (importProject tuesday (Some (stringify (state_json larger))) full) = true /\
  fst (loadProject (snd (importProject tuesday (Some (stringify (state_json larger))) full)))
  = fst (loadProject full).
Proof.
  assert (Hp : parse (stringify (state_json larger)) = Some (state_json larger))
    by (vm_compute; reflexivity).
  assert (Hf : has_files_array (stringify (state_json larger)) = true)
    by (vm_compute; reflexivity).
  assert (Hq : setItem STORAGE_KEY (serialized tuesday (state_json larger))
                 (localStorage full) = None) by (vm_compute; reflexivity).
  destruct (X4_import_answers_true_unsaved tuesday _ _ full Hp Hf (or_intror Hq)) as [H1 H2].
  split; [exact H1|]. vm_compute; reflexivity.
Defined.

(** X5. A document that holds [files] but no
    [packages] is accepted by [importProject]; once it is stored, every
    [saveFiles] throws (the packages of the stored snapshot cannot be
    spread) and stores nothing. *)
Theorem X5_saveFiles_throws_without_packages
    (now text : string) (doc : json) (w : world)
    (later : string) (newFiles : list ProjectFile) (newPackages : list string) :
  window w = true ->
  parse text = Some doc ->
  fst (importProject now (Some text) w) = true ->
  writes_fit now doc (localStorage w) = true ->
  get_prop "packages" doc = None ->
  (exists e,
     fst (saveFiles later newFiles newPackages (snd (importProject now (Some text) w)))
     = Throw e) /\
  localStorage (snd (saveFiles later newFiles newPackages
                       (snd (importProject now (Some text) w))))
  = localStorage (snd (importProject now (Some text) w)).
Proof.
  intros Hw Hp Hacc Hfit Hnone.
  pose proof (load_after_import now text doc w Hw Hp Hacc Hfit) as Hl.
  pose proof (importProject_true _ _ _ Hacc) as Hh.
  unfold has_files_array in Hh. rewrite Hp in Hh.
  assert (Ha : isArray (get_prop "files" doc) = true) by (destruct doc; congruence).
  destruct (files_array_object doc Ha) as [l ->].
  set (w' := snd (importProject now (Some text) w)) in *.
  pose proof (loadProject_storage w') as Hs.
  unfold saveFiles. destruct (loadProject w') as [loaded w1]. cbn [fst snd] in Hl, Hs |- *.
  subst loaded. cbn [truthy spread get_prop] in *.
  rewrite !assoc_obj_set_ne by reflexivity.
  destruct (assoc "files" l) as [[| | | |existing|]|]; try discriminate.
  destruct (set_each existing []); cbn [fst snd].
  - rewrite Hnone. cbn [iterate fst snd]. split; [eexists; reflexivity | exact Hs].
  - split; [eexists; reflexivity | exact Hs].
Qed.

Lemma X5_saveFiles_throws_without_packages_example :
  fst (importProject monday (Some files_document) (browser 4000)) = true /\
  exists e,
    fst (saveFiles tuesday [text_file "a" "1"] []
           (snd (importProject monday (Some files_document) (browser 4000))))
    = Throw e.
Proof.
  assert (Hacc : fst (importProject monday (Some files_document) (browser 4000)) = true)
    by (vm_compute; reflexivity).
  split; [exact Hacc|].
  refine (proj1 (X5_saveFiles_throws_without_packages monday files_document
                   (JObj [("files", JArr [])]) (browser 4000) tuesday
                   [text_file "a" "1"] [] _ _ Hacc _ _));
    vm_compute; reflexivity.
Defined.

(** X6. When nothing is stored, [saveFiles]
    starts from an empty project named PLC Karting: it stores the new
    files, the last one of each path, and the new packages, none twice,
    under that name, and [hasProject] answers yes afterwards. *)
Theorem X6_first_saveFiles_starts_a_project
    (now : string) (newFiles : list ProjectFile) (newPackages : list string) (w : world) :
  window w = true ->
  hasProject w = false ->
  writes_fit now (first_snapshot now newFiles newPackages) (localStorage w) = true ->
  fst (saveFiles now newFiles newPackages w) = Normal tt /\
  fst (loadProject (snd (saveFiles now newFiles newPackages w)))
  = JObj [("files", JArr (map file_json (merge_files [] newFiles)));
          ("packages", JArr (map JStr (union_names [] newPackages)));
          ("projectName", JStr "PLC Karting");
          ("lastSaved", JStr now)] /\
  hasProject (snd (saveFiles now newFiles newPackages w)) = true.
Proof.
  intros Hw Hno Hfit.
  pose proof (loadProject_without_project w Hno) as Hl.
  assert (Hl1 : fst (loadProject w) = JNull) by now rewrite Hl.
  split; [|split].
  - now rewrite (saveFiles_on_empty_store now newFiles newPackages w Hl1).
  - now apply load_after_first_saveFiles.
  - rewrite (saveFiles_on_empty_store now newFiles newPackages w Hl1). cbn [snd].
    rewrite Hl. cbn [snd]. now apply hasProject_after_save.
Qed.

Lemma X6_first_saveFiles_example :
  fst (loadProject (snd (saveFiles monday [text_file "a" "1"; text_file "a" "2"] ["p"; "p"]
                           (browser 4000))))
  = JObj [("files", JArr [file_json (text_file "a" "2")]);
          ("packages", JArr [JStr "p"]);
          ("projectName", JStr "PLC Karting");
          ("lastSaved", JStr monday)].
Proof.
  refine (eq_trans
            (proj1 (proj2 (X6_first_saveFiles_starts_a_project monday
                             [text_file "a" "1"; text_file "a" "2"] ["p"; "p"]
                             (browser 4000) _ _ _))) _);
    vm_compute; reflexivity.
Defined.



(** X8. No method of the class reads or writes a key
    of the storage other than its two slots: whatever is stored under
    another key is there afterwards. *)
Theorem X8_other_keys_untouched (k : string) (w : world) :
  k <> STORAGE_KEY -> k <> BACKUP_KEY ->
  (forall now state,
     getItem k (localStorage (saveProject now state w)) = getItem k (localStorage w)) /\
  getItem k (localStorage (snd (loadProject w))) = getItem k (localStorage w) /\
  (forall now newFiles newPackages,
     getItem k (localStorage (snd (saveFiles now newFiles newPackages w)))
     = getItem k (localStorage w)) /\
  getItem k (localStorage (clearProject w)) = getItem k (localStorage w) /\
  (forall now file,
     getItem k (localStorage (snd (importProject now file w))) = getItem k (localStorage w)).
Proof.
  intros H1 H2. split; [|split; [|split; [|split]]].
  - intros now state. now apply saveProject_other_keys.
  - now rewrite loadProject_storage.
  - intros now nf np.
    destruct (saveFiles_storage_cases now nf np w) as [[state ->] | ->].
    + rewrite saveProject_other_keys by assumption. now rewrite loadProject_storage.
    + now rewrite loadProject_storage.
  - unfold clearProject. destruct (negb (window w)); [reflexivity|].
    cbn [say with_storage localStorage].
    rewrite getItem_removeItem_ne by (apply not_eq_sym, H2).
    now rewrite getItem_removeItem_ne by (apply not_eq_sym, H1).
  - intros now file.
    destruct (importProject_storage_cases now file w) as [[state ->] | ->]; [|reflexivity].
    now apply saveProject_other_keys.
Qed.

Lemma X8_other_keys_untouched_example :
  getItem "theme" (localStorage (clearProject stored)) = getItem "theme" (localStorage stored).
Proof.
  refine (proj1 (proj2 (proj2 (proj2 (X8_other_keys_untouched "theme" stored _ _)))));
    discriminate.
Defined.

End PersistenceExtras.

(* ===================================================================== *)
(** * More about the classifier and its handler *)
(* ===================================================================== *)

Section ClassifierExtras.
Import Str Regex ErrorMonitor AutoFixRoute ErrorHandler Examples.

(** The loop of [detectError] over the six rules, test by test. *)
Ltac by_rule m :=
  unfold posted, autoFixFor, getErrorType, detectError, errorPatterns;
  cbn [detect pattern];
  repeat match goal with
         | |- context [test ?r m] =>
             let T := fresh "T" in
             destruct (test r m) eqn:T; cbn [detect pattern type autoFix type_name description]
         end.

Ltac plan_of H :=
  unfold with_group1 in H;
  repeat match type of H with
         | context [match ?x with _ => _ end] => destruct x; try discriminate H
         end;
  injection H as <-.

(** X9. A plan that [autoFix] proposes is manual
    exactly when the error is of type build or syntax; the plans for CSS,
    hydration and runtime errors are automatic. *)
Theorem X9_manual_means_build_or_syntax (m : string) (plan : AutoFix) :
  autoFixFor m = Some plan ->
  (manual plan = true <-> getErrorType m = "build" \/ getErrorType m = "syntax").
Proof.
  by_rule m; intros H; try discriminate H; plan_of H; cbn [manual];
    split; try discriminate; auto; intros [E|E]; discriminate E.
Qed.

Lemma X9_manual_means_build_or_syntax_example :
  autoFixFor overlapping_error
  = Some {| file := "package.json";
            fix_ := "npm install react-icons";
            explanation := "Missing dependency: react-icons";
            manual := true |} /\
  getErrorType overlapping_error = "build".
Proof.
  assert (H : autoFixFor overlapping_error
              = Some {| file := "package.json";
                        fix_ := "npm install react-icons";
                        explanation := "Missing dependency: react-icons";
                        manual := true |}) by (vm_compute; reflexivity).
  split; [exact H|].
  destruct (proj1 (X9_manual_means_build_or_syntax _ _ H) eq_refl) as [E|E];
    [exact E | vm_compute in E; discriminate E].
Defined.


(** X13. For every message that the rule for invalid
    URLs classifies, the handler posts the plan of that rule to the
    auto-fix route, and the route finds no branch for it: it answers with
    status 200 and [success: false], and leaves the server as it was. The
    handler, which looks at the status only, takes the fix as applied. *)
Theorem X13_url_plan_is_never_applied (m : string) (p : ErrorPattern) (sv : server) :
  detectError m = Some p ->
  description p = "Invalid URL format for Firecrawl API" ->
  exists plan,
    posted m = Some plan /\
    POST plan sv
    = ({| status := 200; success := false;
          message := Some "No auto-fix available"; error := None |}, sv) /\
    ok (fst (POST plan sv)) = true.
Proof.
  by_rule m; intros H; try discriminate H; injection H as <-;
    cbn [description]; intros D; try discriminate D.
  eexists. split; [reflexivity|]. split; reflexivity.
Qed.

Lemma X13_url_plan_is_never_applied_example :
  exists plan,
    posted "Firecrawl API error: Invalid URL" = Some plan /\
    POST plan site
    = ({| status := 200; success := false;
          message := Some "No auto-fix available"; error := None |}, site) /\
    ok (fst (POST plan site)) = true.
Proof.
  assert (H : detectError "Firecrawl API error: Invalid URL"
              = nth_error errorPatterns 3) by (vm_compute; reflexivity).
  exact (X13_url_plan_is_never_applied "Firecrawl API error: Invalid URL" _ site H eq_refl).
Defined.

(** X11. A message is of type syntax only if it holds one of
    the two texts of the syntax rule and none of the texts that an earlier
    rule looks for without further condition: the order of the rules
    decides for every message that several rules match. *)
Theorem X11_syntax_comes_last (m : string) :
  getErrorType m = "syntax" ->
  (includes m "Unexpected token" = true \/ includes m "SyntaxError" = true) /\
  includes m "Cannot find module" = false /\
  includes m "Module not found" = false /\
  includes m "Invalid URL" = false /\
  includes m "WritableStream is closed" = false.
Proof.
  by_rule m; intros H; try discriminate H.
  rewrite test_or, !test_lit in T4, T3.
  rewrite test_or in T2, T1. rewrite test_or, !test_lit in T2. rewrite test_lit in T1.
  apply orb_true_iff in T4.
  apply orb_false_iff in T3 as [? ?], T2 as [_ T2], T1 as [? _].
  apply orb_false_iff in T2 as [? _].
  repeat split; assumption.
Qed.

Lemma X11_syntax_comes_last_example :
  getErrorType "SyntaxError: Unexpected token <" = "syntax" /\
  includes "SyntaxError: Unexpected token <" "Cannot find module" = false.
Proof.
  assert (H : getErrorType "SyntaxError: Unexpected token <" = "syntax")
    by (vm_compute; reflexivity).
  split; [exact H|]. exact (proj1 (proj2 (X11_syntax_comes_last _ H))).
Defined.

(** X12. A message of unknown type holds none of the
    texts that a rule looks for without further condition. *)
Theorem X12_unknown_holds_no_trigger (m : string) :
  getErrorType m = "unknown" ->
  Forall (fun text => includes m text = false)
    ["WritableStream is closed"; "Invalid URL"; "Cannot find module"; "Module not found";
     "Unexpected token"; "SyntaxError"] /\
  autoFixFor m = None.
Proof.
  intros H. split.
  - revert H. by_rule m; intros H; try discriminate H.
    rewrite test_or, !test_lit in T4, T3.
    rewrite test_or in T2, T1. rewrite test_or, !test_lit in T2. rewrite test_lit in T1.
    apply orb_false_iff in T4 as [? ?], T3 as [? ?], T2 as [_ T2], T1 as [? _].
    apply orb_false_iff in T2 as [? _].
    repeat constructor; assumption.
  - revert H. by_rule m; intros H; try discriminate H. reflexivity.
Qed.

Lemma X12_unknown_holds_no_trigger_example :
  getErrorType "ResizeObserver loop limit exceeded" = "unknown" /\
  autoFixFor "ResizeObserver loop limit exceeded" = None.
Proof.
  assert (H : getErrorType "ResizeObserver loop limit exceeded" = "unknown")
    by (vm_compute; reflexivity).
  split; [exact H|]. exact (proj2 (X12_unknown_holds_no_trigger _ H)).
Defined.


(** X10. For an error of type build, the
    plan that [autoFix] proposes is to install what stands between two
    quote characters of the message: a name that is not empty and holds
    no quote. The plan is manual and names [package.json]. *)
Theorem X10_build_plan_installs_the_quoted_name (m : string) (plan : AutoFix) :
  autoFixFor m = Some plan ->
  getErrorType m = "build" ->
  exists pre q name y rest,
    m = pre +:+ String q (name +:+ String y rest) /\
    is_quote q = true /\ name <> "" /\ quote_free name = true /\ is_quote y = true /\
    plan = {| file := "package.json";
              fix_ := "npm install " +:+ name;
              explanation := "Missing dependency: " +:+ name;
              manual := true |}.
Proof.
  by_rule m; intros H Ht; try discriminate Ht.
  unfold with_group1 in H.
  destruct (match exec quoted_name m with
            | Some m0 => group 1 m m0
            | None => None
            end) as [g|] eqn:G.
  - destruct (group_quoted_name m g G) as (pre & q & y & rest & Hm & Hq & Hn & Hf & Hy).
    exists pre, q, g, y, rest. repeat split; try assumption.
    change (seq _) with quoted_name in H.
    destruct (exec quoted_name m) as [m0|]; [|discriminate G].
    rewrite G in H. now injection H as <-.
  - change (seq _) with quoted_name in H.
    destruct (exec quoted_name m) as [m0|]; [|discriminate H].
    rewrite G in H. discriminate H.
Qed.

Lemma X10_build_plan_example :
  exists pre q name y rest,
    overlapping_error = pre +:+ String q (name +:+ String y rest) /\
    is_quote q = true /\ name <> "" /\ quote_free name = true /\ is_quote y = true /\
    Some {| file := "package.json";
            fix_ := "npm install react-icons";
            explanation := "Missing dependency: react-icons";
            manual := true |}
    = Some {| file := "package.json";
              fix_ := "npm install " +:+ name;
              explanation := "Missing dependency: " +:+ name;
              manual := true |}.
Proof.
  assert (H : autoFixFor overlapping_error
              = Some {| file := "package.json";
                        fix_ := "npm install react-icons";
                        explanation := "Missing dependency: react-icons";
                        manual := true |}) by (vm_compute; reflexivity).
  assert (Ht : getErrorType overlapping_error = "build") by (vm_compute; reflexivity).
  destruct (X10_build_plan_installs_the_quoted_name _ _ H Ht)
    as (pre & q & name & y & rest & H1 & H2 & H3 & H4 & H5 & H6).
  exists pre, q, name, y, rest. repeat split; try assumption. now f_equal.
Defined.

End ClassifierExtras.

(* ===================================================================== *)
(** * More about the auto-fix route *)
(* ===================================================================== *)

Section AutoFixExtras.
Import Str Regex ErrorMonitor AutoFixRoute Spec Examples.

(** X14. Whatever the plan, the route creates no
    file and removes none, leaves every file other than the target of the
    plan as it was, and when the target does not exist it changes nothing
    and does not report success. The target is the file at the path that
    [path.join] makes of the directory of the server and the name in the
    plan, [.] and [..] resolved. *)
Theorem X14_POST_touches_only_the_target (plan : AutoFix) (sv : server) :
  cwd (snd (POST plan sv)) = cwd sv /\
  dom (disk (snd (POST plan sv))) = dom (disk sv) /\
  (forall p, p <> join_path (cwd sv) (file plan) ->
             readFile p (snd (POST plan sv)) = readFile p sv) /\
  (target plan sv = None ->
   snd (POST plan sv) = sv /\ success (fst (POST plan sv)) = false).
Proof.
  unfold target.
  destruct (POST_branches plan) as [(_ & msg & patch & HP & _) | [(_ & HP) | (_ & HP)]];
    rewrite HP; try apply branch_frame.
  unfold no_fix. cbn [fst snd success]. repeat split.
Qed.

(** X15. On a layout file without the marker,
    the hydration branch answers success and rewrites the first body tag
    of the file, and nothing else: no tag that the pattern matches starts
    before the one that is rewritten. When the file holds no such tag it
    is left as it was, and the answer is success all the same. *)
Theorem X15_hydration_fix_rewrites_the_tag (plan : AutoFix) (sv : server) (content : string) :
  file plan = "app/layout.tsx" ->
  includes (fix_ plan) "suppressHydrationWarning" = true ->
  target plan sv = Some content ->
  includes content "suppressHydrationWarning" = false ->
  success (fst (POST plan sv)) = true /\
  (test body_tag content = false -> target plan (snd (POST plan sv)) = Some content) /\
  (test body_tag content = true ->
   exists a x z,
     content = a +:+ ("<body className={inter" +:+ String x "className}>") +:+ z /\
     target plan (snd (POST plan sv))
     = Some (a +:+ "<body className={inter.className} suppressHydrationWarning>" +:+ z) /\
     forall a' x' z',
       content = a' +:+ ("<body className={inter" +:+ String x' "className}>") +:+ z' ->
       Ascii.eqb x' LF || Ascii.eqb x' CR = false ->
       String.length a <= String.length a').
Proof.
  unfold target. intros Hf Hx Hr Hm. unfold POST.
  rewrite Hf in *. rewrite Hx, Hr, Hm. cbn [String.eqb Ascii.eqb Bool.eqb andb negb fst snd].
  cbn [cwd writeFile]. rewrite !readFile_writeFile.
  split; [reflexivity|]. unfold test, replace.
  destruct (exec body_tag content) as [[[b e] c]|] eqn:E.
  - split; [discriminate|]. intros _.
    destruct (exec_from_body_tag content 0 b e c E) as (a & x & z & Hc & Hb & He).
    exists a, x, z. split; [exact Hc|].
    cbn [Nat.add] in Hb. split.
    + subst b e.
      pose proof (replace_at body_tag
                    "<body className={inter.className} suppressHydrationWarning>"
                    a ("<body className={inter" +:+ String x "className}>") z c) as R.
      rewrite <- Hc in R. unfold replace in R. rewrite E in R. f_equal. now apply R.
    + intros a' x' z' Hc' Hx'. rewrite <- Hb.
      exact (body_tag_first content b e c a' x' z' E Hc' Hx').
  - split; [reflexivity|discriminate].
Qed.

Lemma X15_hydration_fix_rewrites_the_tag_example :
  target hydration_plan site
  = Some "<html><body className={inter.className}>x</body></html>" /\
  success (fst (POST hydration_plan site)) = true.
Proof.
  assert (H : target hydration_plan site
              = Some "<html><body className={inter.className}>x</body></html>")
    by (vm_compute; reflexivity).
  split; [exact H|].
  refine (proj1 (X15_hydration_fix_rewrites_the_tag hydration_plan site _ _ _ H _));
    vm_compute; reflexivity.
Defined.

(** X16. On a style sheet that is wrapped in one markdown fence,
    the CSS branch writes back exactly what stands between the opening
    and the closing line of the fence. *)
Theorem X16_css_fix_unwraps (plan : AutoFix) (sv : server) (body : string) :
  is_css_plan plan = true ->
  target plan sv = Some (fence_open +:+ body +:+ fence_close) ->
  success (fst (POST plan sv)) = true /\
  target plan (snd (POST plan sv)) = Some body.
Proof.
  unfold target. intros Hc Hr.
  destruct (POST_branches plan) as [(Hn & _) | [(_ & HP) | (Hn & _)]]; try congruence.
  rewrite HP. unfold branch. rewrite Hr. cbn [fst snd succeeded success cwd writeFile].
  split; [reflexivity|]. fold (writeFile (join_path (cwd sv) (file plan))
    (strip_fence (fence_open +:+ body +:+ fence_close)) sv).
  now rewrite readFile_writeFile, strip_fence_fenced.
Qed.

Lemma X16_css_fix_unwraps_example :
  target css_plan (snd (POST css_plan site)) = Some fenced_once /\
  target css_plan (snd (POST css_plan (snd (POST css_plan site)))) = Some plain_css.
Proof.
  assert (H : target css_plan (snd (POST css_plan site))
              = Some (fence_open +:+ plain_css +:+ fence_close))
    by (vm_compute; reflexivity).
  split; [exact H|].
  refine (proj2 (X16_css_fix_unwraps css_plan (snd (POST css_plan site)) plain_css _ H)).
  vm_compute; reflexivity.
Defined.


(** X30. The plan that the classifier proposes for
    a stream error, on a file of the code-stream route that does not hold
    the marker yet: the route answers success; the marker is in the file
    afterwards exactly when the file held a call that closes the writer,
    and a file without such a call is left as it was. *)
Theorem X30_stream_fix_guards_the_close (plan : AutoFix) (sv : server) (content : string) :
  fix_ plan = "Add proper stream state checks before closing" ->
  includes (file plan) "generate-ai-code-stream" = true ->
  target plan sv = Some content ->
  includes content "!stream.locked" = false ->
  success (fst (POST plan sv)) = true /\
  (includes content "await writer.close();" = true ->
   exists after,
     target plan (snd (POST plan sv)) = Some after /\
     includes after "!stream.locked" = true) /\
  (includes content "await writer.close();" = false ->
   target plan (snd (POST plan sv)) = Some content).
Proof.
  unfold target. intros Hx Hf Hr Hm. unfold POST. rewrite Hx, Hf, Hr, Hm.
  change (includes "Add proper stream state checks before closing" "suppressHydrationWarning")
    with false.
  change (includes "Add proper stream state checks before closing" "Remove markdown")
    with false.
  change (includes "Add proper stream state checks before closing" "stream state checks")
    with true.
  rewrite !andb_false_r. cbn [andb negb fst snd succeeded success cwd writeFile].
  rewrite !readFile_writeFile. split; [reflexivity|]. split.
  - intros Hc. eexists. split; [reflexivity|].
    now apply replace_all_lit_found.
  - intros Hc. now rewrite replace_all_lit_absent.
Qed.

Lemma X30_stream_fix_example :
  exists after,
    target {| file := "app/api/generate-ai-code-stream/route.ts";
              fix_ := "Add proper stream state checks before closing";
              explanation := "Stream was already closed or locked when attempting to close";
              manual := false |}
      (snd (POST {| file := "app/api/generate-ai-code-stream/route.ts";
                    fix_ := "Add proper stream state checks before closing";
                    explanation := "Stream was already closed or locked when attempting to close";
                    manual := false |}
              {| cwd := "/app";
                 disk := <["/app/app/api/generate-ai-code-stream/route.ts"
                           := "await writer.close();"]> empty |}))
    = Some after /\
    includes after "!stream.locked" = true.
Proof.
  refine (proj1 (proj2 (X30_stream_fix_guards_the_close _ _ "await writer.close();" _ _ _ _)) _);
    vm_compute; reflexivity.
Defined.

End AutoFixExtras.

(* ===================================================================== *)
(** * More about the sandbox warning *)
(* ===================================================================== *)

Section SandboxExtras.
Import Str Storage JS ProjectPersistence SandboxWarning SandboxBanner Spec Examples.

(** X17. The start time of a sandbox is fixed the first time
    the component sees it: whatever the effect returned once, it returns
    again at every later clock reading, from the session storage, which
    it does not change any more. *)
Theorem X17_start_time_is_kept
    (sandboxId : string) (now : Z) (session session' : storage) (t : num) :
  startTimeOf sandboxId now session = Normal (t, session') ->
  forall later, startTimeOf sandboxId later session' = Normal (t, session').
Proof.
  unfold startTimeOf.
  destruct (negb (falsy (getItem (start_key sandboxId) session))) eqn:Hs.
  - intros [= <- <-] later. now rewrite Hs.
  - destruct (setItem (start_key sandboxId) (of_Z now) session) as [s1|] eqn:E; [|discriminate].
    intros [= <- <-] later. rewrite (getItem_setItem_eq _ _ _ _ E).
    cbn [falsy]. rewrite of_Z_nonempty. cbn [negb].
    change (default "" (Some (of_Z now))) with (of_Z now).
    now rewrite parseInt_of_Z.
Qed.

Lemma X17_start_time_is_kept_example :
  startTimeOf "sbx-1" 1700000000000 {| items := empty; quota := 100 |}
  = Normal (Num 1700000000000,
            {| items := <["sandbox_start_sbx-1" := "1700000000000"]> empty; quota := 100 |}) /\
  startTimeOf "sbx-1" 1700000600000
    {| items := <["sandbox_start_sbx-1" := "1700000000000"]> empty; quota := 100 |}
  = Normal (Num 1700000000000,
            {| items := <["sandbox_start_sbx-1" := "1700000000000"]> empty; quota := 100 |}).
Proof.
  assert (H : startTimeOf "sbx-1" 1700000000000 {| items := empty; quota := 100 |}
              = Normal (Num 1700000000000,
                        {| items := <["sandbox_start_sbx-1" := "1700000000000"]> empty;
                           quota := 100 |})) by (vm_compute; reflexivity).
  split; [exact H|]. exact (X17_start_time_is_kept _ _ _ _ _ H 1700000600000%Z).
Defined.


(** X18. When the stored start time does not read
    as a number, the start time is [NaN]: every firing of the interval
    then leaves the warning hidden and the interval running, so that the
    component never warns and never expires. *)
Theorem X18_unreadable_start_never_warns
    (sandboxId saved : string) (now : Z) (session : storage) (nows : list Z) :
  getItem (start_key sandboxId) session = Some saved ->
  saved <> "" ->
  parseInt saved = NaN ->
  startTimeOf sandboxId now session = Normal (NaN, session) /\
  List.length (observe NaN nows initial) = List.length nows /\
  Forall (fun x => phase_of x = Active /\ ticking x = true /\
                   forall backup, render backup x = None)
         (observe NaN nows initial).
Proof.
  intros Hg Hne Hp. split.
  - unfold startTimeOf. rewrite Hg. cbn [falsy]. apply String.eqb_neq in Hne.
    rewrite Hne. cbn [negb]. change (default "" (Some saved)) with saved. now rewrite Hp.
  - assert (G : forall v, ticking v = true ->
                  List.length (observe NaN nows v) = List.length nows /\
                  Forall (fun x => phase_of x = Active /\ ticking x = true /\
                                   forall backup, render backup x = None)
                         (observe NaN nows v)).
    { induction nows as [|n nows IH]; intros v Hv; cbn [observe].
      - split; [reflexivity | constructor].
      - rewrite Hv. cbn [tick List.length]. rewrite Hv.
        destruct (IH {| timeRemaining := Some NaN; showWarning := false; ticking := true |}
                     eq_refl) as [IH1 IH2].
        split; [now rewrite IH1|]. constructor; [|exact IH2]. repeat split. }
    now apply G.
Qed.

Lemma X18_unreadable_start_never_warns_example :
  parseInt "soon" = NaN /\
  startTimeOf "sbx-1" 0 {| items := <["sandbox_start_sbx-1" := "soon"]> empty; quota := 100 |}
  = Normal (NaN, {| items := <["sandbox_start_sbx-1" := "soon"]> empty; quota := 100 |}) /\
  map phase_of (observe NaN firings initial) = [Active; Active; Active; Active; Active].
Proof.
  assert (Hp : parseInt "soon" = NaN) by reflexivity.
  split; [exact Hp|].
  assert (Hg : getItem (start_key "sbx-1")
                 {| items := <["sandbox_start_sbx-1" := "soon"]> empty; quota := 100 |}
               = Some "soon") by (vm_compute; reflexivity).
  assert (Hne : "soon" <> "") by discriminate.
  split; [|vm_compute; reflexivity].
  exact (proj1 (X18_unreadable_start_never_warns "sbx-1" "soon" 0 _ firings Hg Hne Hp)).
Defined.

(** X20. For a time that is not negative,
    [formatTime] prints the whole minutes, a colon, and the remaining
    whole seconds on two digits; what it prints is the time in whole
    seconds. *)
Theorem X20_formatTime_reads_minutes_and_seconds (ms : Z) :
  (0 <= ms)%Z ->
  formatTime (Num ms)
  = of_Z (ms / 60000) +:+ ":" +:+ two_digits ((ms / 1000) mod 60) /\
  (60 * (ms / 60000) + (ms / 1000) mod 60 = ms / 1000)%Z.
Proof.
  intros H. split; [|Z.div_mod_to_equations; lia].
  unfold formatTime. cbn [floor_div remainder show].
  rewrite Z.rem_mod_nonneg by lia.
  replace (ms mod 60000 / 1000)%Z with ((ms / 1000) mod 60)%Z
    by (Z.div_mod_to_equations; lia).
  assert (Hs : (0 <= (ms / 1000) mod 60 < 60)%Z) by (apply Z.mod_pos_bound; lia).
  generalize dependent ((ms / 1000) mod 60)%Z. intros s Hs. do 2 f_equal.
  assert (G : forall k : nat, k < 60 ->
                padStart 2 "0" (of_Z (Z.of_nat k)) = two_digits (Z.of_nat k)).
  { intros k Hk. do 60 (destruct k as [|k]; [reflexivity|]). lia. }
  rewrite <- (Z2Nat.id s) by lia. apply G. lia.
Qed.

Lemma X20_formatTime_example : formatTime (Num 119000) = "1:59".
Proof.
  refine (eq_trans (proj1 (X20_formatTime_reads_minutes_and_seconds 119000 _)) _);
    [lia | reflexivity].
Defined.

(** X19. What the component shows after a firing of
    the interval depends on the time elapsed since the start of the
    sandbox alone: nothing in the first thirteen minutes, then the yellow
    banner with the time left, and from the fifteenth minute on the red
    banner. *)
Theorem X19_banner_follows_the_clock (t0 now : Z) (v : view) (backup : bool) :
  ((now - t0 < SANDBOX_LIFETIME - WARNING_THRESHOLD)%Z ->
   render backup (tick (Num t0) now v) = None) /\
  ((SANDBOX_LIFETIME - WARNING_THRESHOLD <= now - t0 < SANDBOX_LIFETIME)%Z ->
   render backup (tick (Num t0) now v)
   = Some {| red := false;
             title := "Sandbox Expiring Soon";
             text := "Your sandbox will expire in "
                     +:+ formatTime (Num (SANDBOX_LIFETIME - (now - t0))) +:+ ".";
             note := backup;
             button := "Extend Session" |}) /\
  ((SANDBOX_LIFETIME <= now - t0)%Z ->
   render backup (tick (Num t0) now v)
   = Some {| red := true;
             title := "Sandbox Expired";
             text := "Your sandbox has expired. Create a new one to continue working.";
             note := backup;
             button := "Create New Sandbox" |}).
Proof.
  unfold tick, render, SANDBOX_LIFETIME, WARNING_THRESHOLD.
  destruct (Z.leb_spec (15 * 60 * 1000 - (now - t0)) 0) as [H0|H0];
    [|destruct (Z.leb_spec (15 * 60 * 1000 - (now - t0)) (2 * 60 * 1000)) as [H1|H1]];
    cbn [showWarning timeRemaining negb is_over];
    repeat split; intros H; try lia; try reflexivity.
  destruct (Z.leb_spec (15 * 60 * 1000 - (now - t0)) 0); [lia|reflexivity].
Qed.

(** X21. A click on a button hides the
    banner at once. While the interval runs, its next firing computes
    the view without looking at the click, so that an unexpired warning
    comes back; once the sandbox has expired the interval is cleared and
    the banner stays hidden. *)
Theorem X21_dismiss_lasts_until_the_next_tick (startTime : num) (v : view) (backup : bool) :
  render backup (dismiss v) = None /\
  (forall now, tick startTime now (dismiss v) = tick startTime now v) /\
  (ticking v = false -> forall nows, observe startTime nows (dismiss v) = []).
Proof.
  split; [reflexivity|]. split.
  - intros now. unfold tick, dismiss. cbn [ticking]. reflexivity.
  - intros Hv nows. destruct nows; cbn [observe dismiss ticking]; [reflexivity|].
    now rewrite Hv.
Qed.

(** X22. The note about the backup that a banner carries is the
    reading of the primary slot of the project store that the first
    effect made when the component was mounted: a component mounted
    after a save that found room shows the note, one mounted after
    [clearProject], or when only the backup slot is left, does not, and
    whenever the note is shown [hasProject] answers yes. *)
Theorem X22_backup_note_follows_the_primary_slot (w : world) (v : view) (b : banner) :
  window w = true ->
  shown (localStorage w) v = Some b ->
  note b = negb (falsy (getItem STORAGE_KEY (localStorage w))) /\
  (note b = true -> hasProject w = true) /\
  (forall now state b',
     writes_fit now state (localStorage w) = true ->
     shown (localStorage (saveProject now state w)) v = Some b' -> note b' = true) /\
  (forall b', shown (localStorage (clearProject w)) v = Some b' -> note b' = false) /\
  (forall b', shown (localStorage (without_primary w)) v = Some b' -> note b' = false).
Proof.
  intros Hw Hb. unfold shown in *. apply render_note in Hb.
  split; [exact Hb|]. split; [|split; [|split]].
  - rewrite Hb. unfold hasBackup, hasProject. rewrite Hw. cbn [negb].
    change "lovable_project_state" with STORAGE_KEY. now intros ->.
  - intros now state b' Hfit Hb'. apply render_note in Hb'. rewrite Hb'.
    destruct (saveProject_fits now state w Hw Hfit) as (st1 & st2 & E1 & E2 & ->).
    cbn [say with_storage localStorage]. unfold hasBackup.
    change "lovable_project_state" with STORAGE_KEY.
    erewrite getItem_setItem_ne; [|apply not_eq_sym, keys_differ|exact E2].
    rewrite (getItem_setItem_eq _ _ _ _ E1). unfold serialized. cbn [falsy].
    now rewrite stringify_obj_nonempty.
  - intros b' Hb'. apply render_note in Hb'. rewrite Hb'.
    unfold clearProject. rewrite Hw. cbn [negb say with_storage localStorage].
    unfold hasBackup. change "lovable_project_state" with STORAGE_KEY.
    rewrite getItem_removeItem_ne by (apply not_eq_sym, keys_differ).
    now rewrite getItem_removeItem_eq.
  - intros b' Hb'. apply render_note in Hb'. rewrite Hb'.
    unfold without_primary, hasBackup. cbn [with_storage localStorage].
    change "lovable_project_state" with STORAGE_KEY.
    now rewrite getItem_removeItem_eq.
Qed.

Lemma X22_backup_note_example :
  shown (localStorage stored)
        {| timeRemaining := Some (Num 60000); showWarning := true; ticking := true |}
  = Some {| red := false; title := "Sandbox Expiring Soon";
            text := "Your sandbox will expire in 1:00.";
            note := true; button := "Extend Session" |} /\
  hasProject stored = true.
Proof.
  assert (Hs : shown (localStorage stored)
                 {| timeRemaining := Some (Num 60000); showWarning := true; ticking := true |}
               = Some {| red := false; title := "Sandbox Expiring Soon";
                         text := "Your sandbox will expire in 1:00.";
                         note := true; button := "Extend Session" |})
    by (vm_compute; reflexivity).
  split; [exact Hs|].
  exact (proj1 (proj2 (X22_backup_note_follows_the_primary_slot stored _ _ eq_refl Hs))
           eq_refl).
Defined.

End SandboxExtras.

(* ===================================================================== *)
(** * More about the restore route *)
(* ===================================================================== *)

Section RestoreExtras.
Import Str JSON JS RestoreRoute Spec Examples.


(** X24. When the apply endpoint counts as finished. A
    stream of events that is read to its end counts, whether or not an
    event reported completion; a stream that breaks counts only if a
    chunk read before held a line reporting completion. An answer
    that is no stream of events counts when it is JSON, or when one of
    its lines reports completion; when its text cannot be read at all
    it does not count. The texts are those within the values of the
    model ([readable]). *)
Theorem X24_await_apply_outcomes (r : http_response) :
  (is_stream r = true -> broken r = false -> await_apply r = Normal tt) /\
  (is_stream r = true -> broken r = true ->
   forall chunks, body r = Some chunks ->
     Forall (fun c => lines_readable c = true) chunks ->
     (await_apply r = Normal tt <-> Exists (fun c => chunk_completes c = true) chunks)) /\
  (is_stream r = false -> broken r = false ->
   forall responseText, responseText = String.concat "" (default [] (body r)) ->
     readable responseText = true -> lines_readable responseText = true ->
     (await_apply r = Normal tt <->
      valid responseText = true \/ chunk_completes responseText = true)) /\
  (is_stream r = false -> broken r = true -> await_apply r <> Normal tt).
Proof.
  unfold is_stream, await_apply. split; [|split; [|split]].
  - intros -> Hb. destruct (body r); [|reflexivity]. rewrite Hb. apply read_stream_unbroken.
  - intros -> Hb chunks -> _. rewrite Hb. apply read_stream_broken.
  - intros -> Hb responseText -> Hr _. unfold text. rewrite Hb.
    set (t := String.concat "" (default [] (body r))) in *. unfold chunk_completes.
    rewrite <- (readable_valid t Hr).
    destruct (parse t); [split; [left; discriminate | reflexivity]|].
    destruct (existsb completes (split_lines t)).
    + split; [now right | reflexivity].
    + split; [discriminate | intros [H|H]; [now destruct H | discriminate]].
  - intros -> Hb. unfold text. rewrite Hb. discriminate.
Qed.

End RestoreExtras.

(* ===================================================================== *)
(** * More about the file routes *)
(* ===================================================================== *)

Section FileRouteExtras.
Import Str JSON JS AutoFixRoute FileRoutes Examples.

(** X25. What the save-file route wrote, the file-content
    route serves back: for every name that is not empty and every
    content, the empty one included, a save that went through is
    answered with status 200, and a read of the same name then returns
    the content as it was sent. A request without a name, or without a
    content, is refused with status 400 and writes nothing. *)
Theorem X25_saved_file_is_served (file content : string) (sv : server) :
  file <> "" ->
  status_of (fst (POST (Some file) (Some content) Done sv)) = 200 /\
  GET (Some file) (snd (POST (Some file) (Some content) Done sv)) = Text content /\
  (forall fs, POST None (Some content) fs sv
   = (Json 400 (JObj [("error", JStr "File and content required")]), sv)) /\
  (forall fs, POST (Some file) None fs sv
   = (Json 400 (JObj [("error", JStr "File and content required")]), sv)) /\
  (forall fs, POST (Some "") (Some content) fs sv
   = (Json 400 (JObj [("error", JStr "File and content required")]), sv)).
Proof.
  intros Hf. apply String.eqb_neq in Hf.
  unfold POST, GET. rewrite Hf. cbn [fst snd status_of cwd writeFile].
  rewrite readFile_writeFile. repeat split.
Qed.

Lemma X25_saved_file_is_served_example :
  GET (Some "src/App.jsx") (snd (POST (Some "src/App.jsx") (Some "") Done site)) = Text "".
Proof.
  refine (proj1 (proj2 (X25_saved_file_is_served "src/App.jsx" "" site _))). discriminate.
Defined.

End FileRouteExtras.

(* ===================================================================== *)
(** * More about the file explorer *)
(* ===================================================================== *)

Section ExplorerExtras.
Import Str FileExplorer.

(** X26. After [loadFiles] on the trees of the
    explorer, the map of contents holds under a path the content of the
    last node, at any depth, that has this path, is a file and has a
    content that is not empty; under a path that no such node has it
    holds nothing. *)
Theorem X26_loadFiles_loads_every_file (nodes : list FileNode) (p : string) :
  loadFiles nodes ∅ !! p = loaded_at p (all_nodes nodes).
Proof.
  rewrite loadFiles_flat, fold_load_lookup.
  destruct (loaded_at p (all_nodes nodes)); [reflexivity | apply lookup_empty].
Qed.

(** X27. A click on a folder expands it if it was
    collapsed and collapses it if it was expanded, and leaves every other
    folder as it was; a second click brings the set of expanded folders
    back. *)
Theorem X27_toggleFolder_twice (path : string) (prev : gset string) :
  (path ∈ toggleFolder path prev <-> path ∉ prev) /\
  (forall other, other <> path -> (other ∈ toggleFolder path prev <-> other ∈ prev)) /\
  toggleFolder path (toggleFolder path prev) = prev.
Proof.
  unfold toggleFolder. destruct (decide (path ∈ prev)) as [H|H].
  - split; [|split].
    + rewrite elem_of_difference, elem_of_singleton. tauto.
    + intros other Ho. rewrite elem_of_difference, elem_of_singleton. tauto.
    + destruct (decide (path ∈ prev ∖ {[path]})) as [H'|H'].
      * apply elem_of_difference in H' as [_ H']. exfalso. apply H'. now apply elem_of_singleton.
      * apply set_eq. intros x.
        rewrite elem_of_union, elem_of_difference, !elem_of_singleton.
        destruct (decide (x = path)) as [->|]; tauto.
  - split; [|split].
    + rewrite elem_of_union, elem_of_singleton. tauto.
    + intros other Ho. rewrite elem_of_union, elem_of_singleton. tauto.
    + destruct (decide (path ∈ prev ∪ {[path]})) as [H'|H'].
      * apply set_eq. intros x.
        rewrite elem_of_difference, elem_of_union, !elem_of_singleton.
        destruct (decide (x = path)) as [->|]; tauto.
      * exfalso. apply H'. apply elem_of_union. right. now apply elem_of_singleton.
Qed.

(** X28. The language of a file depends on
    what follows the last dot of its name alone, whatever the case of the
    letters: a name is treated as the text after its last dot is, and a
    name without a dot as if the whole name were the extension. *)
Theorem X28_getFileLanguage_reads_the_extension (base ext : string) :
  dot_free ext = true ->
  getFileLanguage (base +:+ String "." ext) = getFileLanguage ext /\
  getFileLanguage (toLowerCase (base +:+ String "." ext)) = getFileLanguage ext.
Proof.
  intros H.
  assert (E : getFileLanguage (base +:+ String "." ext) = getFileLanguage ext).
  { unfold getFileLanguage.
    rewrite split_on_app, last_app_nonempty by apply split_on_nonempty. reflexivity. }
  split; [exact E|]. rewrite <- E. unfold getFileLanguage.
  rewrite split_on_lower.
  assert (L : forall l, toLowerCase (List.last (map toLowerCase l) "")
                        = toLowerCase (List.last l "")).
  { intros l.
    change (List.last (map toLowerCase l) "")
      with (List.last (map toLowerCase l) (toLowerCase "")).
    now rewrite last_map, toLowerCase_twice. }
  now rewrite L.
Qed.

Lemma X28_getFileLanguage_example :
  getFileLanguage "src/App.test.TSX" = Language "typescript" /\
  getFileLanguage "tsx" = Language "typescript".
Proof.
  assert (H : getFileLanguage "tsx" = Language "typescript") by reflexivity.
  split; [|exact H].
  refine (eq_trans _ H).
  assert (G : getFileLanguage "TSX" = getFileLanguage "tsx") by reflexivity.
  refine (eq_trans (proj1 (X28_getFileLanguage_reads_the_extension "src/App.test" "TSX" _)) G).
  reflexivity.
Defined.

End ExplorerExtras.

(* ===================================================================== *)
(** * More about the scrape route *)
(* ===================================================================== *)

Section ScrapeExtras.
Import ScrapeRoute.

(** X29. After [sanitizeQuotes] no curly quote,
    guillemet, dash, ellipsis or no-break space is left in the text; a
    text that holds none of them is returned as it is, so that
    sanitizing twice is sanitizing once; and the function works
    character by character: it commutes with concatenation. *)
Theorem X29_sanitizeQuotes_leaves_plain_text (t : text) :
  Forall (fun u => ~ In u typographic) (sanitizeQuotes t) /\
  (Forall (fun u => ~ In u typographic) t -> sanitizeQuotes t = t) /\
  sanitizeQuotes (sanitizeQuotes t) = sanitizeQuotes t /\
  (forall t', sanitizeQuotes (t ++ t') = sanitizeQuotes t ++ sanitizeQuotes t').
Proof.
  assert (H1 : forall t, Forall (fun u => ~ In u typographic) (sanitizeQuotes t)).
  { intros t0. rewrite sanitize_flat_map. induction t0 as [|u t0 IH]; [constructor|].
    cbn [flat_map]. apply Forall_app. split; [apply plain_clean | exact IH]. }
  assert (H2 : forall t, Forall (fun u => ~ In u typographic) t -> sanitizeQuotes t = t).
  { intros t0 H. rewrite sanitize_flat_map. induction H as [|u t0 Hu _ IH]; [reflexivity|].
    cbn [flat_map]. now rewrite plain_fixed, IH. }
  split; [apply H1|]. split; [apply H2|]. split; [apply H2, H1|]. apply sanitize_app.
Qed.

End ScrapeExtras.
